(** * MdnsScanner: a shallow embedding of the mDNS discovery core

    The development follows the TypeScript class [MdnsScanner]: the query
    scheduler ([#sendQueries], [#setQueryRecords], [#removeQuery]), the waiter
    registry, the address sorter, the TXT parser, the record cache with its
    expiry sweep, and the synchronous prefixes of the public discovery calls.

    Conventions.
    - A JavaScript [Map] is an insertion-ordered association list ([JsMap]),
      because iteration order is observable (query flattening, result lists).
    - [Time.nowMs()] is an explicit argument [now], in milliseconds.
    - Integers that the source keeps in a JS number are [Z]; a number that
      may be [NaN] is a [JsNumber]; an optional field is an [option].
    - Collaborators that are imported from other packages (the DNS codec
      and the size limit [MAX_MDNS_MESSAGE_SIZE], the name constants,
      [isIPv6]) are interfaces, given as type classes.
    - A timer is the delay it was started with. The timeout timer of a
      waiter lives in the waiter entry; one that outlives its entry is kept
      in [orphanTimers]. *)

From Stdlib Require Import ZArith List String Ascii Bool Lia Permutation Sorted.
From Stdlib Require Import DecimalString.
Import ListNotations.

Local Open Scope string_scope.
Local Open Scope list_scope.
Local Open Scope Z_scope.

(** ** JavaScript built-ins used by the scanner *)

Module Js.

(** A JS number that can be [NaN] (the result of [parseInt], or of adding
    [undefined]). *)
Inductive JsNumber : Type :=
| NaN : JsNumber
| Num : Z -> JsNumber.

(** ToNumber on an optional integer field: [undefined] becomes [NaN]. *)
Definition toNumber (o : option Z) : JsNumber :=
  match o with
  | Some z => Num z
  | None => NaN
  end.

Definition add (a b : JsNumber) : JsNumber :=
  match a, b with
  | Num x, Num y => Num (x + y)
  | _, _ => NaN
  end.

(** [a < b]; any comparison with [NaN] is false. *)
Definition lt (a b : JsNumber) : bool :=
  match a, b with
  | Num x, Num y => x <? y
  | _, _ => false
  end.

(** [a >= b]; any comparison with [NaN] is false. *)
Definition ge (a b : JsNumber) : bool :=
  match a, b with
  | Num x, Num y => x >=? y
  | _, _ => false
  end.

(** [a === b] on numbers: [NaN] equals nothing. *)
Definition strictEq (a b : JsNumber) : bool :=
  match a, b with
  | Num x, Num y => x =? y
  | _, _ => false
  end.

(** ToInt32: wrap into the signed 32-bit range. *)
Definition toInt32 (z : Z) : Z := (z + 2 ^ 31) mod 2 ^ 32 - 2 ^ 31.

(** [a >> n]: sign-propagating shift of the 32-bit value, count taken
    modulo 32. *)
Definition shr (a n : Z) : Z := Z.shiftr (toInt32 a) (n mod 32).

(** [a & b] on the 32-bit values. *)
Definition band (a b : Z) : Z := toInt32 (Z.land (toInt32 a) (toInt32 b)).

(** [Math.ceil (a / b)] for integers with [b > 0]. *)
Definition ceilDiv (a b : Z) : Z := - ((- a) / b).

(** [s.startsWith(p)]. *)
Fixpoint startsWith (p s : string) : bool :=
  match p, s with
  | EmptyString, _ => true
  | String _ _, EmptyString => false
  | String a p', String b s' => Ascii.eqb a b && startsWith p' s'
  end.

(** [s.endsWith(p)]. *)
Definition endsWith (p s : string) : bool :=
  let n := String.length s in
  let k := String.length p in
  (k <=? n)%nat && String.eqb (String.substring (n - k) k s) p.

(** [s.split(c)] for a one-character separator: never empty. *)
Fixpoint split (c : ascii) (s : string) : list string :=
  match s with
  | EmptyString => [EmptyString]
  | String a rest =>
      if Ascii.eqb a c then EmptyString :: split c rest
      else match split c rest with
           | [] => [String a EmptyString]
           | w :: ws => String a w :: ws
           end
  end.

(** [s.indexOf(c)] for one character; [None] stands for -1. *)
Fixpoint indexOf (c : ascii) (s : string) : option nat :=
  match s with
  | EmptyString => None
  | String a rest =>
      if Ascii.eqb a c then Some O
      else match indexOf c rest with
           | Some i => Some (S i)
           | None => None
           end
  end.

(** [list.includes(key)] on strings. *)
Definition includes (l : list string) (key : string) : bool :=
  existsb (String.eqb key) l.

(** The ASCII members of StrWhiteSpaceChar (payloads are ASCII). *)
Definition isWhiteSpace (a : ascii) : bool :=
  let n := nat_of_ascii a in
  ((9 <=? n) && (n <=? 13))%nat || (n =? 32)%nat.

Fixpoint trimStart (s : string) : string :=
  match s with
  | String a rest => if isWhiteSpace a then trimStart rest else s
  | EmptyString => s
  end.

(** Value of a digit in the given radix (10 or 16). *)
Definition digitValue (radix : Z) (a : ascii) : option Z :=
  let n := Z.of_nat (nat_of_ascii a) in
  let v :=
    if (48 <=? n) && (n <=? 57) then Some (n - 48)
    else if (97 <=? n) && (n <=? 122) then Some (n - 87)
    else if (65 <=? n) && (n <=? 90) then Some (n - 55)
    else None in
  match v with
  | Some d => if d <? radix then Some d else None
  | None => None
  end.

(** Reads the longest run of digits; [acc] is [None] until a digit is seen. *)
Fixpoint readDigits (radix : Z) (s : string) (acc : option Z) : option Z :=
  match s with
  | EmptyString => acc
  | String a rest =>
      match digitValue radix a with
      | Some d =>
          readDigits radix rest
            (Some (match acc with Some v => v * radix + d | None => d end))
      | None => acc
      end
  end.

(** [parseInt(s)] without a radix argument: leading white space, an
    optional sign, an optional [0x]/[0X] prefix, then digits; [NaN] when
    no digit follows. The model covers strings of 7-bit characters and
    values that a JS number holds exactly: white space is the ASCII part of
    StrWhiteSpaceChar, and the result is the integer read, where JS rounds
    to the nearest double above 2^53. *)
Definition parseInt (s : string) : JsNumber :=
  let s1 := trimStart s in
  let '(sign, s2) :=
    match s1 with
    | String "-" r => (-1, r)
    | String "+" r => (1, r)
    | _ => (1, s1)
    end in
  let '(radix, s3) :=
    match s2 with
    | String "0" (String "x" r) => (16, r)
    | String "0" (String "X" r) => (16, r)
    | _ => (10, s2)
    end in
  match readDigits radix s3 None with
  | Some v => Num (sign * v)
  | None => NaN
  end.

(** Number-to-string conversion of an integer inside a template literal. *)
Definition numberToString (z : Z) : string :=
  NilZero.string_of_int (Z.to_int z).

End Js.

(** ** Insertion-ordered maps and sets ([Map<string, V>], [Set<string>]) *)

Module JsMap.

Definition t (V : Type) : Type := list (string * V).

Definition empty {V : Type} : t V := [].

Fixpoint get {V : Type} (k : string) (m : t V) : option V :=
  match m with
  | [] => None
  | (k', v) :: rest => if String.eqb k' k then Some v else get k rest
  end.

Definition has {V : Type} (k : string) (m : t V) : bool :=
  match get k m with
  | Some _ => true
  | None => false
  end.

(** [set] keeps the position of an existing key and appends a new one. *)
Fixpoint set {V : Type} (k : string) (v : V) (m : t V) : t V :=
  match m with
  | [] => [(k, v)]
  | (k', v') :: rest =>
      if String.eqb k' k then (k, v) :: rest else (k', v') :: set k v rest
  end.

Fixpoint delete {V : Type} (k : string) (m : t V) : t V :=
  match m with
  | [] => []
  | (k', v') :: rest =>
      if String.eqb k' k then rest else (k', v') :: delete k rest
  end.

Definition keys {V : Type} (m : t V) : list string := map fst m.
Definition values {V : Type} (m : t V) : list V := map snd m.
Definition size {V : Type} (m : t V) : Z := Z.of_nat (List.length m).

End JsMap.

Module JsSet.

Definition t : Type := list string.

Definition has (x : string) (s : t) : bool := existsb (String.eqb x) s.

Definition add (x : string) (s : t) : t := if has x s then s else s ++ [x].

Definition delete (x : string) (s : t) : t :=
  filter (fun y => negb (String.eqb x y)) s.

End JsSet.

(** ** DNS data (declared by the codec package) *)

Module DnsRecordType.
Inductive t : Type := A | AAAA | PTR | SRV | TXT | ANY.

Definition eqb (x y : t) : bool :=
  match x, y with
  | A, A | AAAA, AAAA | PTR, PTR | SRV, SRV | TXT, TXT | ANY, ANY => true
  | _, _ => false
  end.
End DnsRecordType.

Module DnsRecordClass.
Inductive t : Type := IN.

Definition eqb (x y : t) : bool := true.
End DnsRecordClass.

Inductive DnsMessageType : Type :=
| Query | TruncatedQuery | Response | TruncatedResponse.

Record DnsQuery : Type := mkDnsQuery {
  q_name : string;
  q_recordType : DnsRecordType.t;
  q_recordClass : DnsRecordClass.t
}.

(** The payload of a decoded record, by record type. A TXT payload that is
    not an array of strings is [TxtValue None]. *)
Inductive DnsRecordValue : Type :=
| AValue (ip : string)
| AAAAValue (ip : string)
| PtrValue (ptr : string)
| SrvValue (target : string) (port : Z)
| TxtValue (items : option (list string))
| AnyValue.

Record DnsRecord : Type := mkDnsRecord {
  r_name : string;
  r_recordClass : DnsRecordClass.t;
  r_ttl : Z;                          (* seconds *)
  r_value : DnsRecordValue
}.

Definition r_recordType (r : DnsRecord) : DnsRecordType.t :=
  match r_value r with
  | AValue _ => DnsRecordType.A
  | AAAAValue _ => DnsRecordType.AAAA
  | PtrValue _ => DnsRecordType.PTR
  | SrvValue _ _ => DnsRecordType.SRV
  | TxtValue _ => DnsRecordType.TXT
  | AnyValue => DnsRecordType.ANY
  end.

Definition Bytes : Type := list Byte.byte.

(** [DnsMessagePartiallyPreEncoded]: answers are already encoded. *)
Record DnsMessage : Type := mkDnsMessage {
  m_messageType : DnsMessageType;
  m_transactionId : Z;
  m_queries : list DnsQuery;
  m_authorities : list Bytes;
  m_answers : list Bytes;
  m_additionalRecords : list Bytes
}.

(** ** External collaborators, as interfaces *)

(** [DnsCodec.encode], [DnsCodec.encodeRecord] and the constant
    [MAX_MDNS_MESSAGE_SIZE] of the general package. The scanner only imports
    them, so all three are parameters: nothing below depends on the value of
    the limit. *)
Class DnsCodec : Type := {
  encode : DnsMessage -> Bytes;
  encodeRecord : DnsRecord -> Bytes;
  MAX_MDNS_MESSAGE_SIZE : Z
}.

(** [isIPv6] and [Bytes.toHex] of the general package, and
    [NodeId.toHexString]. *)
Class General : Type := {
  isIPv6 : string -> bool;
  toHex : Bytes -> string;
  nodeIdToHexString : Z -> string
}.

(** The name constants and builders of [MdnsConsts.js]. *)
Class MdnsConsts : Type := {
  MATTER_SERVICE_QNAME : string;
  MATTER_COMMISSION_SERVICE_QNAME : string;
  getDeviceMatterQname : string -> string -> string;
  getDeviceInstanceQname : string -> string;
  getLongDiscriminatorQname : Z -> string;
  getShortDiscriminatorQname : Z -> string;
  getVendorQname : Z -> string;
  getDeviceTypeQname : Z -> string;
  getCommissioningModeQname : string
}.

(** ** Cache records *)

(** [MatterServerRecordWithExpire]: the lifespan fields are absent until a
    handler writes them. *)
Record MatterServerRecordWithExpire : Type := mkServer {
  a_ip : string;
  a_port : Z;
  a_type : string;
  a_discoveredAt : option Z;
  a_ttl : option Z
}.

(** [ServerAddressIp], the shape handed to callers. *)
Record ServerAddressIp : Type := mkAddress {
  s_ip : string;
  s_port : Z;
  s_type : string
}.

(** The object [#parseTxtRecord] fills: one optional field per known key. *)
Record DiscoveryData : Type := mkDiscoveryData {
  SII : option Z;
  SAI : option Z;
  SAT : option Z;
  T : option Z;
  D : option Z;
  CM : option Z;
  DT : option Z;
  PH : option Z;
  ICD : option Z;
  VP : option string;
  DN : option string;
  RI : option string;
  PI : option string
}.

Definition emptyDiscoveryData : DiscoveryData :=
  mkDiscoveryData None None None None None None None None None
                  None None None None.

Record OperationalDeviceRecordWithExpire : Type := mkOperational {
  od_deviceIdentifier : string;
  od_addresses : JsMap.t MatterServerRecordWithExpire;
  od_discoveredAt : Z;
  od_ttl : Z;
  od_data : DiscoveryData
}.

(** [OperationalDevice], as returned to callers. *)
Record OperationalDevice : Type := mkOperationalDevice {
  o_deviceIdentifier : string;
  o_addresses : list ServerAddressIp;
  o_discoveredAt : Z;
  o_ttl : Z;
  o_data : DiscoveryData
}.

(** [CommissionableDeviceRecordWithExpire]. The TXT fields, [D] and [CM]
    among them, are in [cd_data]; the TXT path writes [expires] and never
    [discoveredAt] or [ttl]. *)
Record CommissionableDeviceRecordWithExpire : Type := mkCommissionable {
  cd_deviceIdentifier : string;
  cd_instanceId : string;
  cd_addresses : JsMap.t MatterServerRecordWithExpire;
  cd_expires : Z;
  cd_discoveredAt : option Z;
  cd_ttl : option Z;
  cd_SD : option Z;
  cd_V : option Js.JsNumber;
  cd_P : option Js.JsNumber;
  cd_data : DiscoveryData
}.

(** [CommissionableDevice], as returned to callers: the cached record with
    the addresses as a sorted list and [expires] overwritten by
    [undefined]. *)
Record CommissionableDevice : Type := mkCommissionableDevice {
  c_record : CommissionableDeviceRecordWithExpire;
  c_addresses : list ServerAddressIp;
  c_expires : option Z
}.

(** [CommissionableDeviceIdentifiers]: an object with optional keys; a key is
    "in" the identifier when its field is [Some]. *)
Record CommissionableDeviceIdentifiers : Type := mkIdentifier {
  instanceId : option string;
  longDiscriminator : option Z;
  shortDiscriminator : option Z;
  vendorId : option Z;
  productId : option Z;
  deviceType : option Z
}.

Definition anyCommissioningDevice : CommissionableDeviceIdentifiers :=
  mkIdentifier None None None None None None.

(** ** Scanner state *)

Record ActiveQuery : Type := mkActiveQuery {
  aq_queries : list DnsQuery;
  aq_answers : list DnsRecord
}.

(** A waiter: the delay (ms) of its timeout timer when it has one, and the
    [resolveOnUpdatedRecords] flag. Calls of its resolver are logged in
    [resolved]. *)
Record Waiter : Type := mkWaiter {
  w_timer : option Z;
  w_resolveOnUpdatedRecords : bool
}.

(** The private fields of [MdnsScanner]. The announce interval is kept in
    milliseconds, the unit in which it is handed to the timer (the source
    holds seconds and multiplies by 1000; 1.5 s is [1500]). A timer is the
    delay it was started with, [None] when absent or stopped. [sent] and
    [resolved] log the effects, oldest first. [orphanTimers] holds the
    timeout timers that still run although their waiter has been replaced
    in [recordWaiters]: the query id their callback will finish and their
    delay, oldest first. *)
Record Scanner : Type := mkScanner {
  activeAnnounceQueries : JsMap.t ActiveQuery;
  queryTimer : option Z;
  nextAnnounceIntervalMs : Z;
  operationalDeviceRecords : JsMap.t OperationalDeviceRecordWithExpire;
  commissionableDeviceRecords : JsMap.t CommissionableDeviceRecordWithExpire;
  recordWaiters : JsMap.t Waiter;
  periodicTimer : option Z;
  closing : bool;
  enableIpv4 : bool;
  transportClosed : bool;
  sent : list DnsMessage;
  resolved : list string;
  orphanTimers : list (string * Z)
}.

Definition START_ANNOUNCE_INTERVAL_MS : Z := 1500.
Definition MAX_ANNOUNCE_INTERVAL_MS : Z := 60 * 60 * 1000.

(** The state built by the constructor. *)
Definition newScanner (ipv4 : bool) : Scanner :=
  {| activeAnnounceQueries := JsMap.empty;
     queryTimer := None;
     nextAnnounceIntervalMs := START_ANNOUNCE_INTERVAL_MS;
     operationalDeviceRecords := JsMap.empty;
     commissionableDeviceRecords := JsMap.empty;
     recordWaiters := JsMap.empty;
     periodicTimer := Some (60 * 1000);
     closing := false;
     enableIpv4 := ipv4;
     transportClosed := false;
     sent := [];
     resolved := [];
     orphanTimers := [] |}.

Definition setActiveAnnounceQueries v (s : Scanner) : Scanner :=
  mkScanner v (queryTimer s) (nextAnnounceIntervalMs s)
    (operationalDeviceRecords s) (commissionableDeviceRecords s)
    (recordWaiters s) (periodicTimer s) (closing s) (enableIpv4 s)
    (transportClosed s) (sent s) (resolved s) (orphanTimers s).

Definition setQueryTimer v (s : Scanner) : Scanner :=
  mkScanner (activeAnnounceQueries s) v (nextAnnounceIntervalMs s)
    (operationalDeviceRecords s) (commissionableDeviceRecords s)
    (recordWaiters s) (periodicTimer s) (closing s) (enableIpv4 s)
    (transportClosed s) (sent s) (resolved s) (orphanTimers s).

Definition setNextAnnounceIntervalMs v (s : Scanner) : Scanner :=
  mkScanner (activeAnnounceQueries s) (queryTimer s) v
    (operationalDeviceRecords s) (commissionableDeviceRecords s)
    (recordWaiters s) (periodicTimer s) (closing s) (enableIpv4 s)
    (transportClosed s) (sent s) (resolved s) (orphanTimers s).

Definition setOperationalDeviceRecords v (s : Scanner) : Scanner :=
  mkScanner (activeAnnounceQueries s) (queryTimer s)
    (nextAnnounceIntervalMs s) v (commissionableDeviceRecords s)
    (recordWaiters s) (periodicTimer s) (closing s) (enableIpv4 s)
    (transportClosed s) (sent s) (resolved s) (orphanTimers s).

Definition setCommissionableDeviceRecords v (s : Scanner) : Scanner :=
  mkScanner (activeAnnounceQueries s) (queryTimer s)
    (nextAnnounceIntervalMs s) (operationalDeviceRecords s) v
    (recordWaiters s) (periodicTimer s) (closing s) (enableIpv4 s)
    (transportClosed s) (sent s) (resolved s) (orphanTimers s).

Definition setRecordWaiters v (s : Scanner) : Scanner :=
  mkScanner (activeAnnounceQueries s) (queryTimer s)
    (nextAnnounceIntervalMs s) (operationalDeviceRecords s)
    (commissionableDeviceRecords s) v (periodicTimer s) (closing s)
    (enableIpv4 s) (transportClosed s) (sent s) (resolved s)
    (orphanTimers s).

Definition setPeriodicTimer v (s : Scanner) : Scanner :=
  mkScanner (activeAnnounceQueries s) (queryTimer s)
    (nextAnnounceIntervalMs s) (operationalDeviceRecords s)
    (commissionableDeviceRecords s) (recordWaiters s) v (closing s)
    (enableIpv4 s) (transportClosed s) (sent s) (resolved s)
    (orphanTimers s).

Definition setClosing v (s : Scanner) : Scanner :=
  mkScanner (activeAnnounceQueries s) (queryTimer s)
    (nextAnnounceIntervalMs s) (operationalDeviceRecords s)
    (commissionableDeviceRecords s) (recordWaiters s) (periodicTimer s) v
    (enableIpv4 s) (transportClosed s) (sent s) (resolved s)
    (orphanTimers s).

Definition setTransportClosed v (s : Scanner) : Scanner :=
  mkScanner (activeAnnounceQueries s) (queryTimer s)
    (nextAnnounceIntervalMs s) (operationalDeviceRecords s)
    (commissionableDeviceRecords s) (recordWaiters s) (periodicTimer s)
    (closing s) (enableIpv4 s) v (sent s) (resolved s) (orphanTimers s).

Definition setSent v (s : Scanner) : Scanner :=
  mkScanner (activeAnnounceQueries s) (queryTimer s)
    (nextAnnounceIntervalMs s) (operationalDeviceRecords s)
    (commissionableDeviceRecords s) (recordWaiters s) (periodicTimer s)
    (closing s) (enableIpv4 s) (transportClosed s) v (resolved s)
    (orphanTimers s).

Definition setResolved v (s : Scanner) : Scanner :=
  mkScanner (activeAnnounceQueries s) (queryTimer s)
    (nextAnnounceIntervalMs s) (operationalDeviceRecords s)
    (commissionableDeviceRecords s) (recordWaiters s) (periodicTimer s)
    (closing s) (enableIpv4 s) (transportClosed s) (sent s) v
    (orphanTimers s).

Definition setOrphanTimers v (s : Scanner) : Scanner :=
  mkScanner (activeAnnounceQueries s) (queryTimer s)
    (nextAnnounceIntervalMs s) (operationalDeviceRecords s)
    (commissionableDeviceRecords s) (recordWaiters s) (periodicTimer s)
    (closing s) (enableIpv4 s) (transportClosed s) (sent s) (resolved s) v.

(** ** Query scheduler *)

Definition len (b : Bytes) : Z := Z.of_nat (List.length b).

Definition withAnswers (answers : list Bytes) (m : DnsMessage) : DnsMessage :=
  mkDnsMessage (m_messageType m) (m_transactionId m) (m_queries m)
    (m_authorities m) answers (m_additionalRecords m).

Definition withQueries (queries : list DnsQuery) (m : DnsMessage)
  : DnsMessage :=
  mkDnsMessage (m_messageType m) (m_transactionId m) queries
    (m_authorities m) (m_answers m) (m_additionalRecords m).

Definition withMessageType (t : DnsMessageType) (m : DnsMessage)
  : DnsMessage :=
  mkDnsMessage t (m_transactionId m) (m_queries m)
    (m_authorities m) (m_answers m) (m_additionalRecords m).

Section QueryScheduler.

Context {codec : DnsCodec}.

(** The [while (true)] loop of [#sendQueries], by recursion on
    [answersToSend]. [msg] is [dnsMessageDataToSend]; the result is the
    list of messages sent from inside the loop and the message left for the
    final send. When the next answer does not fit, the current message is
    sent, its [queries] and [answers] arrays are emptied
    ([queries.length = 0], [answers.length = 0]) and the answer starts the
    next message. *)
Fixpoint packAnswers (emptySize : Z) (answersToSend : list DnsRecord)
    (msg : DnsMessage) (dnsMessageSize : Z)
  : list DnsMessage * DnsMessage :=
  match answersToSend with
  | [] => ([], msg)
  | nextAnswer :: rest =>
      let nextAnswerEncoded := encodeRecord nextAnswer in
      let size := dnsMessageSize + len nextAnswerEncoded in
      if size >? MAX_MDNS_MESSAGE_SIZE then
        let '(out, final) :=
          packAnswers emptySize rest
            (withAnswers [nextAnswerEncoded] (withQueries [] msg))
            (emptySize + len nextAnswerEncoded) in
        (msg :: out, final)
      else
        packAnswers emptySize rest
          (withAnswers (m_answers msg ++ [nextAnswerEncoded]) msg) size
  end.

(** The messages one run of [#sendQueries] hands to the transport, in
    order: those of the loop, then the remaining one as a [Query]. *)
Definition broadcastMessages (queries : list DnsQuery)
    (answers : list DnsRecord) : list DnsMessage :=
  let dnsMessageDataToSend :=
    mkDnsMessage TruncatedQuery 0 queries [] [] [] in
  let emptyDnsMessage := encode dnsMessageDataToSend in
  let '(out, final) :=
    packAnswers (len emptyDnsMessage) answers dnsMessageDataToSend
      (len emptyDnsMessage) in
  out ++ [withMessageType Query final].

(** [#sendQueries]: re-arm the timer with the current interval, double the
    interval up to one hour, and send the messages (every send is taken to
    succeed). *)
Definition sendQueries (st : Scanner) : Scanner :=
  let allQueries := JsMap.values (activeAnnounceQueries st) in
  let queries := flat_map aq_queries allQueries in
  let answers := flat_map aq_answers allQueries in
  let interval := nextAnnounceIntervalMs st in
  let st := setQueryTimer (Some interval) st in
  let nextAnnounceInterval := interval * 2 in
  let st :=
    setNextAnnounceIntervalMs
      (Z.min nextAnnounceInterval MAX_ANNOUNCE_INTERVAL_MS) st in
  setSent (sent st ++ broadcastMessages queries answers) st.

(** The query timer fires [n] times in a row. *)
Fixpoint broadcasts (n : nat) (st : Scanner) : Scanner :=
  match n with
  | O => st
  | S k => broadcasts k (sendQueries st)
  end.

End QueryScheduler.

Definition sameQuery (a b : DnsQuery) : bool :=
  String.eqb (q_name a) (q_name b)
  && DnsRecordType.eqb (q_recordType a) (q_recordType b)
  && DnsRecordClass.eqb (q_recordClass a) (q_recordClass b).

(** [#setQueryRecords]; the new timer has delay 0. *)
Definition setQueryRecords (queryId : string) (queries : list DnsQuery)
    (answers : list DnsRecord) (st : Scanner) : Scanner :=
  let install queries answers :=
    let st :=
      setActiveAnnounceQueries
        (JsMap.set queryId (mkActiveQuery queries answers)
           (activeAnnounceQueries st)) st in
    let st := setNextAnnounceIntervalMs START_ANNOUNCE_INTERVAL_MS st in
    setQueryTimer (Some 0) st in
  match JsMap.get queryId (activeAnnounceQueries st) with
  | Some activeExistingQuery =>
      let existingQueries := aq_queries activeExistingQuery in
      let newQueries :=
        filter
          (fun query =>
             negb (existsb (fun existingQuery => sameQuery existingQuery query)
                     existingQueries))
          queries in
      if (List.length newQueries =? 0)%nat then st
      else install (newQueries ++ existingQueries)
             (aq_answers activeExistingQuery ++ answers)
  | None => install queries answers
  end.

Definition getActiveQueryEarlierAnswers (st : Scanner) : list DnsRecord :=
  flat_map aq_answers (JsMap.values (activeAnnounceQueries st)).

(** [#removeQuery]. *)
Definition removeQuery (queryId : string) (st : Scanner) : Scanner :=
  let st :=
    setActiveAnnounceQueries
      (JsMap.delete queryId (activeAnnounceQueries st)) st in
  if JsMap.size (activeAnnounceQueries st) =? 0 then
    setNextAnnounceIntervalMs START_ANNOUNCE_INTERVAL_MS
      (setQueryTimer None st)
  else st.

(** ** Waiter registry *)

(** The timer of the waiter stored under [queryId], if there is one. *)
Definition waiterTimerOf (queryId : string) (st : Scanner)
  : list (string * Z) :=
  match JsMap.get queryId (recordWaiters st) with
  | Some waiter =>
      match w_timer waiter with
      | Some delay => [(queryId, delay)]
      | None => []
      end
  | None => []
  end.

(** [#registerWaiterPromise], up to its [await]: the timer runs for
    [timeoutSeconds * 1000] ms when a timeout is given. The new entry is
    written with [Map.set] and nothing stops the timer of an entry it
    replaces, so that timer moves to [orphanTimers]. *)
Definition registerWaiterPromise (queryId : string)
    (timeoutSeconds : option Z) (resolveOnUpdatedRecords : bool)
    (st : Scanner) : Scanner :=
  let timer :=
    match timeoutSeconds with
    | Some t => Some (t * 1000)
    | None => None
    end in
  setOrphanTimers (orphanTimers st ++ waiterTimerOf queryId st)
    (setRecordWaiters
       (JsMap.set queryId (mkWaiter timer resolveOnUpdatedRecords)
          (recordWaiters st)) st).

(** [#finishWaiter]. [timer.stop()] stops the timer of the waiter being
    finished, which leaves the state together with the entry. *)
Definition finishWaiter (queryId : string) (resolvePromise : bool)
    (isUpdatedRecord : bool) (st : Scanner) : Scanner :=
  match JsMap.get queryId (recordWaiters st) with
  | None => st
  | Some waiter =>
      if isUpdatedRecord && negb (w_resolveOnUpdatedRecords waiter) then st
      else
        let st :=
          if resolvePromise then setResolved (resolved st ++ [queryId]) st
          else st in
        setRecordWaiters (JsMap.delete queryId (recordWaiters st)) st
  end.

Definition hasWaiter (queryId : string) (st : Scanner) : bool :=
  JsMap.has queryId (recordWaiters st).

Fixpoint removeAt {X : Type} (n : nat) (l : list X) : list X :=
  match n, l with
  | _, [] => []
  | O, _ :: rest => rest
  | S k, x :: rest => x :: removeAt k rest
  end.

(** The callback of a waiter's own timeout timer, [() =>
    this.#finishWaiter(queryId, true)]. *)
Definition waiterTimerFires (queryId : string) (st : Scanner) : Scanner :=
  finishWaiter queryId true false st.

(** The [n]-th timer of [orphanTimers] runs out: it is no longer running,
    and its callback finishes whatever waiter is stored under its query id
    by then. *)
Definition orphanTimerFires (n : nat) (st : Scanner) : Scanner :=
  match nth_error (orphanTimers st) n with
  | Some (queryId, _) =>
      finishWaiter queryId true false
        (setOrphanTimers (removeAt n (orphanTimers st)) st)
  | None => st
  end.

(** ** Address sorter *)

Section AddressSorter.

Context {general : General}.

(** The comparator handed to [entries.sort]. *)
Definition compareEntries (a b : MatterServerRecordWithExpire) : Z :=
  let aIsIPv6 := isIPv6 (a_ip a) in
  let bIsIPv6 := isIPv6 (a_ip b) in
  if aIsIPv6 && negb bIsIPv6 then -1
  else if negb aIsIPv6 && bIsIPv6 then 1
  else if aIsIPv6 && bIsIPv6 then
    if Js.startsWith "fd" (a_ip a) && negb (Js.startsWith "fd" (a_ip b))
    then -1
    else if negb (Js.startsWith "fd" (a_ip a))
            && Js.startsWith "fd" (a_ip b)
    then 1
    else if Js.startsWith "fe80:" (a_ip a)
            && negb (Js.startsWith "fe80:" (a_ip b))
    then -1
    else if negb (Js.startsWith "fe80:" (a_ip a))
            && Js.startsWith "fe80:" (a_ip b)
    then 1
    else 0
  else 0.

(** [Array.prototype.sort] is stable: an element moves in front of the
    elements it compares strictly below, and of no others. *)
Fixpoint insertSorted {X : Type} (cmp : X -> X -> Z) (x : X) (l : list X)
  : list X :=
  match l with
  | [] => [x]
  | y :: rest =>
      if cmp x y >? 0 then y :: insertSorted cmp x rest else x :: l
  end.

Definition arraySort {X : Type} (cmp : X -> X -> Z) (l : list X) : list X :=
  fold_right (insertSorted cmp) [] l.

Definition sortServerEntries (entries : list MatterServerRecordWithExpire)
  : list MatterServerRecordWithExpire :=
  arraySort compareEntries entries.

Definition toServerAddressIp (e : MatterServerRecordWithExpire)
  : ServerAddressIp :=
  mkAddress (a_ip e) (a_port e) "udp".

(** [#getOperationalDeviceRecords]. *)
Definition getOperationalDeviceRecords (deviceMatterQname : string)
    (st : Scanner) : option OperationalDevice :=
  match JsMap.get deviceMatterQname (operationalDeviceRecords st) with
  | None => None
  | Some device =>
      let addresses := od_addresses device in
      if JsMap.size addresses =? 0 then None
      else
        Some
          (mkOperationalDevice (od_deviceIdentifier device)
             (map toServerAddressIp
                (sortServerEntries (JsMap.values addresses)))
             (od_discoveredAt device) (od_ttl device) (od_data device))
  end.

(** The rank of the specification: 0 unique-local IPv6 ([fd]), 1 link-local
    IPv6 ([fe80:]), 2 other IPv6, 3 IPv4. *)
Definition rank (e : MatterServerRecordWithExpire) : Z :=
  if isIPv6 (a_ip e) then
    if Js.startsWith "fd" (a_ip e) then 0
    else if Js.startsWith "fe80:" (a_ip e) then 1
    else 2
  else 3.

Definition ofRank (r : Z) (l : list MatterServerRecordWithExpire)
  : list MatterServerRecordWithExpire :=
  filter (fun e => rank e =? r) l.

End AddressSorter.

(** ** TXT parser *)

Definition intKeys : list string :=
  ["SII"; "SAI"; "SAT"; "T"; "D"; "CM"; "DT"; "PH"; "ICD"].

Definition strKeys : list string := ["VP"; "DN"; "RI"; "PI"].

(** [result[key] = intValue] for a key of [intKeys]. *)
Definition setInt (key : string) (v : Z) (r : DiscoveryData) : DiscoveryData :=
  if String.eqb key "SII" then
    mkDiscoveryData (Some v) (SAI r) (SAT r) (T r) (D r) (CM r) (DT r) (PH r) (ICD r) (VP r) (DN r) (RI r) (PI r)
  else
  if String.eqb key "SAI" then
    mkDiscoveryData (SII r) (Some v) (SAT r) (T r) (D r) (CM r) (DT r) (PH r) (ICD r) (VP r) (DN r) (RI r) (PI r)
  else
  if String.eqb key "SAT" then
    mkDiscoveryData (SII r) (SAI r) (Some v) (T r) (D r) (CM r) (DT r) (PH r) (ICD r) (VP r) (DN r) (RI r) (PI r)
  else
  if String.eqb key "T" then
    mkDiscoveryData (SII r) (SAI r) (SAT r) (Some v) (D r) (CM r) (DT r) (PH r) (ICD r) (VP r) (DN r) (RI r) (PI r)
  else
  if String.eqb key "D" then
    mkDiscoveryData (SII r) (SAI r) (SAT r) (T r) (Some v) (CM r) (DT r) (PH r) (ICD r) (VP r) (DN r) (RI r) (PI r)
  else
  if String.eqb key "CM" then
    mkDiscoveryData (SII r) (SAI r) (SAT r) (T r) (D r) (Some v) (DT r) (PH r) (ICD r) (VP r) (DN r) (RI r) (PI r)
  else
  if String.eqb key "DT" then
    mkDiscoveryData (SII r) (SAI r) (SAT r) (T r) (D r) (CM r) (Some v) (PH r) (ICD r) (VP r) (DN r) (RI r) (PI r)
  else
  if String.eqb key "PH" then
    mkDiscoveryData (SII r) (SAI r) (SAT r) (T r) (D r) (CM r) (DT r) (Some v) (ICD r) (VP r) (DN r) (RI r) (PI r)
  else
  if String.eqb key "ICD" then
    mkDiscoveryData (SII r) (SAI r) (SAT r) (T r) (D r) (CM r) (DT r) (PH r) (Some v) (VP r) (DN r) (RI r) (PI r)
  else
  r.

(** [result[key] = value] for a key of [strKeys]. *)
Definition setStr (key : string) (v : string) (r : DiscoveryData)
  : DiscoveryData :=
  if String.eqb key "VP" then
    mkDiscoveryData (SII r) (SAI r) (SAT r) (T r) (D r) (CM r) (DT r) (PH r) (ICD r) (Some v) (DN r) (RI r) (PI r)
  else
  if String.eqb key "DN" then
    mkDiscoveryData (SII r) (SAI r) (SAT r) (T r) (D r) (CM r) (DT r) (PH r) (ICD r) (VP r) (Some v) (RI r) (PI r)
  else
  if String.eqb key "RI" then
    mkDiscoveryData (SII r) (SAI r) (SAT r) (T r) (D r) (CM r) (DT r) (PH r) (ICD r) (VP r) (DN r) (Some v) (PI r)
  else
  if String.eqb key "PI" then
    mkDiscoveryData (SII r) (SAI r) (SAT r) (T r) (D r) (CM r) (DT r) (PH r) (ICD r) (VP r) (DN r) (RI r) (Some v)
  else
  r.

Definition setT (v : option Z) (r : DiscoveryData) : DiscoveryData :=
  mkDiscoveryData (SII r) (SAI r) (SAT r) v (D r) (CM r) (DT r) (PH r) (ICD r) (VP r) (DN r) (RI r) (PI r).

Definition setICD (v : option Z) (r : DiscoveryData) : DiscoveryData :=
  mkDiscoveryData (SII r) (SAI r) (SAT r) (T r) (D r) (CM r) (DT r) (PH r) v (VP r) (DN r) (RI r) (PI r).

(** The spread [{...old, ...txtData}]: a key of [txtData] overrides. *)
Definition orElse {X : Type} (new old : option X) : option X :=
  match new with
  | Some _ => new
  | None => old
  end.

Definition mergeData (old new : DiscoveryData) : DiscoveryData :=
  mkDiscoveryData (orElse (SII new) (SII old))
    (orElse (SAI new) (SAI old))
    (orElse (SAT new) (SAT old))
    (orElse (T new) (T old))
    (orElse (D new) (D old))
    (orElse (CM new) (CM old))
    (orElse (DT new) (DT old))
    (orElse (PH new) (PH old))
    (orElse (ICD new) (ICD old))
    (orElse (VP new) (VP old))
    (orElse (DN new) (DN old))
    (orElse (RI new) (RI old))
    (orElse (PI new) (PI old)).

(** [Array.isArray(value)] on a record's payload. *)
Definition arrayValue (record : DnsRecord) : option (list string) :=
  match r_value record with
  | TxtValue items => items
  | _ => None
  end.

(** One round of the [for (const item of value)] loop. *)
Definition parseTxtItem (result : DiscoveryData) (item : string)
  : DiscoveryData :=
  match Js.split "=" item with
  | key :: value :: _ =>
      if Js.includes intKeys key then
        match Js.parseInt value with
        | Js.NaN => result
        | Js.Num intValue => setInt key intValue result
        end
      else if Js.includes strKeys key then setStr key value result
      else result
  | _ => result
  end.

(** The object after the loop, before the defaults. *)
Definition parseTxtItems (items : list string) : DiscoveryData :=
  fold_left parseTxtItem items emptyDiscoveryData.

(** The defaults: [T] is 0 when undefined or 1, [ICD] is 0 when undefined. *)
Definition fillDefaults (result : DiscoveryData) : DiscoveryData :=
  let result :=
    match T result with
    | None => setT (Some 0) result
    | Some t => if t =? 1 then setT (Some 0) result else result
    end in
  match ICD result with
  | None => setICD (Some 0) result
  | Some _ => result
  end.

(** [#parseTxtRecord]. *)
Definition parseTxtRecord (record : DnsRecord) : DiscoveryData :=
  let result :=
    match arrayValue record with
    | Some items => parseTxtItems items
    | None => emptyDiscoveryData
    end in
  fillDefaults result.

(** What [#parseCommissionableTxtRecord] returns: a fresh address map, the
    expiry and the TXT fields. *)
Record ParsedCommissionableTxt : Type := mkParsed {
  p_addresses : JsMap.t MatterServerRecordWithExpire;
  p_expires : Z;
  p_data : DiscoveryData
}.

(** [#parseCommissionableTxtRecord]; [None] is [undefined]. *)
Definition parseCommissionableTxtRecord (now : Z) (record : DnsRecord)
  : option ParsedCommissionableTxt :=
  match arrayValue record with
  | None => None
  | Some _ =>
      let result :=
        mkParsed JsMap.empty (now + r_ttl record * 1000)
          (parseTxtRecord record) in
      match D (p_data result), CM (p_data result) with
      | Some _, Some _ => Some result
      | _, _ => None
      end
  end.

(** The key of a [key=value] item, as [item.split("=")] yields it. *)
Definition itemKey (item : string) : string :=
  match Js.split "=" item with
  | key :: _ => key
  | [] => ""
  end.

(** No item of the payload carries the key. *)
Definition keyAbsent (key : string) (items : list string) : bool :=
  forallb (fun item => negb (String.eqb (itemKey item) key)) items.

(** [#extractInstanceId]. *)
Definition extractInstanceId (instanceName : string) : string :=
  match Js.indexOf "." instanceName with
  | Some instanceNameSeparator =>
      String.substring 0 instanceNameSeparator instanceName
  | None => instanceName
  end.

(** ** Message correlator: operational records *)

Definition withOperationalAddresses
    (addresses : JsMap.t MatterServerRecordWithExpire)
    (d : OperationalDeviceRecordWithExpire)
  : OperationalDeviceRecordWithExpire :=
  mkOperational (od_deviceIdentifier d) addresses (od_discoveredAt d)
    (od_ttl d) (od_data d).

Definition withDiscoveredAt (v : option Z) (a : MatterServerRecordWithExpire)
  : MatterServerRecordWithExpire :=
  mkServer (a_ip a) (a_port a) (a_type a) v (a_ttl a).

Definition withTtl (v : option Z) (a : MatterServerRecordWithExpire)
  : MatterServerRecordWithExpire :=
  mkServer (a_ip a) (a_port a) (a_type a) (a_discoveredAt a) v.

(** [#handleIpRecords]: the A (when IPv4 is enabled) and AAAA records owned
    by [target], as [(value, ttl)] pairs; a literal starting with [fe80::]
    gets the interface appended. *)
Definition handleIpRecords (ipv4 : bool) (answers : list DnsRecord)
    (target : string) (netInterface : string) : list (string * Z) :=
  flat_map
    (fun record =>
       if String.eqb (r_name record) target then
         match r_value record with
         | AValue value =>
             if ipv4 then
               [(if Js.startsWith "fe80::" value
                 then String.append value (String.append "%" netInterface)
                 else value, r_ttl record)]
             else []
         | AAAAValue value =>
             [(if Js.startsWith "fe80::" value
               then String.append value (String.append "%" netInterface)
               else value, r_ttl record)]
         | _ => []
         end
       else [])
    answers.

(** One round of the address loop of [#handleOperationalSrvRecord]: a zero
    TTL deletes the address; otherwise the entry (the stored one, or a new
    [{ip, port, type}]) gets [discoveredAt = now + ttl * 1000] and is stored
    under its [ip]. The [ttl] field is not written. *)
Definition refreshOperationalAddress (now port : Z)
    (addresses : JsMap.t MatterServerRecordWithExpire) (entry : string * Z)
  : JsMap.t MatterServerRecordWithExpire :=
  let '(ip, ttl) := entry in
  if ttl =? 0 then JsMap.delete ip addresses
  else
    let matterServer :=
      match JsMap.get ip addresses with
      | Some found => found
      | None => mkServer ip port "udp" None None
      end in
    let matterServer :=
      withDiscoveredAt (Some (now + ttl * 1000)) matterServer in
    JsMap.set (a_ip matterServer) matterServer addresses.

(** One round of the address loop of the SRV part of
    [#handleCommissionableRecords]: the sibling of the loop above, writing
    [discoveredAt = now] and [ttl = ttl * 1000]. *)
Definition refreshCommissionableAddress (now port : Z)
    (addresses : JsMap.t MatterServerRecordWithExpire) (entry : string * Z)
  : JsMap.t MatterServerRecordWithExpire :=
  let '(ip, ttl) := entry in
  if ttl =? 0 then JsMap.delete ip addresses
  else
    let matterServer :=
      match JsMap.get ip addresses with
      | Some found => found
      | None => mkServer ip port "udp" None None
      end in
    let matterServer := withDiscoveredAt (Some now) matterServer in
    let matterServer := withTtl (Some (ttl * 1000)) matterServer in
    JsMap.set ip matterServer addresses.

(** [#handleOperationalTxtRecord]. *)
Definition handleOperationalTxtRecord (now : Z) (record : DnsRecord)
    (st : Scanner) : Scanner :=
  let matterName := r_name record in
  let ttl := r_ttl record in
  if ttl =? 0 then
    if JsMap.has matterName (operationalDeviceRecords st) then
      setOperationalDeviceRecords
        (JsMap.delete matterName (operationalDeviceRecords st)) st
    else st
  else
    match arrayValue record with
    | None => st
    | Some _ =>
        let txtData := parseTxtRecord record in
        let device :=
          match JsMap.get matterName (operationalDeviceRecords st) with
          | Some device =>
              mkOperational (od_deviceIdentifier device)
                (od_addresses device) now (ttl * 1000)
                (mergeData (od_data device) txtData)
          | None =>
              mkOperational matterName JsMap.empty now (ttl * 1000)
                (mergeData emptyDiscoveryData txtData)
          end in
        setOperationalDeviceRecords
          (JsMap.set matterName device (operationalDeviceRecords st)) st
    end.

(** The follow-up address queries for a target. *)
Definition addressQueries (ipv4 : bool) (target : string) : list DnsQuery :=
  mkDnsQuery target DnsRecordType.AAAA DnsRecordClass.IN
  :: (if ipv4 then [mkDnsQuery target DnsRecordType.A DnsRecordClass.IN]
      else []).

(** [#handleOperationalSrvRecord]. The record is an SRV record (the caller
    selects it by type), so its payload is a target and a port. *)
Definition handleOperationalSrvRecord (now : Z) (record : DnsRecord)
    (answers formerAnswers : list DnsRecord) (netInterface : string)
    (st : Scanner) : Scanner :=
  match r_value record with
  | SrvValue target port =>
      let matterName := r_name record in
      let ttl := r_ttl record in
      if ttl =? 0 then
        if JsMap.has matterName (operationalDeviceRecords st) then
          setOperationalDeviceRecords
            (JsMap.delete matterName (operationalDeviceRecords st)) st
        else st
      else
        let ips :=
          handleIpRecords (enableIpv4 st) (answers ++ formerAnswers) target
            netInterface in
        let deviceExisted :=
          JsMap.has matterName (operationalDeviceRecords st) in
        let device :=
          match JsMap.get matterName (operationalDeviceRecords st) with
          | Some device => device
          | None =>
              mkOperational matterName JsMap.empty now (ttl * 1000)
                emptyDiscoveryData
          end in
        let addresses :=
          fold_left (refreshOperationalAddress now port) ips
            (od_addresses device) in
        let st :=
          if (0 <? List.length ips)%nat then
            setOperationalDeviceRecords
              (JsMap.set matterName
                 (withOperationalAddresses addresses device)
                 (operationalDeviceRecords st)) st
          else st in
        if (JsMap.size addresses =? 0) && hasWaiter matterName st then
          setQueryRecords matterName (addressQueries (enableIpv4 st) target)
            answers st
        else if JsMap.size addresses >? 0 then
          finishWaiter matterName true deviceExisted st
        else st
  | _ => st
  end.

Section OperationalRecords.

Context {consts : MdnsConsts}.

(** [#handleOperationalRecords]: the flag says whether a record was
    handled. *)
Definition handleOperationalRecords (now : Z)
    (answers formerAnswers : list DnsRecord) (netInterface : string)
    (st : Scanner) : bool * Scanner :=
  let isTxt record :=
    DnsRecordType.eqb (r_recordType record) DnsRecordType.TXT
    && Js.endsWith MATTER_SERVICE_QNAME (r_name record) in
  let isSrv record :=
    DnsRecordType.eqb (r_recordType record) DnsRecordType.SRV
    && Js.endsWith MATTER_SERVICE_QNAME (r_name record) in
  let '(recordsHandled, st) :=
    match find isTxt answers with
    | Some operationalTxtRecord =>
        (true, handleOperationalTxtRecord now operationalTxtRecord st)
    | None => (false, st)
    end in
  let operationalSrvRecord :=
    match find isSrv answers with
    | Some record => Some record
    | None => find isSrv formerAnswers
    end in
  match operationalSrvRecord with
  | Some record =>
      (true,
       handleOperationalSrvRecord now record answers formerAnswers
         netInterface st)
  | None => (recordsHandled, st)
  end.

End OperationalRecords.

(** ** Message correlator: the TXT part of the commissionable records *)

(** The short discriminator written when [D] is defined and [SD] is not. *)
Definition deriveSD (parsedD parsedSD : option Z) : option Z :=
  match parsedD, parsedSD with
  | Some d, None => Some (Js.band (Js.shr d 8) 15)
  | _, _ => parsedSD
  end.

(** [V] and [P] from [VP.split("+")]. *)
Definition splitVP (vp : option string)
  : option Js.JsNumber * option Js.JsNumber :=
  match vp with
  | None => (None, None)
  | Some s =>
      let VpValueArr := Js.split "+" s in
      (match nth_error VpValueArr 0 with
       | Some v => Some (Js.parseInt v)
       | None => None
       end,
       match nth_error VpValueArr 1 with
       | Some p => Some (Js.parseInt p)
       | None => None
       end)
  end.

(** One round of the loop over the TXT records in
    [#handleCommissionableRecords]; the state is the cache and the set
    [queryMissingDataForInstances]. The TXT parser has no [SD] key, so
    [parsedRecord.SD] is [undefined] when the derivation is reached. *)
Definition handleCommissionableTxtRecord (now : Z)
    (state : JsMap.t CommissionableDeviceRecordWithExpire * JsSet.t)
    (record : DnsRecord)
  : JsMap.t CommissionableDeviceRecordWithExpire * JsSet.t :=
  let '(records, queryMissingDataForInstances) := state in
  let name := r_name record in
  if r_ttl record =? 0 then
    (if JsMap.has name records then JsMap.delete name records else records,
     queryMissingDataForInstances)
  else
    match parseCommissionableTxtRecord now record with
    | None => state
    | Some parsedRecord =>
        let instanceId := extractInstanceId name in
        let SD := deriveSD (D (p_data parsedRecord)) None in
        let '(V, P) := splitVP (VP (p_data parsedRecord)) in
        let build addresses :=
          mkCommissionable instanceId instanceId addresses
            (p_expires parsedRecord) None None SD V P
            (p_data parsedRecord) in
        match JsMap.get name records with
        | None =>
            (JsMap.set name (build (p_addresses parsedRecord)) records,
             JsSet.add name queryMissingDataForInstances)
        | Some storedRecord =>
            (JsMap.set name (build (cd_addresses storedRecord)) records,
             queryMissingDataForInstances)
        end
    end.

(** ** Message correlator: selecting the commissionable TXT records *)

Section CommissionableRecords.

Context {consts : MdnsConsts}.

(** The records of [#handleCommissionableRecords]: those of the packet whose
    name ends with the commission service name, or, when there is none,
    those of the earlier answers. *)
Definition commissionableRecordsOf (answers formerAnswers : list DnsRecord)
  : list DnsRecord :=
  let ofService :=
    filter
      (fun record =>
         Js.endsWith MATTER_COMMISSION_SERVICE_QNAME (r_name record)) in
  match ofService answers with
  | [] => ofService formerAnswers
  | commissionableRecords => commissionableRecords
  end.

(** The first loop of [#handleCommissionableRecords], over the TXT records:
    the cache it leaves and the set [queryMissingDataForInstances]. *)
Definition handleCommissionableTxtRecords (now : Z)
    (answers formerAnswers : list DnsRecord)
    (records : JsMap.t CommissionableDeviceRecordWithExpire)
  : JsMap.t CommissionableDeviceRecordWithExpire * JsSet.t :=
  let txtRecords :=
    filter
      (fun record =>
         DnsRecordType.eqb (r_recordType record) DnsRecordType.TXT)
      (commissionableRecordsOf answers formerAnswers) in
  fold_left (handleCommissionableTxtRecord now) txtRecords (records, []).

End CommissionableRecords.

(** ** Expiry sweep *)

(** [now < discoveredAt + ttl] on an address entry; an undefined field makes
    the sum [NaN] and the comparison false. *)
Definition addressAlive (now : Z) (a : MatterServerRecordWithExpire) : bool :=
  Js.lt (Js.Num now)
    (Js.add (Js.toNumber (a_discoveredAt a)) (Js.toNumber (a_ttl a))).

(** The inner [forEach] of [#expire] over a snapshot of the address entries. *)
Definition expireAddresses (now : Z)
    (addresses : JsMap.t MatterServerRecordWithExpire)
  : JsMap.t MatterServerRecordWithExpire :=
  fold_left
    (fun remaining entry =>
       if addressAlive now (snd entry) then remaining
       else JsMap.delete (fst entry) remaining)
    addresses addresses.

Definition expireOperationalDevice (now : Z)
    (records : JsMap.t OperationalDeviceRecordWithExpire)
    (entry : string * OperationalDeviceRecordWithExpire)
  : JsMap.t OperationalDeviceRecordWithExpire :=
  let '(recordKey, device) := entry in
  let expires := od_discoveredAt device + od_ttl device in
  let addresses :=
    if now <? expires then expireAddresses now (od_addresses device)
    else od_addresses device in
  if (now >=? expires) || (JsMap.size addresses =? 0) then
    JsMap.delete recordKey records
  else
    JsMap.set recordKey (withOperationalAddresses addresses device) records.

Definition withCommissionableAddresses
    (addresses : JsMap.t MatterServerRecordWithExpire)
    (d : CommissionableDeviceRecordWithExpire)
  : CommissionableDeviceRecordWithExpire :=
  mkCommissionable (cd_deviceIdentifier d) (cd_instanceId d) addresses
    (cd_expires d) (cd_discoveredAt d) (cd_ttl d) (cd_SD d) (cd_V d)
    (cd_P d) (cd_data d).

Definition expireCommissionableDevice (now : Z)
    (records : JsMap.t CommissionableDeviceRecordWithExpire)
    (entry : string * CommissionableDeviceRecordWithExpire)
  : JsMap.t CommissionableDeviceRecordWithExpire :=
  let '(recordKey, device) := entry in
  let expires :=
    Js.add (Js.toNumber (cd_discoveredAt device))
      (Js.toNumber (cd_ttl device)) in
  let addresses :=
    if Js.lt (Js.Num now) expires
    then expireAddresses now (cd_addresses device)
    else cd_addresses device in
  if Js.ge (Js.Num now) expires || (JsMap.size addresses =? 0) then
    JsMap.delete recordKey records
  else
    JsMap.set recordKey (withCommissionableAddresses addresses device)
      records.

(** [#expire], run by the 60-second periodic timer. *)
Definition expire (now : Z) (st : Scanner) : Scanner :=
  let st :=
    setOperationalDeviceRecords
      (fold_left (expireOperationalDevice now) (operationalDeviceRecords st)
         (operationalDeviceRecords st)) st in
  setCommissionableDeviceRecords
    (fold_left (expireCommissionableDevice now)
       (commissionableDeviceRecords st) (commissionableDeviceRecords st)) st.

(** ** Commissionable queries *)

Definition optEqZ (field : option Z) (wanted : Z) : bool :=
  match field with
  | Some v => v =? wanted
  | None => false
  end.

Definition optEqNum (field : option Js.JsNumber) (wanted : Z) : bool :=
  match field with
  | Some v => Js.strictEq v (Js.Num wanted)
  | None => false
  end.

Definition isSome {X : Type} (o : option X) : bool :=
  match o with
  | Some _ => true
  | None => false
  end.

(** [Object.keys(identifier).length]. *)
Definition keyCount (identifier : CommissionableDeviceIdentifiers) : nat :=
  (if isSome (instanceId identifier) then 1 else 0)
  + (if isSome (longDiscriminator identifier) then 1 else 0)
  + (if isSome (shortDiscriminator identifier) then 1 else 0)
  + (if isSome (vendorId identifier) then 1 else 0)
  + (if isSome (productId identifier) then 1 else 0)
  + (if isSome (deviceType identifier) then 1 else 0).

(** The [if]/[else if] chain of [#getCommissionableDeviceRecords]. *)
Definition matchingRecords (identifier : CommissionableDeviceIdentifiers)
    (storedRecords : list CommissionableDeviceRecordWithExpire)
  : list CommissionableDeviceRecordWithExpire :=
  match instanceId identifier with
  | Some wanted =>
      filter (fun r => String.eqb (cd_instanceId r) wanted) storedRecords
  | None =>
  match longDiscriminator identifier with
  | Some wanted => filter (fun r => optEqZ (D (cd_data r)) wanted) storedRecords
  | None =>
  match shortDiscriminator identifier with
  | Some wanted => filter (fun r => optEqZ (cd_SD r) wanted) storedRecords
  | None =>
  match vendorId identifier, productId identifier with
  | Some vendor, Some product =>
      filter (fun r => optEqNum (cd_V r) vendor && optEqNum (cd_P r) product)
        storedRecords
  | Some vendor, None =>
      filter (fun r => optEqNum (cd_V r) vendor) storedRecords
  | None, product =>
  match deviceType identifier with
  | Some wanted =>
      filter (fun r => optEqZ (DT (cd_data r)) wanted) storedRecords
  | None =>
  match product with
  | Some wanted => filter (fun r => optEqNum (cd_P r) wanted) storedRecords
  | None =>
      if (keyCount identifier =? 0)%nat then
        filter
          (fun r => optEqZ (CM (cd_data r)) 1 || optEqZ (CM (cd_data r)) 2)
          storedRecords
      else []
  end end end end end end.

Section CommissionableQueries.

Context {general : General} {consts : MdnsConsts}.

(** The object built by the final [map]. *)
Definition toCommissionableDevice
    (record : CommissionableDeviceRecordWithExpire) : CommissionableDevice :=
  mkCommissionableDevice record
    (map toServerAddressIp
       (sortServerEntries (JsMap.values (cd_addresses record))))
    None.

(** [#getCommissionableDeviceRecords]. *)
Definition getCommissionableDeviceRecords
    (identifier : CommissionableDeviceIdentifiers) (st : Scanner)
  : list CommissionableDevice :=
  map toCommissionableDevice
    (matchingRecords identifier
       (JsMap.values (commissionableDeviceRecords st))).

(** [#buildCommissionableQueryIdentifier]. *)
Definition buildCommissionableQueryIdentifier
    (identifier : CommissionableDeviceIdentifiers) : string :=
  match instanceId identifier with
  | Some i => getDeviceInstanceQname i
  | None =>
  match longDiscriminator identifier with
  | Some d => getLongDiscriminatorQname d
  | None =>
  match shortDiscriminator identifier with
  | Some d => getShortDiscriminatorQname d
  | None =>
  match vendorId identifier, productId identifier with
  | Some v, Some p =>
      String.append "_VP"
        (String.append (Js.numberToString v)
           (String.append "+" (Js.numberToString p)))
  | Some v, None => getVendorQname v
  | None, product =>
  match deviceType identifier with
  | Some t => getDeviceTypeQname t
  | None =>
  match product with
  | Some p => String.append "_P" (Js.numberToString p)
  | None => getCommissioningModeQname
  end end end end end end.

(** [#getCommissionableQueryRecords]. *)
Definition getCommissionableQueryRecords
    (identifier : CommissionableDeviceIdentifiers) : list DnsQuery :=
  let second :=
    match instanceId identifier with
    | Some i => getDeviceInstanceQname i
    | None =>
    match longDiscriminator identifier with
    | Some d => getLongDiscriminatorQname d
    | None =>
    match shortDiscriminator identifier with
    | Some d => getShortDiscriminatorQname d
    | None =>
    match vendorId identifier with
    | Some v => getVendorQname v
    | None =>
    match deviceType identifier with
    | Some t => getDeviceTypeQname t
    | None => getCommissioningModeQname
    end end end end end in
  map (fun name => mkDnsQuery name DnsRecordType.PTR DnsRecordClass.IN)
    [MATTER_COMMISSION_SERVICE_QNAME; second].

End CommissionableQueries.

(** ** Public discovery calls

    An [async] method is followed up to its first [await] on a waiter: it
    throws, returns, or is suspended with the state it leaves behind. *)

Inductive Error : Type :=
| ImplementationError (message : string).

Inductive Outcome (R : Type) : Type :=
| Throws (e : Error)
| Returns (r : R) (st : Scanner)
| Awaits (st : Scanner).

Arguments Throws {R} e.
Arguments Returns {R} r st.
Arguments Awaits {R} st.

(** [s.toUpperCase()] on ASCII letters. *)
Fixpoint toUpperCase (s : string) : string :=
  match s with
  | EmptyString => EmptyString
  | String a rest =>
      let n := nat_of_ascii a in
      String
        (if ((97 <=? n) && (n <=? 122))%nat then ascii_of_nat (n - 32) else a)
        (toUpperCase rest)
  end.

Section PublicApi.

Context {general : General} {consts : MdnsConsts}.

(** [#createOperationalMatterQName]. *)
Definition createOperationalMatterQName (operationalId : Bytes)
    (nodeId : Z) : string :=
  let operationalIdString := toUpperCase (toHex operationalId) in
  getDeviceMatterQname operationalIdString (nodeIdToHexString nodeId).

(** [findOperationalDevice], up to [await promise]. *)
Definition findOperationalDevice (operationalId : Bytes) (nodeId : Z)
    (timeoutSeconds : option Z) (ignoreExistingRecords : bool)
    (st : Scanner) : Outcome (option OperationalDevice) :=
  if closing st then
    Throws
      (ImplementationError
         "Cannot discover operational device because scanner is closing.")
  else
    let deviceMatterQname :=
      createOperationalMatterQName operationalId nodeId in
    let storedDevice :=
      if ignoreExistingRecords then None
      else getOperationalDeviceRecords deviceMatterQname st in
    match storedDevice with
    | Some _ => Returns storedDevice st
    | None =>
        let st :=
          registerWaiterPromise deviceMatterQname timeoutSeconds true st in
        let st :=
          setQueryRecords deviceMatterQname
            [mkDnsQuery deviceMatterQname DnsRecordType.SRV
               DnsRecordClass.IN] [] st in
        Awaits st
    end.

(** [findOperationalDevice] after the promise has resolved. *)
Definition findOperationalDeviceResumed (operationalId : Bytes)
    (nodeId : Z) (st : Scanner) : option OperationalDevice * Scanner :=
  let deviceMatterQname :=
    createOperationalMatterQName operationalId nodeId in
  (getOperationalDeviceRecords deviceMatterQname st,
   removeQuery deviceMatterQname st).

(** [findCommissionableDevices], up to [await promise]; the default of
    [timeoutSeconds] is 5. The method does not read [#closing]. *)
Definition findCommissionableDevices
    (identifier : CommissionableDeviceIdentifiers) (timeoutSeconds : Z)
    (ignoreExistingRecords : bool) (st : Scanner)
  : Outcome (list CommissionableDevice) :=
  let storedRecords :=
    if ignoreExistingRecords then []
    else
      filter (fun d => (0 <? List.length (c_addresses d))%nat)
        (getCommissionableDeviceRecords identifier st) in
  if (List.length storedRecords =? 0)%nat then
    let queryId := buildCommissionableQueryIdentifier identifier in
    let st := registerWaiterPromise queryId (Some timeoutSeconds) true st in
    let st :=
      setQueryRecords queryId (getCommissionableQueryRecords identifier)
        [] st in
    Awaits st
  else Returns storedRecords st.

(** [findCommissionableDevices] after the promise has resolved. *)
Definition findCommissionableDevicesResumed
    (identifier : CommissionableDeviceIdentifiers) (st : Scanner)
  : list CommissionableDevice * Scanner :=
  let queryId := buildCommissionableQueryIdentifier identifier in
  (getCommissionableDeviceRecords identifier st, removeQuery queryId st).

(** The start of [findCommissionableDevicesContinuously]: the end time
    (a timeout of 0 is falsy, so it gives none) and the installed query. *)
Definition continuousStart (now : Z)
    (identifier : CommissionableDeviceIdentifiers)
    (timeoutSeconds : option Z) (st : Scanner) : option Z * Scanner :=
  let discoveryEndTime :=
    match timeoutSeconds with
    | Some t => if t =? 0 then None else Some (now + t * 1000)
    | None => None
    end in
  let queryId := buildCommissionableQueryIdentifier identifier in
  (discoveryEndTime,
   setQueryRecords queryId (getCommissionableQueryRecords identifier) []
     st).

(** The [forEach] at the head of the loop: the devices passed to the
    callback, and the grown set of seen identifiers. *)
Definition reportNewDevices (devices : list CommissionableDevice)
    (discoveredDevices : JsSet.t) : list CommissionableDevice * JsSet.t :=
  fold_left
    (fun acc device =>
       let '(reported, seen) := acc in
       let deviceIdentifier := cd_deviceIdentifier (c_record device) in
       if JsSet.has deviceIdentifier seen then acc
       else (reported ++ [device], JsSet.add deviceIdentifier seen))
    devices ([], discoveredDevices).

Inductive Iteration : Type :=
| Break (reported : list CommissionableDevice) (seen : JsSet.t)
| Wait (reported : list CommissionableDevice) (seen : JsSet.t)
       (st : Scanner).

(** One round of the [while (!canceled)] loop, up to the [await]. The
    outer [let remainingTime;] is never assigned: the [const] of the same
    name inside the [if] block is another variable, so the outer one is
    [undefined] at the call of [#registerWaiterPromise]. *)
Definition continuousIteration (now : Z)
    (identifier : CommissionableDeviceIdentifiers)
    (discoveryEndTime : option Z) (discoveredDevices : JsSet.t)
    (st : Scanner) : Iteration :=
  let queryId := buildCommissionableQueryIdentifier identifier in
  let '(reported, seen) :=
    reportNewDevices (getCommissionableDeviceRecords identifier st)
      discoveredDevices in
  let remainingTime : option Z := None in
  let stop :=
    match discoveryEndTime with
    | Some endTime =>
        let remainingTime' := Js.ceilDiv (endTime - now) 1000 in
        remainingTime' <=? 0
    | None => false
    end in
  if stop then Break reported seen
  else Wait reported seen (registerWaiterPromise queryId remainingTime false st).

(** The remaining time the inner [const] holds, in seconds. *)
Definition remainingSeconds (now endTime : Z) : Z :=
  Js.ceilDiv (endTime - now) 1000.

End PublicApi.

(** ** Cancelling and reading *)

Section CachedReads.

Context {general : General} {consts : MdnsConsts}.

(** [cancelOperationalDeviceDiscovery]; the default of [resolvePromise] is
    [true]. *)
Definition cancelOperationalDeviceDiscovery (operationalId : Bytes)
    (nodeId : Z) (resolvePromise : bool) (st : Scanner) : Scanner :=
  let deviceMatterQname :=
    createOperationalMatterQName operationalId nodeId in
  finishWaiter deviceMatterQname resolvePromise false st.

(** [cancelCommissionableDeviceDiscovery]. *)
Definition cancelCommissionableDeviceDiscovery
    (identifier : CommissionableDeviceIdentifiers) (resolvePromise : bool)
    (st : Scanner) : Scanner :=
  let queryId := buildCommissionableQueryIdentifier identifier in
  finishWaiter queryId resolvePromise false st.

(** [getDiscoveredOperationalDevice]. *)
Definition getDiscoveredOperationalDevice (operationalId : Bytes)
    (nodeId : Z) (st : Scanner) : option OperationalDevice :=
  getOperationalDeviceRecords
    (createOperationalMatterQName operationalId nodeId) st.

(** [getDiscoveredCommissionableDevices]. *)
Definition getDiscoveredCommissionableDevices
    (identifier : CommissionableDeviceIdentifiers) (st : Scanner)
  : list CommissionableDevice :=
  getCommissionableDeviceRecords identifier st.

(** The callbacks of a run of the streaming loop whose successive rounds
    see the given caches: each round reports the devices not seen before;
    the waits between the rounds do not touch the set of seen devices. *)
Definition reportRounds (identifier : CommissionableDeviceIdentifiers)
    (rounds : list Scanner) (discoveredDevices : JsSet.t)
  : list CommissionableDevice * JsSet.t :=
  fold_left
    (fun acc st =>
       let '(reported, seen) := acc in
       let '(new, seen') :=
         reportNewDevices (getCommissionableDeviceRecords identifier st)
           seen in
       (reported ++ new, seen'))
    rounds ([], discoveredDevices).

End CachedReads.

(** [close]: the transport is taken to close at once; every waiter is then
    finished, resolving those that have a timer. *)
Definition close (st : Scanner) : Scanner :=
  let st := setClosing true st in
  let st := setPeriodicTimer None st in
  let st := setQueryTimer None st in
  let st := setTransportClosed true st in
  fold_left
    (fun st queryId =>
       finishWaiter queryId
         (match JsMap.get queryId (recordWaiters st) with
          | Some waiter => isSome (w_timer waiter)
          | None => false
          end)
         false st)
    (JsMap.keys (recordWaiters st)) st.

(** ** Concrete collaborators for the examples *)

(** Modelled from the spec: the name constants of [MdnsConsts.js], which is
    not among the sources, follow the list of names in the interface section
    of the specification ([_matter._tcp.local], [_matterc._udp.local],
    [_L<D>._sub...], [_S<SD>._sub...], [_V<vendor>._sub...],
    [_T<dt>._sub...], [_CM._sub...]). *)
Definition specConsts : MdnsConsts :=
  let service := "_matter._tcp.local" in
  let commission := "_matterc._udp.local" in
  let sub prefix :=
    String.append prefix (String.append "._sub." commission) in
  {| MATTER_SERVICE_QNAME := service;
     MATTER_COMMISSION_SERVICE_QNAME := commission;
     getDeviceMatterQname := fun operationalId nodeId =>
       String.append operationalId
         (String.append "-" (String.append nodeId (String.append "." service)));
     getDeviceInstanceQname := fun i =>
       String.append i (String.append "." commission);
     getLongDiscriminatorQname := fun d =>
       sub (String.append "_L" (Js.numberToString d));
     getShortDiscriminatorQname := fun d =>
       sub (String.append "_S" (Js.numberToString d));
     getVendorQname := fun v =>
       sub (String.append "_V" (Js.numberToString v));
     getDeviceTypeQname := fun t =>
       sub (String.append "_T" (Js.numberToString t));
     getCommissioningModeQname := sub "_CM" |}.

Fixpoint containsColon (s : string) : bool :=
  match s with
  | EmptyString => false
  | String a rest => Ascii.eqb a ":" || containsColon rest
  end.

(** A stand-in for the general helpers in the examples: an address is IPv6
    when it contains a colon; identifiers print in decimal. *)
Definition sampleGeneral : General :=
  {| isIPv6 := containsColon;
     toHex := fun b => Js.numberToString (len b);
     nodeIdToHexString := Js.numberToString |}.

Definition zeros (n : nat) : Bytes := repeat Byte.x00 n.

Definition nameSize (s : string) : nat := String.length s + 2.

(** A stand-in codec for the examples, with the sizes of uncompressed DNS
    wire format and zeroed content: a 12-byte header, a question of
    name + 4 bytes, a record of name + 10 bytes + payload; pre-encoded
    records are copied. The size limit is the argument. *)
Definition sampleCodecWithLimit (limit : Z) : DnsCodec :=
  {| MAX_MDNS_MESSAGE_SIZE := limit;
     encode := fun m =>
       zeros 12
       ++ flat_map (fun q => zeros (nameSize (q_name q) + 4)) (m_queries m)
       ++ List.concat (m_answers m)
       ++ List.concat (m_authorities m)
       ++ List.concat (m_additionalRecords m);
     encodeRecord := fun r =>
       zeros (nameSize (r_name r) + 10)
       ++ match r_value r with
          | AValue _ => zeros 4
          | AAAAValue _ => zeros 16
          | PtrValue p => zeros (nameSize p)
          | SrvValue target _ => zeros (6 + nameSize target)
          | TxtValue (Some items) =>
              flat_map (fun i => zeros (1 + String.length i)) items
          | TxtValue None => []
          | AnyValue => []
          end |}.

(** Modelled from the spec: the size limit of 1500 bytes, which the
    specification and the comment of [#sendQueries] name; the constant
    itself is not among the sources. *)
Definition sampleCodec : DnsCodec := sampleCodecWithLimit 1500.

(** The same codec with the limit that leaves room for the IPv6 and UDP
    headers in a packet of 1280 bytes, the smallest IPv6 MTU. The examples
    that depend on the limit are given for both values. *)
Definition sampleCodec1232 : DnsCodec := sampleCodecWithLimit 1232.

Fixpoint stringOf (n : nat) (a : ascii) : string :=
  match n with
  | O => EmptyString
  | S k => String a (stringOf k a)
  end.

(** A TXT record that the sample codec encodes in [n + 22] bytes. *)
Definition txtOfSize (n : nat) : DnsRecord :=
  mkDnsRecord "x._matter" DnsRecordClass.IN 120
    (TxtValue (Some [stringOf n "a"])).

Definition threeQueries : list DnsQuery :=
  [mkDnsQuery "a._matterc._udp.local" DnsRecordType.PTR DnsRecordClass.IN;
   mkDnsQuery "b._matterc._udp.local" DnsRecordType.PTR DnsRecordClass.IN;
   mkDnsQuery "c._matterc._udp.local" DnsRecordType.PTR DnsRecordClass.IN].

(** Sixty known answers of 600 encoded bytes each. *)
Definition sixtyAnswers : list DnsRecord := repeat (txtOfSize 578) 60.

(** A TXT record with an array payload. *)
Definition txtRecord (name : string) (ttl : Z) (items : list string)
  : DnsRecord :=
  mkDnsRecord name DnsRecordClass.IN ttl (TxtValue (Some items)).

(** ** Definitions used by the statements *)

Definition inCommissioningMode (r : CommissionableDeviceRecordWithExpire)
  : bool :=
  optEqZ (CM (cd_data r)) 1 || optEqZ (CM (cd_data r)) 2.

(** The queries currently installed under a query id. *)
Definition existingQueries (queryId : string) (st : Scanner) : list DnsQuery :=
  match JsMap.get queryId (activeAnnounceQueries st) with
  | Some q => aq_queries q
  | None => []
  end.

(** The call brings a (name, recordType, recordClass) triple that the query
    id does not have yet. *)
Definition addsNewTriple (queryId : string) (queries : list DnsQuery)
    (st : Scanner) : Prop :=
  exists q, In q queries
            /\ forall e, In e (existingQueries queryId st) ->
                         sameQuery e q = false.

Definition sumLen (l : list Bytes) : Z :=
  fold_right (fun b acc => len b + acc) 0 l.

(** The message [#sendQueries] starts from. *)
Definition initialMessage (queries : list DnsQuery) : DnsMessage :=
  mkDnsMessage TruncatedQuery 0 queries [] [] [].


Definition sampleOperationalName : string :=
  "0102030405060708-00000000AAAA0001._matter._tcp.local".

Definition sampleSrv (ttl : Z) : DnsRecord :=
  mkDnsRecord sampleOperationalName DnsRecordClass.IN ttl
    (SrvValue "host.local" 5540).

Definition sampleAAAA (ttl : Z) : DnsRecord :=
  mkDnsRecord "host.local" DnsRecordClass.IN ttl (AAAAValue "fd12::1").

(** The operational cache after an SRV record and an AAAA record for its
    target reach an empty scanner at time [now]. *)
Definition afterOperationalSrv (now t ta : Z) : Scanner :=
  handleOperationalSrvRecord now (sampleSrv t) [sampleSrv t; sampleAAAA ta]
    [] "eth0" (newScanner false).

Definition streamingStart : option Z * Scanner :=
  continuousStart (consts := specConsts) 0 anyCommissioningDevice (Some 10)
    (newScanner false).

(** An address entry whose [ttl] field is undefined. *)
Definition withoutTtl (entry : string * MatterServerRecordWithExpire) : Prop :=
  a_ttl (snd entry) = None.

(** The known answers currently stored under a query id. *)
Definition existingAnswers (queryId : string) (st : Scanner)
  : list DnsRecord :=
  match JsMap.get queryId (activeAnnounceQueries st) with
  | Some q => aq_answers q
  | None => []
  end.

(** The query is among the given ones, up to [sameQuery]. *)
Definition covered (queries : list DnsQuery) (q : DnsQuery) : bool :=
  existsb (fun e => sameQuery e q) queries.

(** The query ids of the waiters that have a timeout timer, in map order. *)
Definition timedWaiters (waiters : JsMap.t Waiter) : list string :=
  map fst (filter (fun entry => isSome (w_timer (snd entry))) waiters).

(** An item that [#parseTxtRecord] skips: no [=] in it, a key outside the
    two key lists, or an integer key whose value [parseInt] cannot read. *)
Definition ignoredItem (item : string) : bool :=
  match Js.split "=" item with
  | key :: value :: _ =>
      if Js.includes intKeys key then
        match Js.parseInt value with
        | Js.NaN => true
        | Js.Num _ => false
        end
      else negb (Js.includes strKeys key)
  | _ => true
  end.

(** The short discriminator of a cached record is a 4-bit value. *)
Definition shortDiscriminatorInRange
    (r : CommissionableDeviceRecordWithExpire) : Prop :=
  exists sd, cd_SD r = Some sd /\ 0 <= sd <= 15.

(** The operational cache is a map of maps: device names are unique, and so
    are the address keys of every device. *)
Definition operationalCacheIsMap (st : Scanner) : Prop :=
  NoDup (JsMap.keys (operationalDeviceRecords st))
  /\ Forall (fun entry => NoDup (JsMap.keys (od_addresses (snd entry))))
       (operationalDeviceRecords st).

(** The addresses of a device that are alive at [now]. *)
Definition liveAddresses (now : Z)
    (addresses : JsMap.t MatterServerRecordWithExpire)
  : JsMap.t MatterServerRecordWithExpire :=
  filter (fun entry => addressAlive now (snd entry)) addresses.

(** What a sweep at [now] leaves of an operational device: nothing when its
    lifespan has lapsed or no address is alive, else the device with its
    live addresses. *)
Definition sweptOperational (now : Z)
    (entry : string * OperationalDeviceRecordWithExpire)
  : list (string * OperationalDeviceRecordWithExpire) :=
  let device := snd entry in
  if (now <? od_discoveredAt device + od_ttl device)
     && negb (JsMap.size (liveAddresses now (od_addresses device)) =? 0)
  then [(fst entry,
         withOperationalAddresses (liveAddresses now (od_addresses device))
           device)]
  else [].

(** A commissionable record as the TXT loop stores it: without
    [discoveredAt] or without [ttl]. *)
Definition withoutLifespan (r : CommissionableDeviceRecordWithExpire)
  : Prop :=
  cd_discoveredAt r = None \/ cd_ttl r = None.

(** The identifier the streaming loop deduplicates on. *)
Definition deviceIdentifierOf (device : CommissionableDevice) : string :=
  cd_deviceIdentifier (c_record device).

(** A commissionable cache of two devices, the first with an address. *)
Definition sampleCommissionableCache
  : JsMap.t CommissionableDeviceRecordWithExpire :=
  let records :=
    fst (@handleCommissionableTxtRecords specConsts 0
           [txtRecord "A._matterc._udp.local" 120 ["D=3840"; "CM=1"];
            txtRecord "B._matterc._udp.local" 120 ["D=840"; "CM=2"]]
           [] []) in
  match records with
  | (k, d) :: rest =>
      (k,
       withCommissionableAddresses
         (refreshCommissionableAddress 0 5540 [] ("fd12::1", 120)) d)
      :: rest
  | [] => []
  end.

(** No address of the operational cache has a [ttl]. *)
Definition operationalAddressesWithoutTtl (st : Scanner) : Prop :=
  Forall (fun entry => Forall withoutTtl (od_addresses (snd entry)))
    (operationalDeviceRecords st).

Definition otherOperationalName : string :=
  "0102030405060708-00000000AAAA0002._matter._tcp.local".

(** A packet announcing a second node, with a link-local address. *)
Definition otherAnnouncement : list DnsRecord :=
  [mkDnsRecord otherOperationalName DnsRecordClass.IN 120
     (SrvValue "other.local" 5541);
   mkDnsRecord "other.local" DnsRecordClass.IN 60 (AAAAValue "fe80::2")].

(** The scanner after the announcements of two nodes, at times 0 and
    1000. *)
Definition twoOperationalDevices : Scanner :=
  snd (handleOperationalRecords (consts := specConsts) 1000
         otherAnnouncement [] "eth0"
         (snd (handleOperationalRecords (consts := specConsts) 0
                 [sampleSrv 120; sampleAAAA 120] [] "eth0"
                 (newScanner false)))).

(** ** Properties *)

(** *** Address sorter *)

Section AddressSorterFacts.

Context {general : General}.

Lemma fd_not_fe80 (s : string) :
  Js.startsWith "fd" s = true -> Js.startsWith "fe80:" s = false.
Proof.
  destruct s as [|c1 [|c2 s']]; cbn [Js.startsWith]; intros H;
    try discriminate H.
  - now rewrite andb_false_r in H.
  - apply andb_prop in H. destruct H as [H1 H2].
    apply andb_prop in H2. destruct H2 as [H2 _].
    apply Ascii.eqb_eq in H1, H2. subst c1 c2. reflexivity.
Qed.

Lemma rank_range e : rank e = 0 \/ rank e = 1 \/ rank e = 2 \/ rank e = 3.
Proof.
  unfold rank.
  destruct (isIPv6 (a_ip e)), (Js.startsWith "fd" (a_ip e)),
    (Js.startsWith "fe80:" (a_ip e)); auto.
Qed.

(** The comparator is the comparison of ranks. *)
Lemma compareEntries_rank a b :
  (compareEntries a b >? 0) = (rank b <? rank a).
Proof.
  unfold compareEntries, rank.
  destruct (isIPv6 (a_ip a)), (isIPv6 (a_ip b)),
    (Js.startsWith "fd" (a_ip a)) eqn:Ha,
    (Js.startsWith "fd" (a_ip b)) eqn:Hb,
    (Js.startsWith "fe80:" (a_ip a)) eqn:Fa,
    (Js.startsWith "fe80:" (a_ip b)) eqn:Fb;
    try reflexivity;
    try (rewrite (fd_not_fe80 _ Ha) in Fa; discriminate Fa);
    try (rewrite (fd_not_fe80 _ Hb) in Fb; discriminate Fb).
Qed.

Lemma insertSorted_pass x l1 l2 :
  Forall (fun y => rank y < rank x) l1 ->
  insertSorted compareEntries x (l1 ++ l2)
  = l1 ++ insertSorted compareEntries x l2.
Proof.
  induction 1 as [|y l1 Hy _ IH]; simpl; [reflexivity|].
  rewrite compareEntries_rank.
  destruct (Z.ltb_spec (rank y) (rank x)); [|lia].
  now rewrite IH.
Qed.

Lemma insertSorted_stop x l :
  Forall (fun y => rank x <= rank y) l ->
  insertSorted compareEntries x l = x :: l.
Proof.
  intros H. destruct l as [|y l]; simpl; [reflexivity|].
  rewrite compareEntries_rank. inversion H; subst.
  destruct (Z.ltb_spec (rank y) (rank x)); [lia|reflexivity].
Qed.

Lemma ofRank_cons r x l :
  ofRank r (x :: l) = if rank x =? r then x :: ofRank r l else ofRank r l.
Proof. reflexivity. Qed.

Lemma ofRank_Forall r l : Forall (fun y => rank y = r) (ofRank r l).
Proof.
  apply Forall_forall. intros y Hy.
  apply filter_In in Hy. destruct Hy as [_ Hy]. lia.
Qed.

Lemma ofRank_bound (P : Z -> Prop) r l :
  P r -> Forall (fun y => P (rank y)) (ofRank r l).
Proof.
  intros HP. eapply Forall_impl; [|apply ofRank_Forall].
  simpl. intros y ->. exact HP.
Qed.

Lemma arraySort_cons x l :
  arraySort compareEntries (x :: l)
  = insertSorted compareEntries x (arraySort compareEntries l).
Proof. reflexivity. Qed.

Lemma insertSorted_perm x l :
  Permutation (x :: l) (insertSorted compareEntries x l).
Proof.
  induction l as [|y l IH]; simpl; [reflexivity|].
  destruct (compareEntries x y >? 0); [|reflexivity].
  rewrite perm_swap. now apply perm_skip.
Qed.

Lemma sortServerEntries_perm l : Permutation l (sortServerEntries l).
Proof.
  unfold sortServerEntries.
  induction l as [|x l IH]; [reflexivity|].
  rewrite arraySort_cons, <- insertSorted_perm. now apply perm_skip.
Qed.

End AddressSorterFacts.

(** C9. For every input list (so for every permutation of a set of
    entries) the address sorter returns the unique-local IPv6 entries
    ([fd]) first, then the link-local IPv6 entries ([fe80:]), then the other
    IPv6 entries, then the IPv4 entries, each group in its input order; the
    result is a permutation of the input. *)
Theorem sortServerEntries_groups_by_rank :
  forall (general : General) (entries : list MatterServerRecordWithExpire),
    sortServerEntries entries
    = ofRank 0 entries ++ ofRank 1 entries ++ ofRank 2 entries
      ++ ofRank 3 entries
    /\ Permutation entries (sortServerEntries entries).
Proof.
  intros general entries. split; [|apply sortServerEntries_perm].
  unfold sortServerEntries.
  induction entries as [|x l IH]; [reflexivity|].
  rewrite arraySort_cons, IH, !ofRank_cons.
  destruct (rank_range x) as [E|[E|[E|E]]]; rewrite E; simpl.
  - apply insertSorted_stop.
    repeat (apply Forall_app; split);
      apply (ofRank_bound (fun r => rank x <= r)); lia.
  - rewrite insertSorted_pass
      by (apply (ofRank_bound (fun r => r < rank x)); lia).
    f_equal. apply insertSorted_stop.
    repeat (apply Forall_app; split);
      apply (ofRank_bound (fun r => rank x <= r)); lia.
  - rewrite app_assoc, insertSorted_pass
      by (apply Forall_app; split;
          apply (ofRank_bound (fun r => r < rank x)); lia).
    rewrite <- app_assoc. do 2 f_equal. apply insertSorted_stop.
    repeat (apply Forall_app; split);
      apply (ofRank_bound (fun r => rank x <= r)); lia.
  - rewrite !app_assoc, insertSorted_pass
      by (repeat (apply Forall_app; split);
          apply (ofRank_bound (fun r => r < rank x)); lia).
    rewrite <- !app_assoc. do 3 f_equal. apply insertSorted_stop.
    apply (ofRank_bound (fun r => rank x <= r)); lia.
Qed.

(** *** Maps *)

Lemma JsMap_get_set_same {V : Type} (k : string) (v : V) (m : JsMap.t V) :
  JsMap.get k (JsMap.set k v m) = Some v.
Proof.
  induction m as [|[k' v'] m IH]; simpl.
  - now rewrite String.eqb_refl.
  - destruct (String.eqb k' k) eqn:E; simpl.
    + now rewrite String.eqb_refl.
    + now rewrite E.
Qed.

Lemma JsMap_get_set_other {V : Type} (k j : string) (v : V) (m : JsMap.t V) :
  String.eqb k j = false ->
  JsMap.get j (JsMap.set k v m) = JsMap.get j m.
Proof.
  intros Hkj. induction m as [|[k' v'] m IH]; simpl.
  - now rewrite Hkj.
  - destruct (String.eqb k' k) eqn:E; simpl.
    + apply String.eqb_eq in E. subst k'. now rewrite Hkj.
    + now rewrite IH.
Qed.

(** *** 32-bit operators *)

Lemma toInt32_shift (z : Z) : exists q, Js.toInt32 z = z + q * 2 ^ 32.
Proof.
  exists (- ((z + 2 ^ 31) / 2 ^ 32)). unfold Js.toInt32.
  pose proof (Z.div_mod (z + 2 ^ 31) (2 ^ 32)) as H.
  lia.
Qed.

Lemma toInt32_small (z : Z) : 0 <= z < 2 ^ 31 -> Js.toInt32 z = z.
Proof.
  intros H. unfold Js.toInt32. rewrite Z.mod_small; lia.
Qed.

(** On every integer, [(d >> 8) & 0x0f] is bits 8 to 11 of [d]. *)
Lemma band_shr_nibble (d : Z) :
  Js.band (Js.shr d 8) 15 = Z.land (Z.shiftr d 8) 15.
Proof.
  unfold Js.band, Js.shr.
  change (8 mod 32) with 8. change (Js.toInt32 15) with (Z.ones 4).
  change 15 with (Z.ones 4).
  rewrite !Z.land_ones by lia. rewrite !Z.shiftr_div_pow2 by lia.
  destruct (toInt32_shift d) as [q Hq].
  destruct (toInt32_shift (Js.toInt32 d / 2 ^ 8)) as [q' Hq'].
  rewrite Hq', Hq.
  replace (d + q * 2 ^ 32) with (d + (q * 2 ^ 24) * 2 ^ 8) by lia.
  rewrite Z.div_add by lia.
  replace (d / 2 ^ 8 + q * 2 ^ 24 + q' * 2 ^ 32)
    with (d / 2 ^ 8 + (q * 2 ^ 20 + q' * 2 ^ 28) * 2 ^ 4) by lia.
  rewrite Z.mod_add by lia.
  apply toInt32_small.
  pose proof (Z.mod_pos_bound (d / 2 ^ 8) (2 ^ 4)). lia.
Qed.

(** *** TXT parser *)

Ltac split_keys key :=
  repeat match goal with
         | |- context [String.eqb key ?s] => destruct (String.eqb key s)
         end.

Lemma setInt_T key v r :
  String.eqb key "T" = false -> T (setInt key v r) = T r.
Proof. intros H. unfold setInt. rewrite H. split_keys key; reflexivity. Qed.

Lemma setInt_ICD key v r :
  String.eqb key "ICD" = false -> ICD (setInt key v r) = ICD r.
Proof. intros H. unfold setInt. rewrite H. split_keys key; reflexivity. Qed.

Lemma setInt_D key v r :
  String.eqb key "D" = false -> D (setInt key v r) = D r.
Proof. intros H. unfold setInt. rewrite H. split_keys key; reflexivity. Qed.

Lemma setInt_CM key v r :
  String.eqb key "CM" = false -> CM (setInt key v r) = CM r.
Proof. intros H. unfold setInt. rewrite H. split_keys key; reflexivity. Qed.

Lemma setStr_ints key v r :
  T (setStr key v r) = T r /\ ICD (setStr key v r) = ICD r
  /\ D (setStr key v r) = D r /\ CM (setStr key v r) = CM r.
Proof. unfold setStr. split_keys key; repeat split; reflexivity. Qed.

(** An item with another key leaves a field alone. *)
Lemma parseTxtItem_other (field : DiscoveryData -> option Z) (k : string) :
  (forall key v r, String.eqb key k = false -> field (setInt key v r) = field r) ->
  (forall key v r, field (setStr key v r) = field r) ->
  forall result item,
    String.eqb (itemKey item) k = false ->
    field (parseTxtItem result item) = field result.
Proof.
  intros Hint Hstr result item Hk.
  unfold parseTxtItem, itemKey in *.
  destruct (Js.split "=" item) as [|key [|value rest]]; try reflexivity.
  destruct (Js.includes intKeys key).
  - destruct (Js.parseInt value); [reflexivity|]. now apply Hint.
  - destruct (Js.includes strKeys key); [apply Hstr|reflexivity].
Qed.

Lemma parseTxtItems_absent (field : DiscoveryData -> option Z) (k : string) :
  (forall key v r, String.eqb key k = false -> field (setInt key v r) = field r) ->
  (forall key v r, field (setStr key v r) = field r) ->
  forall items acc,
    keyAbsent k items = true ->
    field (fold_left parseTxtItem items acc) = field acc.
Proof.
  intros Hint Hstr items.
  induction items as [|item items IH]; intros acc Habs; [reflexivity|].
  simpl in Habs. apply andb_prop in Habs. destruct Habs as [Hitem Hrest].
  simpl. rewrite IH by exact Hrest.
  apply (parseTxtItem_other field k Hint Hstr).
  now apply negb_true_iff in Hitem.
Qed.

Lemma absent_T items : keyAbsent "T" items = true -> T (parseTxtItems items) = None.
Proof.
  intros H. unfold parseTxtItems.
  rewrite (parseTxtItems_absent T "T"); auto using setInt_T.
  intros. apply setStr_ints.
Qed.

Lemma absent_ICD items :
  keyAbsent "ICD" items = true -> ICD (parseTxtItems items) = None.
Proof.
  intros H. unfold parseTxtItems.
  rewrite (parseTxtItems_absent ICD "ICD"); auto using setInt_ICD.
  intros. apply setStr_ints.
Qed.

Lemma absent_D items : keyAbsent "D" items = true -> D (parseTxtItems items) = None.
Proof.
  intros H. unfold parseTxtItems.
  rewrite (parseTxtItems_absent D "D"); auto using setInt_D.
  intros. apply setStr_ints.
Qed.

Lemma absent_CM items :
  keyAbsent "CM" items = true -> CM (parseTxtItems items) = None.
Proof.
  intros H. unfold parseTxtItems.
  rewrite (parseTxtItems_absent CM "CM"); auto using setInt_CM.
  intros. apply setStr_ints.
Qed.

(** The defaults leave [D] and [CM] as parsed. *)
Lemma fillDefaults_D_CM r :
  D (fillDefaults r) = D r /\ CM (fillDefaults r) = CM r.
Proof.
  destruct r as [? ? ? t ? ? ? ? i ? ? ? ?]. unfold fillDefaults. simpl.
  destruct t as [t|]; [destruct (t =? 1)|]; destruct i; split; reflexivity.
Qed.

Lemma fillDefaults_T r :
  T r = None \/ T r = Some 1 -> T (fillDefaults r) = Some 0.
Proof.
  destruct r as [? ? ? t ? ? ? ? i ? ? ? ?]. unfold fillDefaults. simpl.
  intros [->| ->]; simpl; destruct i; reflexivity.
Qed.

Lemma fillDefaults_ICD r : ICD r = None -> ICD (fillDefaults r) = Some 0.
Proof.
  destruct r as [? ? ? t ? ? ? ? i ? ? ? ?]. unfold fillDefaults. simpl.
  intros ->. destruct t as [t|]; [destruct (t =? 1)|]; reflexivity.
Qed.

(** C8. For a TXT record with payload [items]: [T] is 0 when no item has
    the key [T] or when the parsed [T] is the reserved value 1; [ICD] is 0
    when no item has the key [ICD]; and the commissionable parse returns no
    record when no item has the key [D] or no item has the key [CM]. *)
Theorem parseTxtRecord_defaults_and_required_keys :
  forall (now : Z) (name : string) (ttl : Z) (items : list string),
    let record := txtRecord name ttl items in
    (keyAbsent "T" items = true \/ T (parseTxtItems items) = Some 1 ->
     T (parseTxtRecord record) = Some 0)
    /\ (keyAbsent "ICD" items = true -> ICD (parseTxtRecord record) = Some 0)
    /\ (keyAbsent "D" items = true \/ keyAbsent "CM" items = true ->
        parseCommissionableTxtRecord now record = None).
Proof.
  intros now name ttl items record.
  unfold parseCommissionableTxtRecord, parseTxtRecord. simpl.
  repeat split.
  - intros [H|H]; apply fillDefaults_T; [left; now apply absent_T|now right].
  - intros H. apply fillDefaults_ICD. now apply absent_ICD.
  - destruct (fillDefaults_D_CM (parseTxtItems items)) as [HD HC].
    rewrite HD, HC.
    intros [H|H]; [apply absent_D in H|apply absent_CM in H]; rewrite H;
      [reflexivity|destruct (D (parseTxtItems items)); reflexivity].
Qed.

(** *** Short discriminator *)

(** C3 (amended). For a commissionable TXT record with a non-zero TTL that
    the parser accepts and whose key [D] parses to [d], the record cached
    under the record's name has [SD = (d >> 8) & 0x0f], that is bits 8 to 11
    of [d] (15 for [d = 3840]). *)
Theorem commissionable_SD_derived_from_D :
  forall (now : Z) (records : JsMap.t CommissionableDeviceRecordWithExpire)
         (missing : JsSet.t) (record : DnsRecord)
         (parsed : ParsedCommissionableTxt) (d : Z),
    r_ttl record <> 0 ->
    parseCommissionableTxtRecord now record = Some parsed ->
    D (p_data parsed) = Some d ->
    exists stored,
      JsMap.get (r_name record)
        (fst (handleCommissionableTxtRecord now (records, missing) record))
      = Some stored
      /\ cd_SD stored = Some (Z.land (Z.shiftr d 8) 15).
Proof.
  intros now records missing record parsed d Httl Hparse HD.
  unfold handleCommissionableTxtRecord.
  apply Z.eqb_neq in Httl. rewrite Httl, Hparse, HD.
  destruct (splitVP (VP (p_data parsed))) as [V P].
  unfold deriveSD. rewrite band_shr_nibble.
  destruct (JsMap.get (r_name record) records); simpl;
    rewrite JsMap_get_set_same; eexists; split; reflexivity.
Qed.

Lemma commissionable_SD_derived_from_D_witness :
  exists stored,
    JsMap.get "DEV1._matterc._udp.local"
      (fst (handleCommissionableTxtRecord 1000 ([], [])
              (txtRecord "DEV1._matterc._udp.local" 120
                 ["D=3840"; "CM=2"])))
    = Some stored
    /\ cd_SD stored = Some 15.
Proof.
  apply (commissionable_SD_derived_from_D 1000 [] []
           (txtRecord "DEV1._matterc._udp.local" 120 ["D=3840"; "CM=2"])
           (mkParsed JsMap.empty 121000
              (fillDefaults (parseTxtItems ["D=3840"; "CM=2"])))
           3840).
  - simpl. lia.
  - reflexivity.
  - reflexivity.
Defined.

(** With [D=3840] and no [SD] key the cached short discriminator is 15, not
    0. *)
Lemma SD_of_3840_is_not_0 :
  exists stored,
    JsMap.get "DEV1._matterc._udp.local"
      (fst (handleCommissionableTxtRecord 1000 ([], [])
              (txtRecord "DEV1._matterc._udp.local" 120
                 ["D=3840"; "CM=2"])))
    = Some stored
    /\ cd_SD stored = Some ((3840 / 2 ^ 8) mod 16)
    /\ cd_SD stored <> Some 0.
Proof.
  eexists. split; [reflexivity|]. split; [reflexivity|discriminate].
Qed.

(** *** Commissionable cache reads *)

Lemma optEqZ_true field wanted : optEqZ field wanted = true <-> field = Some wanted.
Proof.
  unfold optEqZ. destruct field as [v|]; [|split; discriminate].
  rewrite Z.eqb_eq. split; congruence.
Qed.

Lemma returned_when_matching (general : General)
    (identifier : CommissionableDeviceIdentifiers)
    (keep : CommissionableDeviceRecordWithExpire -> bool)
    (st : Scanner) (r : CommissionableDeviceRecordWithExpire) :
  (forall l, matchingRecords identifier l = filter keep l) ->
  In r (JsMap.values (commissionableDeviceRecords st)) ->
  keep r = true ->
  In (toCommissionableDevice r)
    (getCommissionableDeviceRecords identifier st).
Proof.
  intros Hchain Hin Hkeep. unfold getCommissionableDeviceRecords.
  apply in_map. rewrite Hchain. apply filter_In. now split.
Qed.

(** C10. The empty identifier returns exactly the cached records whose [CM]
    is 1 or 2, so never one with [CM = 0]; a cached record with [CM = 0] is
    returned for its instance id, its long or short discriminator, its
    vendor, its vendor and product, its device type and its product. *)
Theorem empty_identifier_returns_commissioning_mode_1_or_2 :
  forall (general : General) (st : Scanner),
    getCommissionableDeviceRecords anyCommissioningDevice st
    = map toCommissionableDevice
        (filter inCommissioningMode
           (JsMap.values (commissionableDeviceRecords st)))
    /\ (forall device,
           In device (getCommissionableDeviceRecords anyCommissioningDevice st) ->
           CM (cd_data (c_record device)) = Some 1
           \/ CM (cd_data (c_record device)) = Some 2)
    /\ (forall r,
           In r (JsMap.values (commissionableDeviceRecords st)) ->
           CM (cd_data r) = Some 0 ->
           ~ In (toCommissionableDevice r)
               (getCommissionableDeviceRecords anyCommissioningDevice st)
           /\ In (toCommissionableDevice r)
                (getCommissionableDeviceRecords
                   (mkIdentifier (Some (cd_instanceId r)) None None None None
                      None) st)
           /\ (forall d, D (cd_data r) = Some d ->
                 In (toCommissionableDevice r)
                   (getCommissionableDeviceRecords
                      (mkIdentifier None (Some d) None None None None) st))
           /\ (forall sd, cd_SD r = Some sd ->
                 In (toCommissionableDevice r)
                   (getCommissionableDeviceRecords
                      (mkIdentifier None None (Some sd) None None None) st))
           /\ (forall v, cd_V r = Some (Js.Num v) ->
                 In (toCommissionableDevice r)
                   (getCommissionableDeviceRecords
                      (mkIdentifier None None None (Some v) None None) st))
           /\ (forall v p,
                 cd_V r = Some (Js.Num v) -> cd_P r = Some (Js.Num p) ->
                 In (toCommissionableDevice r)
                   (getCommissionableDeviceRecords
                      (mkIdentifier None None None (Some v) (Some p) None)
                      st))
           /\ (forall t, DT (cd_data r) = Some t ->
                 In (toCommissionableDevice r)
                   (getCommissionableDeviceRecords
                      (mkIdentifier None None None None None (Some t)) st))
           /\ (forall p, cd_P r = Some (Js.Num p) ->
                 In (toCommissionableDevice r)
                   (getCommissionableDeviceRecords
                      (mkIdentifier None None None None (Some p) None) st))).
Proof.
  intros general st.
  assert (Hmode : forall device,
             In device
               (getCommissionableDeviceRecords anyCommissioningDevice st) ->
             CM (cd_data (c_record device)) = Some 1
             \/ CM (cd_data (c_record device)) = Some 2).
  { intros device Hin. unfold getCommissionableDeviceRecords in Hin.
    apply in_map_iff in Hin. destruct Hin as [r [<- Hr]].
    simpl in Hr. apply filter_In in Hr. destruct Hr as [_ Hr].
    apply orb_prop in Hr. simpl.
    destruct Hr as [Hr|Hr]; apply optEqZ_true in Hr; auto. }
  split; [reflexivity|]. split; [exact Hmode|].
  intros r Hin Hcm. split.
  { intros Habs. apply Hmode in Habs. simpl in Habs.
    rewrite Hcm in Habs. destruct Habs; discriminate. }
  split.
  { eapply returned_when_matching; [reflexivity|exact Hin|].
    apply String.eqb_refl. }
  split.
  { intros d Hd. eapply returned_when_matching; [reflexivity|exact Hin|].
    now apply optEqZ_true. }
  split.
  { intros sd Hsd. eapply returned_when_matching; [reflexivity|exact Hin|].
    now apply optEqZ_true. }
  split.
  { intros v Hv. eapply returned_when_matching; [reflexivity|exact Hin|].
    simpl. rewrite Hv. simpl. apply Z.eqb_refl. }
  split.
  { intros v p Hv Hp.
    eapply returned_when_matching; [reflexivity|exact Hin|].
    simpl. rewrite Hv, Hp. simpl. now rewrite !Z.eqb_refl. }
  split.
  { intros t Ht. eapply returned_when_matching; [reflexivity|exact Hin|].
    now apply optEqZ_true. }
  intros p Hp. eapply returned_when_matching; [reflexivity|exact Hin|].
  simpl. rewrite Hp. simpl. apply Z.eqb_refl.
Qed.

(** *** Back-off schedule *)

Section BackOff.

Context {codec : DnsCodec}.

Lemma sendQueries_timer st :
  queryTimer (sendQueries st) = Some (nextAnnounceIntervalMs st).
Proof. reflexivity. Qed.

Lemma sendQueries_interval st :
  nextAnnounceIntervalMs (sendQueries st)
  = Z.min (nextAnnounceIntervalMs st * 2) MAX_ANNOUNCE_INTERVAL_MS.
Proof. reflexivity. Qed.

Lemma broadcasts_succ k st :
  broadcasts (S k) st = sendQueries (broadcasts k st).
Proof.
  revert st. induction k as [|k IH]; intros st; [reflexivity|].
  change (broadcasts (S (S k)) st) with (broadcasts (S k) (sendQueries st)).
  rewrite IH. reflexivity.
Qed.

(** After [k] broadcasts from the start interval, the interval is
    [min (1500 * 2^k) 3600000] ms. *)
Lemma broadcasts_interval k st :
  nextAnnounceIntervalMs st = START_ANNOUNCE_INTERVAL_MS ->
  nextAnnounceIntervalMs (broadcasts k st)
  = Z.min (START_ANNOUNCE_INTERVAL_MS * 2 ^ Z.of_nat k)
      MAX_ANNOUNCE_INTERVAL_MS.
Proof.
  intros Hstart. induction k as [|k IH].
  - simpl. rewrite Hstart. reflexivity.
  - rewrite broadcasts_succ, sendQueries_interval, IH.
    rewrite Nat2Z.inj_succ, Z.pow_succ_r by lia.
    assert (0 < 2 ^ Z.of_nat k) by (apply Z.pow_pos_nonneg; lia).
    unfold START_ANNOUNCE_INTERVAL_MS, MAX_ANNOUNCE_INTERVAL_MS. lia.
Qed.

End BackOff.

Lemma setQueryRecords_resets queryId queries answers st :
  addsNewTriple queryId queries st ->
  nextAnnounceIntervalMs (setQueryRecords queryId queries answers st)
  = START_ANNOUNCE_INTERVAL_MS
  /\ queryTimer (setQueryRecords queryId queries answers st) = Some 0.
Proof.
  intros [q [Hq Hnew]]. unfold setQueryRecords, existingQueries in *.
  destruct (JsMap.get queryId (activeAnnounceQueries st)) as [existing|];
    [|split; reflexivity].
  match goal with
  | |- context [filter ?f queries] =>
      assert (Hin : In q (filter f queries))
  end.
  { apply filter_In. split; [exact Hq|].
    apply negb_true_iff. apply not_true_is_false. intros Hex.
    apply existsb_exists in Hex. destruct Hex as [e [He Hsame]].
    rewrite (Hnew e He) in Hsame. discriminate. }
  match goal with
  | |- context [filter ?f queries] => destruct (filter f queries)
  end; [destruct Hin|split; reflexivity].
Qed.

(** C6. A [setQueryRecords] call that brings a new triple resets the
    interval to 1.5 s (1500 ms) and arms the timer with delay 0; the
    broadcasts that follow re-arm the timer with 1.5, 3, 6, 12, 24, ...
    seconds, that is [min (1500 * 2^k) 3600000] ms after the broadcast
    number [k + 1]: doubling, capped at 3600 s. *)
Theorem backoff_doubles_until_reset :
  forall (codec : DnsCodec) (st : Scanner) (queryId : string)
         (queries : list DnsQuery) (answers : list DnsRecord),
    addsNewTriple queryId queries st ->
    let st' := setQueryRecords queryId queries answers st in
    nextAnnounceIntervalMs st' = 1500
    /\ queryTimer st' = Some 0
    /\ forall k : nat,
         queryTimer (broadcasts (S k) st')
         = Some (Z.min (1500 * 2 ^ Z.of_nat k) 3600000).
Proof.
  intros codec st queryId queries answers Hnew st'.
  destruct (setQueryRecords_resets queryId queries answers st Hnew)
    as [Hstart Htimer].
  split; [exact Hstart|]. split; [exact Htimer|].
  intros k. rewrite broadcasts_succ, sendQueries_timer.
  rewrite (broadcasts_interval k st' Hstart). reflexivity.
Qed.

Lemma backoff_doubles_until_reset_witness :
  let st' :=
    setQueryRecords "_CM._sub._matterc._udp.local" threeQueries []
      (newScanner false) in
  nextAnnounceIntervalMs st' = 1500
  /\ queryTimer st' = Some 0
  /\ forall k : nat,
       queryTimer (@broadcasts sampleCodec (S k) st')
       = Some (Z.min (1500 * 2 ^ Z.of_nat k) 3600000).
Proof.
  apply (backoff_doubles_until_reset sampleCodec (newScanner false)
           "_CM._sub._matterc._udp.local" threeQueries []).
  exists (mkDnsQuery "a._matterc._udp.local" DnsRecordType.PTR
            DnsRecordClass.IN).
  split; [simpl; auto|].
  simpl. intros e H. destruct H.
Defined.

(** *** Broadcast assembly *)




Lemma len_nonneg (b : Bytes) : 0 <= len b.
Proof. unfold len. lia. Qed.



(** A list of query counts that goes on after its head with a [0] is not
    the list of a broadcast whose datagrams all carry [queries]. *)
Lemma second_datagram_without_queries (msgs : list DnsMessage)
    (queries : list DnsQuery) n rest :
  queries <> [] ->
  map (fun m => List.length (m_queries m)) msgs = n :: 0%nat :: rest ->
  ~ Forall (fun m => m_queries m = queries) msgs.
Proof.
  intros Hq Hmap Hall.
  destruct msgs as [|m0 [|m1 msgs]]; try discriminate Hmap.
  inversion Hall as [|? ? _ Htail]. inversion Htail as [|? ? Hsame _].
  simpl in Hmap. injection Hmap as _ Hzero _.
  rewrite Hsame in Hzero. destruct queries; [congruence|discriminate Hzero].
Qed.

Section BroadcastAssembly.

Context {codec : DnsCodec}.

(** Only the first message of a run carries queries. *)
Lemma packAnswers_queries emptySize answersToSend :
  forall msg size out final,
    packAnswers emptySize answersToSend msg size = (out, final) ->
    map m_queries (out ++ [final])
    = m_queries msg :: repeat [] (List.length out).
Proof.
  induction answersToSend as [|a rest IH]; intros msg size out final H;
    simpl in H.
  - injection H as <- <-. reflexivity.
  - destruct (size + len (encodeRecord a) >? MAX_MDNS_MESSAGE_SIZE).
    + destruct (packAnswers emptySize rest _ _) as [out' final'] eqn:E.
      injection H as <- <-. simpl. f_equal.
      apply IH in E. exact E.
    + apply IH in H. exact H.
Qed.



End BroadcastAssembly.

(** C2 (amended). In every broadcast the first datagram carries all the
    flattened queries and every later datagram carries none (the query array
    is emptied after the first send). *)
Theorem only_first_fragment_carries_queries :
  forall (codec : DnsCodec) (queries : list DnsQuery)
         (answers : list DnsRecord),
    map m_queries (broadcastMessages queries answers)
    = queries
      :: repeat [] (List.length (broadcastMessages queries answers) - 1).
Proof.
  intros codec queries answers. unfold broadcastMessages.
  destruct (packAnswers _ answers _ _) as [out final] eqn:E.
  apply packAnswers_queries in E. rewrite map_app in *. simpl in *.
  rewrite length_app, E. simpl.
  replace (List.length out + 1 - 1)%nat with (List.length out) by lia.
  reflexivity.
Qed.

(** Three queries and sixty 600-byte known answers, under a limit of 1232
    bytes and under one of 1500 bytes: the first datagram carries the three
    queries and all the following ones carry none. With the sizes of the
    sample codec that is one answer per datagram (sixty datagrams) under
    1232 bytes and two per datagram (thirty) under 1500 bytes. *)
Lemma later_fragments_carry_no_queries :
  (map (fun m => List.length (m_queries m))
     (@broadcastMessages sampleCodec1232 threeQueries sixtyAnswers)
   = 3%nat :: repeat 0%nat 59
   /\ ~ Forall (fun m => m_queries m = threeQueries)
          (@broadcastMessages sampleCodec1232 threeQueries sixtyAnswers))
  /\ (map (fun m => List.length (m_queries m))
        (@broadcastMessages sampleCodec threeQueries sixtyAnswers)
      = 3%nat :: repeat 0%nat 29
      /\ ~ Forall (fun m => m_queries m = threeQueries)
             (@broadcastMessages sampleCodec threeQueries sixtyAnswers)).
Proof.
  assert (H1232 :
    map (fun m => List.length (m_queries m))
      (@broadcastMessages sampleCodec1232 threeQueries sixtyAnswers)
    = 3%nat :: repeat 0%nat 59) by (vm_compute; reflexivity).
  assert (H1500 :
    map (fun m => List.length (m_queries m))
      (@broadcastMessages sampleCodec threeQueries sixtyAnswers)
    = 3%nat :: repeat 0%nat 29) by (vm_compute; reflexivity).
  repeat split; try assumption.
  - eapply second_datagram_without_queries; [discriminate|exact H1232].
  - eapply second_datagram_without_queries; [discriminate|exact H1500].
Qed.




(** The test of the loop is made against the size of the empty message
    with its queries, while a follow-up datagram has none: under a limit of
    1500 bytes an answer of 1422 bytes does not fit next to the 93 bytes of
    the empty message, and leaves in a datagram of 1434 bytes. *)
Lemma answer_of_1422_bytes :
  len (@encode sampleCodec (initialMessage threeQueries))
  + len (@encodeRecord sampleCodec (txtOfSize 1400)) = 1515
  /\ map (fun m => len (@encode sampleCodec m))
       (@broadcastMessages sampleCodec threeQueries [txtOfSize 1400])
     = [93; 1434].
Proof. split; vm_compute; reflexivity. Qed.

(** *** Address lifespan in the operational cache *)

(** An address entry without [ttl] is dead at every time. *)
Lemma addressAlive_without_ttl now a :
  a_ttl a = None -> addressAlive now a = false.
Proof.
  intros H. unfold addressAlive. rewrite H.
  destruct (a_discoveredAt a); reflexivity.
Qed.

(** The operational address loop never writes [ttl]. *)
Lemma refreshOperationalAddress_new_entry now port ip ta :
  ta <> 0 ->
  refreshOperationalAddress now port [] (ip, ta)
  = [(ip, mkServer ip port "udp" (Some (now + ta * 1000)) None)].
Proof.
  intros H. unfold refreshOperationalAddress.
  apply Z.eqb_neq in H. rewrite H. reflexivity.
Qed.

Lemma JsMap_get_Forall {V : Type} (P : string * V -> Prop) k v (m : JsMap.t V) :
  Forall P m -> JsMap.get k m = Some v -> exists k', P (k', v).
Proof.
  induction 1 as [|[k' v'] m Hhead _ IH]; simpl; [discriminate|].
  destruct (String.eqb k' k); [|exact IH].
  intros [= <-]. now exists k'.
Qed.

Lemma JsMap_set_Forall {V : Type} (P : string * V -> Prop) k v (m : JsMap.t V) :
  Forall P m -> P (k, v) -> Forall P (JsMap.set k v m).
Proof.
  intros Hm Hv. induction Hm as [|[k' v'] m Hhead Htail IH]; simpl.
  - constructor; [exact Hv|constructor].
  - destruct (String.eqb k' k); constructor; assumption.
Qed.

Lemma JsMap_delete_Forall {V : Type} (P : string * V -> Prop) k (m : JsMap.t V) :
  Forall P m -> Forall P (JsMap.delete k m).
Proof.
  induction 1 as [|[k' v'] m Hhead Htail IH]; simpl; [constructor|].
  destruct (String.eqb k' k); [exact Htail|constructor; assumption].
Qed.

(** In whatever state, the operational address loop leaves every entry
    without [ttl] when it found them so: no code path of the operational
    cache ever writes the field. *)
Lemma refreshOperationalAddress_never_writes_ttl now port ips :
  forall addresses,
    Forall withoutTtl addresses ->
    Forall withoutTtl
      (fold_left (refreshOperationalAddress now port) ips addresses).
Proof.
  induction ips as [|[ip ttl] ips IH]; intros addresses H; [exact H|].
  simpl. apply IH. unfold refreshOperationalAddress.
  destruct (ttl =? 0); [now apply JsMap_delete_Forall|].
  apply JsMap_set_Forall; [exact H|].
  destruct (JsMap.get ip addresses) as [found|] eqn:E; [|reflexivity].
  destruct (JsMap_get_Forall _ _ _ _ H E) as [k' Hk']. exact Hk'.
Qed.

(** The sibling loop of the commissionable path writes both fields. *)
Lemma refreshCommissionableAddress_new_entry now port ip ta :
  ta <> 0 ->
  refreshCommissionableAddress now port [] (ip, ta)
  = [(ip, mkServer ip port "udp" (Some now) (Some (ta * 1000)))].
Proof.
  intros H. unfold refreshCommissionableAddress.
  apply Z.eqb_neq in H. rewrite H. reflexivity.
Qed.

(** C1 (the code differs). After an operational SRV record with TTL
    [t > 0] and an AAAA record with TTL [ta > 0] for its target, the stored
    address has [discoveredAt = now + ta * 1000] and no [ttl] (the claim has
    [discoveredAt = now] and [ttl = ta * 1000]); as a consequence every
    expiry sweep, whatever its time, removes the address and with it the
    device. *)
Theorem operational_address_gets_no_ttl :
  forall now t ta : Z,
    0 < t -> 0 < ta ->
    operationalDeviceRecords (afterOperationalSrv now t ta)
    = [(sampleOperationalName,
        mkOperational sampleOperationalName
          [("fd12::1",
            mkServer "fd12::1" 5540 "udp" (Some (now + ta * 1000)) None)]
          now (t * 1000) emptyDiscoveryData)]
    /\ forall sweep : Z,
         operationalDeviceRecords (expire sweep (afterOperationalSrv now t ta))
         = [].
Proof.
  intros now t ta Ht Hta.
  assert (Hcache :
    operationalDeviceRecords (afterOperationalSrv now t ta)
    = [(sampleOperationalName,
        mkOperational sampleOperationalName
          [("fd12::1",
            mkServer "fd12::1" 5540 "udp" (Some (now + ta * 1000)) None)]
          now (t * 1000) emptyDiscoveryData)]).
  { unfold afterOperationalSrv, handleOperationalSrvRecord.
    cbn [r_value sampleSrv r_ttl r_name].
    replace (t =? 0) with false by (symmetry; apply Z.eqb_neq; lia).
    cbn [enableIpv4 newScanner handleIpRecords app flat_map sampleSrv
         sampleAAAA r_name r_value r_ttl].
    change (String.eqb sampleOperationalName "host.local") with false.
    change (String.eqb "host.local" "host.local") with true.
    change (Js.startsWith "fe80::" "fd12::1") with false.
    cbn [app operationalDeviceRecords JsMap.get JsMap.has od_addresses
         fold_left List.length Nat.ltb Nat.leb].
    rewrite refreshOperationalAddress_new_entry by lia.
    reflexivity. }
  split; [exact Hcache|].
  intros sweep. unfold expire.
  cbn [operationalDeviceRecords setOperationalDeviceRecords
       setCommissionableDeviceRecords].
  rewrite Hcache.
  cbn [fold_left expireOperationalDevice od_discoveredAt od_ttl
       od_addresses].
  destruct (sweep <? now + t * 1000) eqn:Hlt.
  - unfold expireAddresses.
    cbn [fold_left fst snd].
    rewrite addressAlive_without_ttl by reflexivity.
    cbn [JsMap.delete]. rewrite String.eqb_refl.
    cbn [JsMap.size List.length Z.of_nat Z.eqb orb].
    rewrite orb_true_r. cbn [JsMap.delete]. now rewrite String.eqb_refl.
  - replace (sweep >=? now + t * 1000) with true
      by (symmetry; apply Z.geb_le; apply Z.ltb_ge in Hlt; lia).
    cbn [orb JsMap.delete]. now rewrite String.eqb_refl.
Qed.

Lemma operational_address_gets_no_ttl_witness :
  operationalDeviceRecords (afterOperationalSrv 1000 120 120)
  = [(sampleOperationalName,
      mkOperational sampleOperationalName
        [("fd12::1", mkServer "fd12::1" 5540 "udp" (Some 121000) None)]
        1000 120000 emptyDiscoveryData)]
  /\ forall sweep : Z,
       operationalDeviceRecords
         (expire sweep (afterOperationalSrv 1000 120 120))
       = [].
Proof.
  apply (operational_address_gets_no_ttl 1000 120 120); lia.
Defined.

(** *** Streaming discovery *)

(** C4 (the code differs). When a round of the streaming loop reaches its
    [await] with an end time set, the remaining time is positive, yet the
    waiter it registers has no timer: the timeout argument is the outer,
    never assigned [remainingTime], not the remaining time. *)
Theorem continuous_waiter_has_no_timeout :
  forall (general : General) (consts : MdnsConsts) (now endTime : Z)
         (identifier : CommissionableDeviceIdentifiers)
         (discoveredDevices : JsSet.t) (st : Scanner)
         (reported : list CommissionableDevice) (seen : JsSet.t)
         (st' : Scanner),
    continuousIteration now identifier (Some endTime) discoveredDevices st
    = Wait reported seen st' ->
    0 < remainingSeconds now endTime
    /\ JsMap.get (buildCommissionableQueryIdentifier identifier)
         (recordWaiters st')
       = Some (mkWaiter None false).
Proof.
  intros general consts now endTime identifier discovered st reported seen
    st' H.
  unfold continuousIteration in H.
  destruct (reportNewDevices _ _) as [r s].
  fold (remainingSeconds now endTime) in H.
  destruct (remainingSeconds now endTime <=? 0) eqn:Hrem; [discriminate H|].
  injection H as _ _ <-. split.
  - apply Z.leb_gt in Hrem. exact Hrem.
  - unfold registerWaiterPromise. cbn [recordWaiters setRecordWaiters setOrphanTimers].
    apply JsMap_get_set_same.
Qed.

Lemma continuous_waiter_has_no_timeout_witness :
  0 < remainingSeconds 0 10000
  /\ JsMap.get
       (@buildCommissionableQueryIdentifier specConsts anyCommissioningDevice)
       (recordWaiters
          (registerWaiterPromise "_CM._sub._matterc._udp.local" None false
             (snd streamingStart)))
     = Some (mkWaiter None false).
Proof.
  apply (continuous_waiter_has_no_timeout sampleGeneral specConsts 0 10000
           anyCommissioningDevice [] (snd streamingStart) [] []).
  reflexivity.
Defined.

(** With a timeout of 10 s and an empty cache, the first round registers a
    waiter without a timer, where the remaining time is 10 s. *)
Example streaming_round_at_start :
  fst streamingStart = Some 10000
  /\ remainingSeconds 0 10000 = 10
  /\ exists st',
       @continuousIteration sampleGeneral specConsts 0 anyCommissioningDevice
         (fst streamingStart) [] (snd streamingStart)
       = Wait [] [] st'
       /\ recordWaiters st'
          = [("_CM._sub._matterc._udp.local", mkWaiter None false)].
Proof.
  split; [reflexivity|]. split; [reflexivity|].
  eexists. split; reflexivity.
Qed.

(** *** Discovery after [close] *)

Lemma finishWaiter_closing queryId resolvePromise isUpdated st :
  closing (finishWaiter queryId resolvePromise isUpdated st) = closing st.
Proof.
  unfold finishWaiter.
  destruct (JsMap.get queryId (recordWaiters st)) as [w|]; [|reflexivity].
  destruct (isUpdated && negb (w_resolveOnUpdatedRecords w)); [reflexivity|].
  destruct resolvePromise; reflexivity.
Qed.

Lemma finishAll_closing (keys : list string) :
  forall st,
    closing
      (fold_left
         (fun st queryId =>
            finishWaiter queryId
              (match JsMap.get queryId (recordWaiters st) with
               | Some waiter => isSome (w_timer waiter)
               | None => false
               end)
              false st)
         keys st)
    = closing st.
Proof.
  induction keys as [|k keys IH]; intros st; [reflexivity|].
  simpl. rewrite IH. apply finishWaiter_closing.
Qed.

Lemma close_sets_closing st : closing (close st) = true.
Proof. unfold close. rewrite finishAll_closing. reflexivity. Qed.

(** C5 (the code differs). After [close] the closing flag is set and
    [findOperationalDevice] throws [ImplementationError], but
    [findCommissionableDevices] never throws: it returns the cached devices
    or registers a waiter and installs its queries. *)
Theorem findCommissionableDevices_does_not_throw_after_close :
  forall (general : General) (consts : MdnsConsts) (st : Scanner),
    closing (close st) = true
    /\ (forall operationalId nodeId timeoutSeconds ignoreExistingRecords,
           findOperationalDevice operationalId nodeId timeoutSeconds
             ignoreExistingRecords (close st)
           = Throws
               (ImplementationError
                  "Cannot discover operational device because scanner is closing."))
    /\ (forall identifier timeoutSeconds ignoreExistingRecords e,
           findCommissionableDevices identifier timeoutSeconds
             ignoreExistingRecords (close st)
           <> Throws e).
Proof.
  intros general consts st. split; [apply close_sets_closing|]. split.
  - intros. unfold findOperationalDevice.
    now rewrite close_sets_closing.
  - intros identifier timeoutSeconds ignore e.
    unfold findCommissionableDevices.
    destruct (List.length _ =? 0)%nat; discriminate.
Qed.

(** On a closed scanner with an empty cache the call registers a waiter
    with a 5 s timer and arms the query timer. *)
Example findCommissionableDevices_after_close :
  exists st',
    @findCommissionableDevices sampleGeneral specConsts
      anyCommissioningDevice 5 false (close (newScanner false))
    = Awaits st'
    /\ closing st' = true
    /\ recordWaiters st'
       = [("_CM._sub._matterc._udp.local", mkWaiter (Some 5000) true)]
    /\ queryTimer st' = Some 0.
Proof. eexists. repeat split. Qed.

(** *** Sanity checks of the built-ins and of the scenario inputs *)

Example parseInt_decimal : Js.parseInt "3840" = Js.Num 3840.
Proof. reflexivity. Qed.

Example parseInt_hex_prefix : Js.parseInt " -0x1F;" = Js.Num (-31).
Proof. reflexivity. Qed.

Example parseInt_not_a_number : Js.parseInt "x12" = Js.NaN.
Proof. reflexivity. Qed.

Example split_takes_every_separator :
  Js.split "=" "VP=a=b" = ["VP"; "a"; "b"].
Proof. reflexivity. Qed.

Example endsWith_service_name :
  Js.endsWith "_matter._tcp.local" sampleOperationalName = true.
Proof. reflexivity. Qed.

Example sorter_example :
  map a_ip
    (@sortServerEntries sampleGeneral
       [mkServer "192.168.1.4" 5540 "udp" None None;
        mkServer "2001:db8::1" 5540 "udp" None None;
        mkServer "fe80::1%eth0" 5540 "udp" None None;
        mkServer "fd12::1" 5540 "udp" None None;
        mkServer "fe80::2%eth0" 5540 "udp" None None])
  = ["fd12::1"; "fe80::1%eth0"; "fe80::2%eth0"; "2001:db8::1";
     "192.168.1.4"].
Proof. reflexivity. Qed.

Example txt_defaults_example :
  let data := parseTxtRecord (txtRecord "x" 120 ["T=1"; "VP=65521+32768"]) in
  T data = Some 0 /\ ICD data = Some 0 /\ VP data = Some "65521+32768"
  /\ parseCommissionableTxtRecord 0
       (txtRecord "x" 120 ["T=1"; "VP=65521+32768"; "D=3840"]) = None.
Proof. repeat split. Qed.

Example sixty_answers_are_600_bytes :
  Forall (fun a => len (@encodeRecord sampleCodec a) = 600) sixtyAnswers.
Proof.
  apply Forall_forall. intros a Ha. apply repeat_spec in Ha. subst a.
  vm_compute. reflexivity.
Qed.

(** A device with [CM = 0] is found by vendor but not by the empty
    identifier. *)
Example cm0_found_by_vendor_only :
  let records :=
    fst (@handleCommissionableTxtRecords specConsts 0
           [txtRecord "A._matterc._udp.local" 120
              ["D=3840"; "CM=0"; "VP=65521+32768"];
            txtRecord "B._matterc._udp.local" 120
              ["D=100"; "CM=2"; "VP=65521+32769"];
            txtRecord "printer._ipp._tcp.local" 120 ["D=1"; "CM=1"]]
           [] []) in
  let st := setCommissionableDeviceRecords records (newScanner false) in
  map (fun d => cd_instanceId (c_record d))
    (@getCommissionableDeviceRecords sampleGeneral anyCommissioningDevice st)
  = ["B"]
  /\ map (fun d => cd_instanceId (c_record d))
       (@getCommissionableDeviceRecords sampleGeneral
          (mkIdentifier None None None (Some 65521) None None) st)
     = ["A"; "B"].
Proof. split; reflexivity. Qed.

(** ** Further properties of the modelled code *)

(** *** Broadcast assembly: what every run of [#sendQueries] sends *)

Section BroadcastContents.

Context {codec : DnsCodec}.

Lemma packAnswers_answers emptySize answersToSend :
  forall msg size out final,
    packAnswers emptySize answersToSend msg size = (out, final) ->
    List.concat (map m_answers (out ++ [final]))
    = m_answers msg ++ map encodeRecord answersToSend.
Proof.
  induction answersToSend as [|a rest IH]; intros msg size out final H;
    simpl in H.
  - injection H as <- <-. simpl. now rewrite !app_nil_r.
  - destruct (size + len (encodeRecord a) >? MAX_MDNS_MESSAGE_SIZE).
    + destruct (packAnswers emptySize rest _ _) as [out' final'] eqn:E.
      injection H as <- <-. apply IH in E. simpl in *. now rewrite E.
    + apply IH in H. rewrite H. simpl. now rewrite <- app_assoc.
Qed.

Lemma packAnswers_nonempty emptySize answersToSend :
  forall msg size out final,
    packAnswers emptySize answersToSend msg size = (out, final) ->
    m_answers msg <> [] ->
    Forall (fun m => m_answers m <> []) (out ++ [final]).
Proof.
  induction answersToSend as [|a rest IH]; intros msg size out final H Hne;
    simpl in H.
  - injection H as <- <-. constructor; [exact Hne|constructor].
  - destruct (size + len (encodeRecord a) >? MAX_MDNS_MESSAGE_SIZE).
    + destruct (packAnswers emptySize rest _ _) as [out' final'] eqn:E.
      injection H as <- <-. simpl. constructor; [exact Hne|].
      apply (IH _ _ _ _ E). discriminate.
    + apply (IH _ _ _ _ H). simpl. intros Habs.
      apply app_eq_nil in Habs. destruct Habs as [_ Habs]. discriminate.
Qed.

Lemma packAnswers_later_nonempty emptySize answersToSend :
  forall msg size out final,
    packAnswers emptySize answersToSend msg size = (out, final) ->
    Forall (fun m => m_answers m <> []) (tl (out ++ [final])).
Proof.
  induction answersToSend as [|a rest IH]; intros msg size out final H;
    simpl in H.
  - injection H as <- <-. constructor.
  - destruct (size + len (encodeRecord a) >? MAX_MDNS_MESSAGE_SIZE).
    + destruct (packAnswers emptySize rest _ _) as [out' final'] eqn:E.
      injection H as <- <-. simpl.
      apply (packAnswers_nonempty _ _ _ _ _ _ E). discriminate.
    + apply (IH _ _ _ _ H).
Qed.

Lemma packAnswers_header emptySize answersToSend :
  forall msg size out final,
    packAnswers emptySize answersToSend msg size = (out, final) ->
    Forall
      (fun m => m_transactionId m = m_transactionId msg
                /\ m_authorities m = m_authorities msg
                /\ m_additionalRecords m = m_additionalRecords msg)
      (out ++ [final]).
Proof.
  induction answersToSend as [|a rest IH]; intros msg size out final H;
    simpl in H.
  - injection H as <- <-. constructor; [auto|constructor].
  - destruct (size + len (encodeRecord a) >? MAX_MDNS_MESSAGE_SIZE).
    + destruct (packAnswers emptySize rest _ _) as [out' final'] eqn:E.
      injection H as <- <-. simpl. constructor; [auto|].
      apply (IH _ _ _ _ E).
    + apply (IH _ _ _ _ H).
Qed.

Lemma packAnswers_all_fit emptySize answersToSend :
  forall msg size,
    size + sumLen (map encodeRecord answersToSend) <= MAX_MDNS_MESSAGE_SIZE ->
    packAnswers emptySize answersToSend msg size
    = ([], withAnswers (m_answers msg ++ map encodeRecord answersToSend) msg).
Proof.
  induction answersToSend as [|a rest IH]; intros msg size Hfit; simpl.
  - rewrite app_nil_r. destruct msg; reflexivity.
  - simpl in Hfit.
    pose proof (len_nonneg (encodeRecord a)) as Ha.
    assert (Hrest : 0 <= sumLen (map encodeRecord rest)).
    { clear. induction rest as [|b rest IH]; simpl; [lia|].
      pose proof (len_nonneg (encodeRecord b)). lia. }
    destruct (Z.gtb_spec (size + len (encodeRecord a)) MAX_MDNS_MESSAGE_SIZE);
      [lia|].
    rewrite IH by lia. simpl. now rewrite <- app_assoc.
Qed.

End BroadcastContents.

(** X1. The known answers of a broadcast are spread over its datagrams
    without loss, repetition or reordering: the answer sections of the
    datagrams, in sending order, concatenate to the encodings of the known
    answers. *)
Theorem broadcast_sends_every_known_answer_once :
  forall (codec : DnsCodec) (queries : list DnsQuery)
         (answers : list DnsRecord),
    List.concat (map m_answers (broadcastMessages queries answers))
    = map encodeRecord answers.
Proof.
  intros codec queries answers. unfold broadcastMessages.
  destruct (packAnswers _ answers _ _) as [out final] eqn:E.
  apply packAnswers_answers in E.
  rewrite map_app in *. simpl in *. exact E.
Qed.

(** X2. Every datagram of a broadcast after the first carries at least one
    known answer (only the first can have an empty answer section), and every
    datagram has transaction id 0 and empty authority and additional
    sections. *)
Theorem broadcast_follow_ups_carry_answers :
  forall (codec : DnsCodec) (queries : list DnsQuery)
         (answers : list DnsRecord),
    Forall (fun m => m_answers m <> [])
      (tl (broadcastMessages queries answers))
    /\ Forall
         (fun m => m_transactionId m = 0 /\ m_authorities m = []
                   /\ m_additionalRecords m = [])
         (broadcastMessages queries answers).
Proof.
  intros codec queries answers. unfold broadcastMessages.
  destruct (packAnswers _ answers _ _) as [out final] eqn:E. split.
  - pose proof (packAnswers_later_nonempty _ _ _ _ _ _ E) as H.
    destruct out as [|m out]; simpl in *; [constructor|].
    apply Forall_app in H. destruct H as [Hout Hfinal].
    apply Forall_app. split; [exact Hout|].
    inversion Hfinal; subst. constructor; [assumption|constructor].
  - pose proof (packAnswers_header _ _ _ _ _ _ E) as H. simpl in H.
    apply Forall_app in H. destruct H as [Hout Hfinal].
    apply Forall_app. split; [exact Hout|].
    inversion Hfinal; subst. constructor; [assumption|constructor].
Qed.

(** X3. When the encoded empty message and all encoded known answers fit
    together into [MAX_MDNS_MESSAGE_SIZE], the broadcast is a single
    datagram of type [Query] with all queries and all known answers. *)
Theorem broadcast_is_one_query_when_all_fits :
  forall (codec : DnsCodec) (queries : list DnsQuery)
         (answers : list DnsRecord),
    len (encode (initialMessage queries))
    + sumLen (map encodeRecord answers) <= MAX_MDNS_MESSAGE_SIZE ->
    broadcastMessages queries answers
    = [mkDnsMessage Query 0 queries [] (map encodeRecord answers) []].
Proof.
  intros codec queries answers Hfit. unfold broadcastMessages.
  fold (initialMessage queries).
  rewrite packAnswers_all_fit by exact Hfit. reflexivity.
Qed.

(** Three queries (93 bytes) and one answer of 600 bytes fit into 1232
    bytes. *)
Lemma broadcast_is_one_query_when_all_fits_witness :
  len (@encode sampleCodec1232 (initialMessage threeQueries))
  + sumLen (map (@encodeRecord sampleCodec1232) [txtOfSize 578]) = 693
  /\ @broadcastMessages sampleCodec1232 threeQueries [txtOfSize 578]
     = [mkDnsMessage Query 0 threeQueries []
          (map (@encodeRecord sampleCodec1232) [txtOfSize 578]) []].
Proof.
  split; [vm_compute; reflexivity|].
  apply (broadcast_is_one_query_when_all_fits sampleCodec1232 threeQueries
           [txtOfSize 578]).
  vm_compute. discriminate.
Defined.

(** A second answer of 600 bytes makes 1293 bytes: one datagram under a
    limit of 1500 bytes, two under a limit of 1232 bytes. *)
Lemma two_answers_of_600_bytes :
  List.length
    (@broadcastMessages sampleCodec threeQueries
       [txtOfSize 578; txtOfSize 578]) = 1%nat
  /\ List.length
       (@broadcastMessages sampleCodec1232 threeQueries
          [txtOfSize 578; txtOfSize 578]) = 2%nat.
Proof. split; vm_compute; reflexivity. Qed.

(** *** Insertion-ordered maps: further laws *)

Lemma JsMap_set_set {V : Type} (k : string) (v1 v2 : V) (m : JsMap.t V) :
  JsMap.set k v2 (JsMap.set k v1 m) = JsMap.set k v2 m.
Proof.
  induction m as [|[k' v'] m IH]; simpl.
  - now rewrite String.eqb_refl.
  - destruct (String.eqb k' k) eqn:E; simpl.
    + now rewrite String.eqb_refl.
    + now rewrite E, IH.
Qed.

Lemma JsMap_delete_set_fresh {V : Type} (k : string) (v : V) (m : JsMap.t V) :
  JsMap.get k m = None -> JsMap.delete k (JsMap.set k v m) = m.
Proof.
  induction m as [|[k' v'] m IH]; simpl; intros H.
  - now rewrite String.eqb_refl.
  - destruct (String.eqb k' k) eqn:E; [discriminate|].
    simpl. rewrite E. now rewrite IH.
Qed.

Lemma JsMap_get_delete_other {V : Type} (k j : string) (m : JsMap.t V) :
  String.eqb k j = false ->
  JsMap.get j (JsMap.delete k m) = JsMap.get j m.
Proof.
  intros Hkj. induction m as [|[k' v'] m IH]; simpl; [reflexivity|].
  destruct (String.eqb k' k) eqn:E; simpl.
  - apply String.eqb_eq in E. subst k'. now rewrite Hkj.
  - now rewrite IH.
Qed.

Lemma JsMap_get_None_keys {V : Type} (k : string) (m : JsMap.t V) :
  JsMap.get k m = None <-> ~ In k (JsMap.keys m).
Proof.
  induction m as [|[k' v'] m IH]; simpl; [tauto|].
  destruct (String.eqb k' k) eqn:E.
  - apply String.eqb_eq in E. split; [discriminate|]. intros H. tauto.
  - apply String.eqb_neq in E. rewrite IH. tauto.
Qed.

Lemma JsMap_keys_delete_subset {V : Type} (k j : string) (m : JsMap.t V) :
  In j (JsMap.keys (JsMap.delete k m)) -> In j (JsMap.keys m).
Proof.
  induction m as [|[k' v'] m IH]; simpl; [tauto|].
  destruct (String.eqb k' k); simpl; tauto.
Qed.

(** With unique keys, a deleted key is gone. *)
Lemma JsMap_get_delete_same {V : Type} (k : string) (m : JsMap.t V) :
  NoDup (JsMap.keys m) -> JsMap.get k (JsMap.delete k m) = None.
Proof.
  induction m as [|[k' v'] m IH]; simpl; intros Hnd; [reflexivity|].
  inversion Hnd as [|? ? Hnotin Hrest]; subst.
  destruct (String.eqb k' k) eqn:E; simpl.
  - apply String.eqb_eq in E. subst k'. now apply JsMap_get_None_keys.
  - rewrite E. now apply IH.
Qed.

Lemma JsMap_keys_set {V : Type} (k j : string) (v : V) (m : JsMap.t V) :
  In j (JsMap.keys (JsMap.set k v m)) <-> j = k \/ In j (JsMap.keys m).
Proof.
  induction m as [|[k' v'] m IH]; simpl.
  - intuition congruence.
  - destruct (String.eqb k' k) eqn:E; simpl.
    + apply String.eqb_eq in E. subst k'. intuition congruence.
    + rewrite IH. intuition congruence.
Qed.

Lemma JsMap_set_NoDup {V : Type} (k : string) (v : V) (m : JsMap.t V) :
  NoDup (JsMap.keys m) -> NoDup (JsMap.keys (JsMap.set k v m)).
Proof.
  induction m as [|[k' v'] m IH]; simpl; intros Hnd.
  - constructor; [tauto|constructor].
  - inversion Hnd as [|? ? Hnotin Hrest]; subst.
    destruct (String.eqb k' k) eqn:E; simpl.
    + apply String.eqb_eq in E. subst k'. now constructor.
    + constructor; [|now apply IH].
      rewrite JsMap_keys_set. apply String.eqb_neq in E.
      intros [->|H]; tauto.
Qed.

Lemma JsMap_delete_NoDup {V : Type} (k : string) (m : JsMap.t V) :
  NoDup (JsMap.keys m) -> NoDup (JsMap.keys (JsMap.delete k m)).
Proof.
  induction m as [|[k' v'] m IH]; simpl; intros Hnd; [constructor|].
  inversion Hnd as [|? ? Hnotin Hrest]; subst.
  destruct (String.eqb k' k); simpl; [exact Hrest|].
  constructor; [|now apply IH].
  intros H. apply Hnotin. eapply JsMap_keys_delete_subset. exact H.
Qed.

(** *** Query table *)

Lemma sameQuery_refl q : sameQuery q q = true.
Proof.
  unfold sameQuery. rewrite String.eqb_refl.
  destruct (q_recordType q); reflexivity.
Qed.

Lemma filter_nil_when_none {X : Type} (f : X -> bool) (l : list X) :
  (forall x, In x l -> f x = false) -> filter f l = [].
Proof.
  induction l as [|x l IH]; intros H; simpl; [reflexivity|].
  rewrite (H x) by (now left). apply IH. intros y Hy. apply H. now right.
Qed.

(** X4. A [setQueryRecords] call for an active query id whose queries are
    all already installed (same name, type and class) changes nothing: no
    interval reset, no re-announce, and the known answers passed with it are
    not stored. *)
Theorem setQueryRecords_without_new_query_is_noop :
  forall (st : Scanner) (queryId : string) (queries : list DnsQuery)
         (answers : list DnsRecord) (existing : ActiveQuery),
    JsMap.get queryId (activeAnnounceQueries st) = Some existing ->
    (forall q, In q queries -> covered (aq_queries existing) q = true) ->
    setQueryRecords queryId queries answers st = st.
Proof.
  intros st queryId queries answers existing Hget Hcov.
  unfold setQueryRecords. rewrite Hget.
  rewrite filter_nil_when_none; [reflexivity|].
  intros q Hq. apply negb_false_iff. exact (Hcov q Hq).
Qed.

Lemma setQueryRecords_without_new_query_is_noop_witness :
  let st :=
    setQueryRecords "id" threeQueries [] (newScanner false) in
  setQueryRecords "id" (rev threeQueries) [txtOfSize 10] st = st.
Proof.
  apply (setQueryRecords_without_new_query_is_noop _ "id" (rev threeQueries)
           [txtOfSize 10] (mkActiveQuery threeQueries [])).
  - reflexivity.
  - intros q Hq. simpl in Hq.
    destruct Hq as [<-|[<-|[<-|[]]]]; reflexivity.
Defined.

(** X5. A [setQueryRecords] call that brings a new triple leaves under the
    query id: the new queries in front of the queries that were there, so
    that every requested query is installed; and the earlier known answers
    followed by the given ones. *)
Theorem setQueryRecords_merges_queries_and_appends_answers :
  forall (st : Scanner) (queryId : string) (queries : list DnsQuery)
         (answers : list DnsRecord),
    addsNewTriple queryId queries st ->
    exists added,
      JsMap.get queryId
        (activeAnnounceQueries (setQueryRecords queryId queries answers st))
      = Some (mkActiveQuery (added ++ existingQueries queryId st)
                (existingAnswers queryId st ++ answers))
      /\ (forall q, In q added ->
            In q queries /\ covered (existingQueries queryId st) q = false)
      /\ (forall q, In q queries ->
            covered (added ++ existingQueries queryId st) q = true).
Proof.
  intros st queryId queries answers [q0 [Hq0 Hnew0]].
  unfold setQueryRecords, existingQueries, existingAnswers, covered in *.
  destruct (JsMap.get queryId (activeAnnounceQueries st)) as [existing|] eqn:G.
  - set (f := fun query =>
                negb (existsb (fun existingQuery => sameQuery existingQuery query)
                        (aq_queries existing))).
    assert (Hin : In q0 (filter f queries)).
    { apply filter_In. split; [exact Hq0|]. unfold f.
      apply negb_true_iff. apply not_true_is_false. intros Hex.
      apply existsb_exists in Hex. destruct Hex as [e [He Hsame]].
      rewrite (Hnew0 e He) in Hsame. discriminate. }
    exists (filter f queries).
    destruct (filter f queries) as [|x l] eqn:Hf; [destruct Hin|].
    cbn [List.length Nat.eqb activeAnnounceQueries setActiveAnnounceQueries
         setNextAnnounceIntervalMs setQueryTimer].
    rewrite JsMap_get_set_same. split; [reflexivity|]. split.
    + intros q Hq. rewrite <- Hf in Hq. apply filter_In in Hq.
      destruct Hq as [Hq Hfq]. split; [exact Hq|].
      unfold f in Hfq. now apply negb_true_iff in Hfq.
    + intros q Hq. rewrite existsb_app.
      destruct (existsb (fun e => sameQuery e q) (aq_queries existing))
        eqn:Hex; [apply orb_true_r|].
      rewrite <- Hf. apply orb_true_iff. left.
      apply existsb_exists. exists q. split; [|apply sameQuery_refl].
      apply filter_In. split; [exact Hq|]. unfold f. now rewrite Hex.
  - exists queries.
    cbn [activeAnnounceQueries setActiveAnnounceQueries
         setNextAnnounceIntervalMs setQueryTimer].
    rewrite JsMap_get_set_same, !app_nil_r. split; [reflexivity|]. split.
    + intros q Hq. split; [exact Hq|reflexivity].
    + intros q Hq. apply existsb_exists. exists q.
      split; [exact Hq|apply sameQuery_refl].
Qed.

(** The queries for [a] and [b] are installed with one known answer; a
    call then asks for [c], [b] and [a] with another answer: [c] is put in
    front of [a] and [b], and the new answer behind the earlier one. *)
Lemma setQueryRecords_merges_queries_and_appends_answers_witness :
  let st :=
    setQueryRecords "id" (firstn 2 threeQueries) [txtOfSize 10]
      (newScanner false) in
  existingQueries "id" st = firstn 2 threeQueries
  /\ existingAnswers "id" st = [txtOfSize 10]
  /\ JsMap.get "id"
       (activeAnnounceQueries
          (setQueryRecords "id" (rev threeQueries) [txtOfSize 20] st))
     = Some (mkActiveQuery (skipn 2 threeQueries ++ firstn 2 threeQueries)
               [txtOfSize 10; txtOfSize 20])
  /\ exists added,
       JsMap.get "id"
         (activeAnnounceQueries
            (setQueryRecords "id" (rev threeQueries) [txtOfSize 20] st))
       = Some (mkActiveQuery (added ++ firstn 2 threeQueries)
                 ([txtOfSize 10] ++ [txtOfSize 20]))
       /\ (forall q, In q added ->
             In q (rev threeQueries)
             /\ covered (firstn 2 threeQueries) q = false)
       /\ (forall q, In q (rev threeQueries) ->
             covered (added ++ firstn 2 threeQueries) q = true).
Proof.
  intros st. split; [reflexivity|]. split; [reflexivity|].
  split; [reflexivity|].
  apply (setQueryRecords_merges_queries_and_appends_answers st "id"
           (rev threeQueries) [txtOfSize 20]).
  exists (mkDnsQuery "c._matterc._udp.local" DnsRecordType.PTR
            DnsRecordClass.IN).
  split; [simpl; auto|].
  intros e He. simpl in He. destruct He as [<-|[<-|[]]]; reflexivity.
Defined.

Section QueryLifeCycle.

Context {codec : DnsCodec}.

Lemma broadcasts_keep_queries n :
  forall st,
    activeAnnounceQueries (broadcasts n st) = activeAnnounceQueries st.
Proof.
  induction n as [|n IH]; intros st; [reflexivity|].
  simpl. now rewrite IH.
Qed.

End QueryLifeCycle.

(** X6. Installing a query under a query id that is not active and removing
    it again, after any number of broadcasts in between, restores the query
    table; when no other query is active the timer is then stopped and the
    interval is back at 1.5 s, whatever it had grown to. *)
Theorem removeQuery_undoes_setQueryRecords :
  forall (codec : DnsCodec) (st : Scanner) (queryId : string)
         (queries : list DnsQuery) (answers : list DnsRecord) (n : nat),
    JsMap.get queryId (activeAnnounceQueries st) = None ->
    let st' :=
      removeQuery queryId
        (broadcasts n (setQueryRecords queryId queries answers st)) in
    activeAnnounceQueries st' = activeAnnounceQueries st
    /\ (activeAnnounceQueries st = [] ->
        queryTimer st' = None
        /\ nextAnnounceIntervalMs st' = START_ANNOUNCE_INTERVAL_MS).
Proof.
  intros codec st queryId queries answers n Hfresh st'.
  assert (Hq : activeAnnounceQueries st' = activeAnnounceQueries st).
  { unfold st', removeQuery.
    match goal with
    | |- activeAnnounceQueries (if ?c then _ else _) = _ => destruct c
    end;
      cbn [activeAnnounceQueries setActiveAnnounceQueries
           setNextAnnounceIntervalMs setQueryTimer];
      rewrite broadcasts_keep_queries; unfold setQueryRecords;
      rewrite Hfresh;
      cbn [activeAnnounceQueries setActiveAnnounceQueries
           setNextAnnounceIntervalMs setQueryTimer];
      now apply JsMap_delete_set_fresh. }
  split; [exact Hq|]. intros Hempty.
  unfold st', removeQuery in *.
  cbn [activeAnnounceQueries setActiveAnnounceQueries] in *.
  rewrite broadcasts_keep_queries in *. unfold setQueryRecords in *.
  rewrite Hfresh in *.
  cbn [activeAnnounceQueries setActiveAnnounceQueries
       setNextAnnounceIntervalMs setQueryTimer] in *.
  rewrite JsMap_delete_set_fresh by exact Hfresh.
  rewrite Hempty. split; reflexivity.
Qed.

Lemma removeQuery_undoes_setQueryRecords_witness :
  let st' :=
    removeQuery "id"
      (@broadcasts sampleCodec 5
         (setQueryRecords "id" threeQueries [] (newScanner false))) in
  activeAnnounceQueries st' = activeAnnounceQueries (newScanner false)
  /\ (activeAnnounceQueries (newScanner false) = [] ->
      queryTimer st' = None
      /\ nextAnnounceIntervalMs st' = START_ANNOUNCE_INTERVAL_MS).
Proof.
  apply (removeQuery_undoes_setQueryRecords sampleCodec (newScanner false)
           "id" threeQueries [] 5).
  reflexivity.
Defined.

(** *** Waiter registry *)

(** X7. A waiter registered with [resolveOnUpdatedRecords = false] (the
    streaming caller) is left in place, unresolved and with its timer, by a
    [finishWaiter] call for an updated record. *)
Theorem streaming_waiter_ignores_updated_records :
  forall (st : Scanner) (queryId : string) (timeoutSeconds : option Z)
         (resolvePromise : bool),
    finishWaiter queryId resolvePromise true
      (registerWaiterPromise queryId timeoutSeconds false st)
    = registerWaiterPromise queryId timeoutSeconds false st.
Proof.
  intros st queryId timeoutSeconds resolvePromise.
  unfold finishWaiter, registerWaiterPromise.
  cbn [recordWaiters setRecordWaiters setOrphanTimers].
  rewrite JsMap_get_set_same. reflexivity.
Qed.

(** X8. Registering a waiter under a query id that has none and finishing
    it (not as a suppressed update) restores the waiter table; its promise is
    resolved exactly when [resolvePromise] is set. *)
Theorem finishWaiter_undoes_registerWaiterPromise :
  forall (st : Scanner) (queryId : string) (timeoutSeconds : option Z)
         (resolveOnUpdatedRecords resolvePromise isUpdatedRecord : bool),
    hasWaiter queryId st = false ->
    isUpdatedRecord && negb resolveOnUpdatedRecords = false ->
    let st' :=
      finishWaiter queryId resolvePromise isUpdatedRecord
        (registerWaiterPromise queryId timeoutSeconds resolveOnUpdatedRecords
           st) in
    recordWaiters st' = recordWaiters st
    /\ resolved st'
       = resolved st ++ (if resolvePromise then [queryId] else []).
Proof.
  intros st queryId timeoutSeconds onUpdated resolvePromise isUpdated Hfresh
    Hnot st'.
  unfold st', finishWaiter, registerWaiterPromise.
  cbn [recordWaiters setRecordWaiters setOrphanTimers].
  rewrite JsMap_get_set_same. cbn [w_resolveOnUpdatedRecords]. rewrite Hnot.
  assert (Hnone : JsMap.get queryId (recordWaiters st) = None).
  { unfold hasWaiter, JsMap.has in Hfresh.
    destruct (JsMap.get queryId (recordWaiters st)); [discriminate|easy]. }
  destruct resolvePromise;
    cbn [recordWaiters setRecordWaiters setOrphanTimers setResolved resolved];
    rewrite JsMap_delete_set_fresh by exact Hnone;
    rewrite ?app_nil_r; split; reflexivity.
Qed.

Lemma finishWaiter_undoes_registerWaiterPromise_witness :
  let st' :=
    finishWaiter "id" true true
      (registerWaiterPromise "id" (Some 5) true (newScanner false)) in
  recordWaiters st' = recordWaiters (newScanner false)
  /\ resolved st' = resolved (newScanner false) ++ ["id"].
Proof.
  apply (finishWaiter_undoes_registerWaiterPromise (newScanner false) "id"
           (Some 5) true true true); reflexivity.
Defined.

Lemma nth_error_snoc {X : Type} (l : list X) (x : X) :
  nth_error (l ++ [x]) (List.length l) = Some x.
Proof. induction l as [|y l IH]; simpl; [reflexivity|exact IH]. Qed.

Lemma removeAt_snoc {X : Type} (l : list X) (x : X) :
  removeAt (List.length l) (l ++ [x]) = l.
Proof.
  induction l as [|y l IH]; simpl; [reflexivity|]. rewrite IH. reflexivity.
Qed.

(** X9. A second registration under a query id whose waiter has a timeout
    replaces the table entry and resolves nothing, but the timer of the
    replaced waiter keeps running. When that timer runs out it finishes the
    second waiter: the second promise is resolved and its entry is deleted,
    whatever timeout the second registration asked for. *)
Theorem replaced_waiter_timer_stays_armed :
  forall (st : Scanner) (queryId : string) (t1 : Z) (t2 : option Z)
         (f1 f2 : bool),
    let st1 := registerWaiterPromise queryId (Some t1) f1 st in
    let st2 := registerWaiterPromise queryId t2 f2 st1 in
    let fired := orphanTimerFires (List.length (orphanTimers st1)) st2 in
    recordWaiters st2 = recordWaiters (registerWaiterPromise queryId t2 f2 st)
    /\ resolved st2 = resolved st
    /\ orphanTimers st2 = orphanTimers st1 ++ [(queryId, t1 * 1000)]
    /\ recordWaiters fired = JsMap.delete queryId (recordWaiters st2)
    /\ resolved fired = resolved st ++ [queryId]
    /\ orphanTimers fired = orphanTimers st1.
Proof.
  intros st queryId t1 t2 f1 f2 st1 st2 fired.
  assert (Hown : waiterTimerOf queryId st1 = [(queryId, t1 * 1000)]).
  { unfold waiterTimerOf, st1, registerWaiterPromise.
    cbn [recordWaiters setRecordWaiters setOrphanTimers].
    rewrite JsMap_get_set_same. reflexivity. }
  assert (Horphans : orphanTimers st2
                     = orphanTimers st1 ++ [(queryId, t1 * 1000)]).
  { unfold st2. unfold registerWaiterPromise at 1.
    cbn [orphanTimers setOrphanTimers]. rewrite Hown. reflexivity. }
  split; [|split; [|split; [exact Horphans|]]].
  - unfold st2, st1, registerWaiterPromise.
    cbn [recordWaiters setRecordWaiters setOrphanTimers].
    apply JsMap_set_set.
  - reflexivity.
  - assert (Hget : exists waiter,
              JsMap.get queryId (recordWaiters st2) = Some waiter
              /\ w_resolveOnUpdatedRecords waiter = f2).
    { eexists. unfold st2. unfold registerWaiterPromise at 1.
      cbn [recordWaiters setRecordWaiters setOrphanTimers].
      rewrite JsMap_get_set_same. split; reflexivity. }
    destruct Hget as [waiter [Hget _]].
    unfold fired, orphanTimerFires. rewrite Horphans, nth_error_snoc,
      removeAt_snoc.
    unfold finishWaiter. cbn [recordWaiters setOrphanTimers].
    rewrite Hget. cbn [andb].
    cbn [recordWaiters setRecordWaiters setOrphanTimers setResolved
         resolved orphanTimers].
    repeat split.
Qed.

(** Two lookups for the same node on a fresh scanner, the first with a
    timeout of 5 s and the second with one of 60 s: after 5 s the first
    timer resolves the second lookup. *)
Lemma second_lookup_is_resolved_by_first_timer :
  let st1 := registerWaiterPromise "id" (Some 5) true (newScanner false) in
  let st2 := registerWaiterPromise "id" (Some 60) true st1 in
  JsMap.get "id" (recordWaiters st2) = Some (mkWaiter (Some 60000) true)
  /\ orphanTimers st2 = [("id", 5000)]
  /\ resolved (orphanTimerFires 0 st2) = ["id"]
  /\ recordWaiters (orphanTimerFires 0 st2) = [].
Proof. repeat split. Qed.

Lemma finishAll_drains (waiters : JsMap.t Waiter) :
  forall st st',
    recordWaiters st = waiters ->
    st' = fold_left
            (fun st queryId =>
               finishWaiter queryId
                 (match JsMap.get queryId (recordWaiters st) with
                  | Some waiter => isSome (w_timer waiter)
                  | None => false
                  end)
                 false st)
            (JsMap.keys waiters) st ->
    recordWaiters st' = []
    /\ resolved st' = resolved st ++ timedWaiters waiters
    /\ queryTimer st' = queryTimer st
    /\ periodicTimer st' = periodicTimer st
    /\ transportClosed st' = transportClosed st
    /\ activeAnnounceQueries st' = activeAnnounceQueries st
    /\ operationalDeviceRecords st' = operationalDeviceRecords st
    /\ commissionableDeviceRecords st' = commissionableDeviceRecords st.
Proof.
  induction waiters as [|[k w] waiters IH]; intros st st' Hst Hst'.
  - subst st'. simpl. rewrite app_nil_r. repeat split; assumption.
  - cbn [JsMap.keys map fst fold_left] in Hst'.
    match type of Hst' with
    | _ = fold_left _ _ ?s => set (next := s) in *
    end.
    assert (Hnext :
      recordWaiters next = waiters
      /\ resolved next
         = resolved st ++ (if isSome (w_timer w) then [k] else [])
      /\ queryTimer next = queryTimer st
      /\ periodicTimer next = periodicTimer st
      /\ transportClosed next = transportClosed st
      /\ activeAnnounceQueries next = activeAnnounceQueries st
      /\ operationalDeviceRecords next = operationalDeviceRecords st
      /\ commissionableDeviceRecords next = commissionableDeviceRecords st).
    { unfold next, finishWaiter. rewrite Hst.
      cbn [JsMap.get]. rewrite String.eqb_refl. cbn [andb].
      destruct (isSome (w_timer w));
        cbn [recordWaiters setRecordWaiters setOrphanTimers setResolved resolved queryTimer
             periodicTimer transportClosed activeAnnounceQueries
             operationalDeviceRecords commissionableDeviceRecords];
        rewrite Hst; cbn [JsMap.delete]; rewrite String.eqb_refl;
        rewrite ?app_nil_r; repeat split; reflexivity. }
    destruct Hnext as (Hw & Hr & Hq & Hp & Ht & Ha & Ho & Hc).
    destruct (IH next st' Hw Hst')
      as (IHw & IHr & IHq & IHp & IHt & IHa & IHo & IHc).
    repeat split; try congruence.
    rewrite IHr, Hr. unfold timedWaiters. cbn [filter snd].
    destruct (isSome (w_timer w)); cbn [map fst];
      rewrite <- app_assoc; reflexivity.
Qed.

(** X10. [close] sets the closing flag, stops the periodic and the query
    timer, closes the transport and empties the waiter table; the promises
    it resolves are exactly those of the waiters that had a timeout, in
    registration order; the query table and the caches are left as they
    are. *)
Theorem close_drains_waiters :
  forall st : Scanner,
    closing (close st) = true
    /\ periodicTimer (close st) = None
    /\ queryTimer (close st) = None
    /\ transportClosed (close st) = true
    /\ recordWaiters (close st) = []
    /\ resolved (close st) = resolved st ++ timedWaiters (recordWaiters st)
    /\ activeAnnounceQueries (close st) = activeAnnounceQueries st
    /\ operationalDeviceRecords (close st) = operationalDeviceRecords st
    /\ commissionableDeviceRecords (close st)
       = commissionableDeviceRecords st.
Proof.
  intros st. split; [apply close_sets_closing|].
  unfold close.
  match goal with
  | |- context [fold_left ?f (JsMap.keys (recordWaiters ?s)) ?s] =>
      pose proof (finishAll_drains (recordWaiters s) s _ eq_refl eq_refl)
        as H
  end.
  destruct H as (Hw & Hr & Hq & Hp & Ht & Ha & Ho & Hc).
  rewrite Hw, Hr, Hq, Hp, Ht, Ha, Ho, Hc. repeat split.
Qed.

Section CancelDiscovery.

Context {general : General} {consts : MdnsConsts}.

Lemma setQueryRecords_keeps_waiters queryId queries answers st :
  recordWaiters (setQueryRecords queryId queries answers st)
  = recordWaiters st
  /\ resolved (setQueryRecords queryId queries answers st) = resolved st.
Proof.
  unfold setQueryRecords.
  destruct (JsMap.get queryId (activeAnnounceQueries st));
    [|split; reflexivity].
  match goal with
  | |- context [if ?c then _ else _] => destruct c
  end; split; reflexivity.
Qed.

End CancelDiscovery.

(** X11. Cancelling an operational discovery that is waiting (with
    [resolvePromise = true]) resolves its promise and removes its waiter:
    when the device name had no waiter before the call, the waiter table is
    as before [findOperationalDevice]; the installed query stays for the
    resumed call to remove. *)
Theorem cancel_resolves_waiting_operational_discovery :
  forall (general : General) (consts : MdnsConsts) (st st' : Scanner)
         (operationalId : Bytes) (nodeId : Z) (timeoutSeconds : option Z)
         (ignoreExistingRecords : bool),
    findOperationalDevice operationalId nodeId timeoutSeconds
      ignoreExistingRecords st = Awaits st' ->
    hasWaiter (createOperationalMatterQName operationalId nodeId) st = false ->
    let canceled :=
      cancelOperationalDeviceDiscovery operationalId nodeId true st' in
    recordWaiters canceled = recordWaiters st
    /\ resolved canceled
       = resolved st ++ [createOperationalMatterQName operationalId nodeId]
    /\ activeAnnounceQueries canceled = activeAnnounceQueries st'.
Proof.
  intros general consts st st' operationalId nodeId timeoutSeconds ignore
    Hfind Hfresh canceled.
  unfold findOperationalDevice in Hfind.
  destruct (closing st); [discriminate|].
  destruct (if ignore then None else _); [discriminate|].
  injection Hfind as <-.
  set (name := createOperationalMatterQName operationalId nodeId) in *.
  unfold canceled, cancelOperationalDeviceDiscovery. fold name.
  assert (Hnone : JsMap.get name (recordWaiters st) = None).
  { unfold hasWaiter, JsMap.has in Hfresh.
    destruct (JsMap.get name (recordWaiters st)); [discriminate|easy]. }
  unfold finishWaiter.
  destruct (setQueryRecords_keeps_waiters name
              [mkDnsQuery name DnsRecordType.SRV DnsRecordClass.IN] []
              (registerWaiterPromise name timeoutSeconds true st))
    as [Hw Hr].
  rewrite Hw. unfold registerWaiterPromise at 1.
  cbn [recordWaiters setRecordWaiters setOrphanTimers]. rewrite JsMap_get_set_same.
  cbn [andb recordWaiters setRecordWaiters setOrphanTimers setResolved resolved
       activeAnnounceQueries].
  rewrite Hw, Hr. unfold registerWaiterPromise.
  cbn [recordWaiters setRecordWaiters setOrphanTimers resolved].
  rewrite JsMap_delete_set_fresh by exact Hnone.
  rewrite ?JsMap_get_set_same.
  cbn [recordWaiters setRecordWaiters setOrphanTimers setResolved resolved
       activeAnnounceQueries].
  repeat split.
Qed.

Lemma cancel_resolves_waiting_operational_discovery_witness :
  let st := newScanner false in
  let st' :=
    setQueryRecords "0-7._matter._tcp.local"
      [mkDnsQuery "0-7._matter._tcp.local" DnsRecordType.SRV
         DnsRecordClass.IN] []
      (registerWaiterPromise "0-7._matter._tcp.local" (Some 5) true st) in
  let canceled :=
    @cancelOperationalDeviceDiscovery sampleGeneral specConsts [] 7 true st' in
  recordWaiters canceled = recordWaiters st
  /\ resolved canceled
     = resolved st
       ++ [@createOperationalMatterQName sampleGeneral specConsts [] 7]
  /\ activeAnnounceQueries canceled = activeAnnounceQueries st'.
Proof.
  apply (cancel_resolves_waiting_operational_discovery sampleGeneral
           specConsts (newScanner false) _ [] 7 (Some 5) false);
    reflexivity.
Defined.

(** *** TXT parser: further properties *)

(** X12. Whatever the record, the parsed data has [T] defined and never
    the reserved value 1, and has [ICD] defined. *)
Theorem parseTxtRecord_T_never_reserved :
  forall record : DnsRecord,
    (exists t, T (parseTxtRecord record) = Some t /\ t <> 1)
    /\ (exists i, ICD (parseTxtRecord record) = Some i).
Proof.
  intros record. unfold parseTxtRecord.
  set (r := match arrayValue record with
            | Some items => parseTxtItems items
            | None => emptyDiscoveryData
            end).
  clearbody r. destruct r as [? ? ? t ? ? ? ? i ? ? ? ?].
  unfold fillDefaults. simpl.
  destruct t as [t|]; [destruct (Z.eqb_spec t 1)|]; destruct i; simpl;
    split; eexists; try split; try reflexivity; try lia; assumption.
Qed.

Lemma parseTxtItem_ignored result item :
  ignoredItem item = true -> parseTxtItem result item = result.
Proof.
  unfold ignoredItem, parseTxtItem.
  destruct (Js.split "=" item) as [|key [|value rest]]; try reflexivity.
  destruct (Js.includes intKeys key).
  - destruct (Js.parseInt value); [reflexivity|discriminate].
  - destruct (Js.includes strKeys key); [discriminate|reflexivity].
Qed.

(** X13. Items without [=], with a key outside the known keys, or with a
    non-numeric value for an integer key do not influence the parse: the
    payload parses as the payload without them. *)
Theorem parseTxtItems_skips_ignored_items :
  forall items : list string,
    parseTxtItems (filter (fun item => negb (ignoredItem item)) items)
    = parseTxtItems items.
Proof.
  intros items. unfold parseTxtItems. generalize emptyDiscoveryData.
  induction items as [|item items IH]; intros acc; [reflexivity|].
  simpl. destruct (ignoredItem item) eqn:E; simpl.
  - rewrite (parseTxtItem_ignored acc item E). apply IH.
  - apply IH.
Qed.

(** X14. [#parseCommissionableTxtRecord] returns a record exactly when the
    payload is an array in which both [D] and [CM] parse; the record then
    has an empty address map, [expires = now + ttl * 1000] and the fields of
    [#parseTxtRecord]. *)
Theorem parseCommissionableTxtRecord_succeeds_iff :
  forall (now : Z) (record : DnsRecord) (parsed : ParsedCommissionableTxt),
    parseCommissionableTxtRecord now record = Some parsed
    <-> (exists items,
            r_value record = TxtValue (Some items)
            /\ D (parseTxtItems items) <> None
            /\ CM (parseTxtItems items) <> None)
        /\ parsed
           = mkParsed JsMap.empty (now + r_ttl record * 1000)
               (parseTxtRecord record).
Proof.
  intros now record parsed. unfold parseCommissionableTxtRecord.
  unfold parseTxtRecord at 1 2, arrayValue.
  destruct (r_value record) as [| | | |[items|]|];
    try (split; [discriminate|intros [[items' [H _]] _]; discriminate]).
  cbn [p_data].
  destruct (fillDefaults_D_CM (parseTxtItems items)) as [HD HC].
  rewrite HD, HC. split.
  - destruct (D (parseTxtItems items)) eqn:ED; [|discriminate].
    destruct (CM (parseTxtItems items)) eqn:EC; [|discriminate].
    intros [= <-]. split; [|reflexivity].
    exists items. rewrite ED, EC. repeat split; discriminate.
  - intros [[items' [Hv [HD' HC']]] ->]. injection Hv as <-.
    destruct (D (parseTxtItems items)); [|contradiction].
    destruct (CM (parseTxtItems items)); [|contradiction].
    reflexivity.
Qed.

(** *** Commissionable cache: the TXT loop *)

Lemma band_nibble_range (d : Z) : 0 <= Js.band (Js.shr d 8) 15 <= 15.
Proof.
  rewrite band_shr_nibble. change 15 with (Z.ones 4) at 1 2.
  rewrite Z.land_ones by lia.
  pose proof (Z.mod_pos_bound (Z.shiftr d 8) (2 ^ 4)). lia.
Qed.

Lemma handleCommissionableTxtRecord_SD now state record :
  Forall (fun entry => shortDiscriminatorInRange (snd entry)) (fst state) ->
  Forall (fun entry => shortDiscriminatorInRange (snd entry))
    (fst (handleCommissionableTxtRecord now state record)).
Proof.
  destruct state as [records missing]. intros H.
  unfold handleCommissionableTxtRecord.
  destruct (r_ttl record =? 0).
  - cbn [fst] in *. destruct (JsMap.has (r_name record) records);
      [now apply JsMap_delete_Forall|exact H].
  - destruct (parseCommissionableTxtRecord now record) as [parsed|] eqn:E;
      [|exact H].
    assert (HD : exists d, D (p_data parsed) = Some d).
    { unfold parseCommissionableTxtRecord in E.
      destruct (arrayValue record); [|discriminate].
      cbn [p_data] in E.
      destruct (D (parseTxtRecord record)) eqn:ED; [|discriminate].
      destruct (CM (parseTxtRecord record)); [|discriminate].
      injection E as <-. cbn [p_data]. rewrite ED. eauto. }
    destruct HD as [d HD]. rewrite HD.
    destruct (splitVP (VP (p_data parsed))) as [V P].
    cbn [fst] in H.
    destruct (JsMap.get (r_name record) records); cbn [fst];
      (apply JsMap_set_Forall; [exact H|]);
      exists (Js.band (Js.shr d 8) 15);
      (split; [reflexivity|apply band_nibble_range]).
Qed.

(** X15. The TXT loop of [#handleCommissionableRecords] keeps every cached
    short discriminator a 4-bit value: if all cached records have [SD] in
    0..15 before, they all have after, whatever the packet. *)
Theorem commissionable_short_discriminator_stays_4_bit :
  forall (consts : MdnsConsts) (now : Z)
         (answers formerAnswers : list DnsRecord)
         (records : JsMap.t CommissionableDeviceRecordWithExpire),
    Forall shortDiscriminatorInRange (JsMap.values records) ->
    Forall shortDiscriminatorInRange
      (JsMap.values
         (fst (handleCommissionableTxtRecords now answers formerAnswers
                 records))).
Proof.
  intros consts now answers formerAnswers records H.
  unfold JsMap.values in *. rewrite Forall_map in *.
  unfold handleCommissionableTxtRecords.
  set (txt := filter _ _). clearbody txt.
  assert (Hgen : forall state,
             Forall (fun e => shortDiscriminatorInRange (snd e)) (fst state) ->
             Forall (fun e => shortDiscriminatorInRange (snd e))
               (fst (fold_left (handleCommissionableTxtRecord now) txt state))).
  { induction txt as [|r txt IH]; intros state Hs; [exact Hs|].
    simpl. apply IH. now apply handleCommissionableTxtRecord_SD. }
  apply (Hgen (records, [])). exact H.
Qed.

Lemma commissionable_short_discriminator_stays_4_bit_witness :
  Forall shortDiscriminatorInRange
    (JsMap.values
       (fst (@handleCommissionableTxtRecords specConsts 0
               [txtRecord "A._matterc._udp.local" 120 ["D=3840"; "CM=1"]]
               [] []))).
Proof.
  apply (commissionable_short_discriminator_stays_4_bit specConsts 0
           [txtRecord "A._matterc._udp.local" 120 ["D=3840"; "CM=1"]] [] []).
  simpl. constructor.
Defined.

(** The instance id of a name is its label before the first dot, and the
    whole name when it has no dot. *)
Lemma extractInstanceId_label (label rest : string) :
  Js.indexOf "." label = None ->
  extractInstanceId (String.append label (String "." rest)) = label.
Proof.
  unfold extractInstanceId. revert rest.
  induction label as [|a label IH]; intros rest Hno.
  - reflexivity.
  - cbn [Js.indexOf] in Hno. cbn [String.append Js.indexOf].
    destruct (Ascii.eqb a ".") eqn:Ea; [discriminate|].
    destruct (Js.indexOf "." label) eqn:El; [discriminate|].
    specialize (IH rest eq_refl).
    destruct (Js.indexOf "." (String.append label (String "." rest)))
      as [i|] eqn:Ei.
    + cbn [String.substring]. now rewrite IH.
    + exfalso. clear -Ei. induction label as [|c label IHl].
      * cbn [String.append Js.indexOf] in Ei. discriminate.
      * cbn [String.append Js.indexOf] in Ei.
        destruct (Ascii.eqb c "."); [discriminate|].
        destruct (Js.indexOf "." (String.append label (String "." rest)));
          [discriminate|now apply IHl].
Qed.

Lemma extractInstanceId_no_dot (name : string) :
  Js.indexOf "." name = None -> extractInstanceId name = name.
Proof. intros H. unfold extractInstanceId. now rewrite H. Qed.

(** X16. A commissionable TXT record with a non-zero TTL that parses
    replaces the cached entry of its name and keeps the addresses that entry
    had (none for a new entry); only a new entry is added to
    [queryMissingDataForInstances]; the instance id and the device
    identifier are the label of the name before its first dot (the whole
    name when it has no dot); entries under other names are untouched. *)
Theorem commissionable_txt_refresh_keeps_addresses :
  forall (now : Z) (records : JsMap.t CommissionableDeviceRecordWithExpire)
         (missing : JsSet.t) (record : DnsRecord)
         (parsed : ParsedCommissionableTxt),
    r_ttl record <> 0 ->
    parseCommissionableTxtRecord now record = Some parsed ->
    let result :=
      handleCommissionableTxtRecord now (records, missing) record in
    (exists stored,
        JsMap.get (r_name record) (fst result) = Some stored
        /\ cd_addresses stored
           = match JsMap.get (r_name record) records with
             | Some old => cd_addresses old
             | None => []
             end
        /\ cd_deviceIdentifier stored = cd_instanceId stored
        /\ (forall label rest,
               r_name record = String.append label (String "." rest) ->
               Js.indexOf "." label = None ->
               cd_instanceId stored = label)
        /\ (Js.indexOf "." (r_name record) = None ->
            cd_instanceId stored = r_name record)
        /\ cd_expires stored = now + r_ttl record * 1000
        /\ cd_data stored = parseTxtRecord record)
    /\ snd result
       = (if JsMap.has (r_name record) records then missing
          else JsSet.add (r_name record) missing)
    /\ (forall other,
           String.eqb (r_name record) other = false ->
           JsMap.get other (fst result) = JsMap.get other records).
Proof.
  intros now records missing record parsed Httl Hparse result.
  unfold result, handleCommissionableTxtRecord.
  apply Z.eqb_neq in Httl. rewrite Httl, Hparse.
  destruct (splitVP (VP (p_data parsed))) as [V P].
  assert (Hp : parsed = mkParsed JsMap.empty (now + r_ttl record * 1000)
                          (parseTxtRecord record)).
  { unfold parseCommissionableTxtRecord in Hparse.
    destruct (arrayValue record); [|discriminate].
    cbn [p_data] in Hparse.
    destruct (D (parseTxtRecord record)); [|discriminate].
    destruct (CM (parseTxtRecord record)); [|discriminate].
    now injection Hparse as <-. }
  unfold JsMap.has.
  destruct (JsMap.get (r_name record) records) as [old|]; cbn [fst snd];
    (split; [eexists; split; [apply JsMap_get_set_same|];
             rewrite Hp;
             cbn [cd_addresses cd_deviceIdentifier cd_instanceId cd_expires
                  cd_data p_addresses p_expires p_data];
             repeat split;
             [intros label rest -> Hno; now apply extractInstanceId_label
             |apply extractInstanceId_no_dot]
            |split; [reflexivity|]]);
    intros other Hother; now apply JsMap_get_set_other.
Qed.

(** The cache holds the devices [A], with the address [fd12::1], and [B].
    A later TXT record for [A] replaces its entry: new lifespan and TXT
    data, the address kept, instance id [A], no follow-up query for it, and
    [B] as it was. *)
Lemma commissionable_txt_refresh_keeps_addresses_witness :
  let record :=
    txtRecord "A._matterc._udp.local" 60 ["D=840"; "CM=2"; "DN=Lamp"] in
  let result :=
    handleCommissionableTxtRecord 1000 (sampleCommissionableCache, []) record in
  (exists stored,
      JsMap.get "A._matterc._udp.local" (fst result) = Some stored
      /\ cd_addresses stored
         = [("fd12::1",
             mkServer "fd12::1" 5540 "udp" (Some 0) (Some 120000))]
      /\ cd_instanceId stored = "A"
      /\ cd_deviceIdentifier stored = "A"
      /\ cd_expires stored = 61000
      /\ D (cd_data stored) = Some 840
      /\ DN (cd_data stored) = Some "Lamp")
  /\ snd result = []
  /\ JsMap.keys (fst result)
     = ["A._matterc._udp.local"; "B._matterc._udp.local"]
  /\ JsMap.get "B._matterc._udp.local" (fst result)
     = JsMap.get "B._matterc._udp.local" sampleCommissionableCache.
Proof.
  intros record result.
  destruct (commissionable_txt_refresh_keeps_addresses 1000
              sampleCommissionableCache [] record
              (mkParsed JsMap.empty 61000 (parseTxtRecord record)))
    as [[stored [Hget [Haddr [Hid [Hlabel [_ [Hexp Hdata]]]]]]]
        [Hmissing Hother]].
  - simpl. lia.
  - reflexivity.
  - split; [|split; [exact Hmissing|split; [reflexivity|]]].
    + exists stored. split; [exact Hget|]. split; [exact Haddr|].
      assert (HA : cd_instanceId stored = "A").
      { apply (Hlabel "A" "_matterc._udp.local"); reflexivity. }
      split; [exact HA|]. split; [now rewrite Hid|].
      split; [exact Hexp|]. rewrite Hdata. split; reflexivity.
    + apply Hother. reflexivity.
Defined.

(** *** Operational cache: TXT and SRV handling *)

Lemma filter_nil_all_false {X : Type} (f : X -> bool) (l : list X) :
  filter f l = [] -> forall x, In x l -> f x = false.
Proof.
  induction l as [|y l IH]; simpl; intros H x Hx; [destruct Hx|].
  destruct (f y) eqn:E; [discriminate|].
  destruct Hx as [<-|Hx]; [exact E|now apply IH].
Qed.

(** After [setQueryRecords], every requested query is installed under the
    query id, whether the call merged, installed or did nothing. *)
Lemma setQueryRecords_covers queryId queries answers st :
  forall q, In q queries ->
    covered (existingQueries queryId
               (setQueryRecords queryId queries answers st)) q = true.
Proof.
  intros q Hq. unfold setQueryRecords, existingQueries, covered.
  destruct (JsMap.get queryId (activeAnnounceQueries st)) as [existing|] eqn:G.
  - set (f := fun query =>
                negb (existsb (fun existingQuery => sameQuery existingQuery query)
                        (aq_queries existing))).
    destruct (filter f queries) as [|x l] eqn:Hf.
    + cbn [List.length Nat.eqb]. rewrite G.
      pose proof (filter_nil_all_false f queries Hf q Hq) as Hfq.
      unfold f in Hfq. now apply negb_false_iff in Hfq.
    + cbn [List.length Nat.eqb activeAnnounceQueries setActiveAnnounceQueries
           setNextAnnounceIntervalMs setQueryTimer].
      rewrite JsMap_get_set_same. cbn [aq_queries]. rewrite existsb_app.
      destruct (existsb (fun e => sameQuery e q) (aq_queries existing))
        eqn:Hex; [apply orb_true_r|].
      rewrite <- Hf. apply orb_true_iff. left.
      apply existsb_exists. exists q. split; [|apply sameQuery_refl].
      apply filter_In. split; [exact Hq|]. unfold f. now rewrite Hex.
  - cbn [activeAnnounceQueries setActiveAnnounceQueries
         setNextAnnounceIntervalMs setQueryTimer].
    rewrite JsMap_get_set_same. apply existsb_exists. exists q.
    split; [exact Hq|apply sameQuery_refl].
Qed.

Lemma setQueryRecords_keeps_caches queryId queries answers st :
  operationalDeviceRecords (setQueryRecords queryId queries answers st)
  = operationalDeviceRecords st
  /\ commissionableDeviceRecords (setQueryRecords queryId queries answers st)
     = commissionableDeviceRecords st
  /\ recordWaiters (setQueryRecords queryId queries answers st)
     = recordWaiters st
  /\ resolved (setQueryRecords queryId queries answers st) = resolved st
  /\ sent (setQueryRecords queryId queries answers st) = sent st.
Proof.
  unfold setQueryRecords.
  destruct (JsMap.get queryId (activeAnnounceQueries st));
    [|repeat split].
  match goal with
  | |- context [if ?c then _ else _] => destruct c
  end; repeat split.
Qed.

(** X17. An operational TXT record with a non-zero TTL and an array payload
    stores the device under its name with [discoveredAt = now] and
    [ttl = ttl * 1000], keeps the addresses the device had (none for a new
    device), and overlays the parsed TXT fields on the earlier ones; other
    devices are untouched, and no waiter, query or timer is: a TXT record
    alone never wakes a caller. *)
Theorem operational_txt_refresh_keeps_addresses :
  forall (now : Z) (record : DnsRecord) (items : list string)
         (st : Scanner),
    r_ttl record <> 0 ->
    r_value record = TxtValue (Some items) ->
    let st' := handleOperationalTxtRecord now record st in
    let old := JsMap.get (r_name record) (operationalDeviceRecords st) in
    JsMap.get (r_name record) (operationalDeviceRecords st')
    = Some
        (mkOperational
           (match old with
            | Some d => od_deviceIdentifier d
            | None => r_name record
            end)
           (match old with Some d => od_addresses d | None => [] end)
           now (r_ttl record * 1000)
           (mergeData
              (match old with
               | Some d => od_data d
               | None => emptyDiscoveryData
               end)
              (parseTxtRecord record)))
    /\ (forall other,
           String.eqb (r_name record) other = false ->
           JsMap.get other (operationalDeviceRecords st')
           = JsMap.get other (operationalDeviceRecords st))
    /\ recordWaiters st' = recordWaiters st
    /\ resolved st' = resolved st
    /\ activeAnnounceQueries st' = activeAnnounceQueries st
    /\ queryTimer st' = queryTimer st.
Proof.
  intros now record items st Httl Hvalue st' old.
  unfold st', old, handleOperationalTxtRecord, arrayValue.
  apply Z.eqb_neq in Httl. rewrite Httl, Hvalue.
  cbn [operationalDeviceRecords setOperationalDeviceRecords recordWaiters
       resolved activeAnnounceQueries queryTimer].
  rewrite JsMap_get_set_same. split.
  - destruct (JsMap.get (r_name record) (operationalDeviceRecords st));
      reflexivity.
  - split; [|repeat split].
    intros other Hother. now apply JsMap_get_set_other.
Qed.

Lemma operational_txt_refresh_keeps_addresses_witness :
  let record := txtRecord sampleOperationalName 120 ["SII=500"; "T=1"] in
  let st := afterOperationalSrv 0 120 120 in
  let st' := handleOperationalTxtRecord 1000 record st in
  let old := JsMap.get (r_name record) (operationalDeviceRecords st) in
  JsMap.get (r_name record) (operationalDeviceRecords st')
  = Some
      (mkOperational
         (match old with
          | Some d => od_deviceIdentifier d
          | None => r_name record
          end)
         (match old with Some d => od_addresses d | None => [] end)
         1000 (r_ttl record * 1000)
         (mergeData
            (match old with
             | Some d => od_data d
             | None => emptyDiscoveryData
             end)
            (parseTxtRecord record)))
  /\ (forall other,
         String.eqb (r_name record) other = false ->
         JsMap.get other (operationalDeviceRecords st')
         = JsMap.get other (operationalDeviceRecords st))
  /\ recordWaiters st' = recordWaiters st
  /\ resolved st' = resolved st
  /\ activeAnnounceQueries st' = activeAnnounceQueries st
  /\ queryTimer st' = queryTimer st.
Proof.
  apply (operational_txt_refresh_keeps_addresses 1000
           (txtRecord sampleOperationalName 120 ["SII=500"; "T=1"])
           ["SII=500"; "T=1"] (afterOperationalSrv 0 120 120)).
  - simpl. lia.
  - reflexivity.
Defined.

(** X18. A zero-TTL operational TXT record, and a zero-TTL operational SRV
    record, remove the device cached under the record's name (the cache
    being a map, with unique keys) and leave the other devices as they
    are. *)
Theorem operational_goodbye_removes_device :
  forall (now : Z) (record : DnsRecord)
         (answers formerAnswers : list DnsRecord) (netInterface : string)
         (st : Scanner),
    r_ttl record = 0 ->
    NoDup (JsMap.keys (operationalDeviceRecords st)) ->
    let afterTxt := handleOperationalTxtRecord now record st in
    (JsMap.get (r_name record) (operationalDeviceRecords afterTxt) = None
     /\ forall other,
          String.eqb (r_name record) other = false ->
          JsMap.get other (operationalDeviceRecords afterTxt)
          = JsMap.get other (operationalDeviceRecords st))
    /\ (forall target port,
           r_value record = SrvValue target port ->
           let afterSrv :=
             handleOperationalSrvRecord now record answers formerAnswers
               netInterface st in
           JsMap.get (r_name record) (operationalDeviceRecords afterSrv)
           = None
           /\ forall other,
                String.eqb (r_name record) other = false ->
                JsMap.get other (operationalDeviceRecords afterSrv)
                = JsMap.get other (operationalDeviceRecords st)).
Proof.
  intros now record answers formerAnswers netInterface st Httl Hnd afterTxt.
  assert (Hdel :
    forall s,
      s = (if JsMap.has (r_name record) (operationalDeviceRecords st)
           then setOperationalDeviceRecords
                  (JsMap.delete (r_name record) (operationalDeviceRecords st))
                  st
           else st) ->
      JsMap.get (r_name record) (operationalDeviceRecords s) = None
      /\ forall other,
           String.eqb (r_name record) other = false ->
           JsMap.get other (operationalDeviceRecords s)
           = JsMap.get other (operationalDeviceRecords st)).
  { intros s ->. unfold JsMap.has.
    destruct (JsMap.get (r_name record) (operationalDeviceRecords st)) eqn:G;
      cbn [operationalDeviceRecords setOperationalDeviceRecords].
    - split; [now apply JsMap_get_delete_same|].
      intros other Hother. now apply JsMap_get_delete_other.
    - split; [exact G|reflexivity]. }
  split.
  - apply Hdel. unfold afterTxt, handleOperationalTxtRecord.
    now rewrite Httl.
  - intros target port Hvalue afterSrv. apply Hdel.
    unfold afterSrv, handleOperationalSrvRecord. now rewrite Hvalue, Httl.
Qed.

Lemma operational_goodbye_removes_device_witness :
  let record := sampleSrv 0 in
  let st := afterOperationalSrv 0 120 120 in
  let afterTxt := handleOperationalTxtRecord 5 record st in
  (JsMap.get (r_name record) (operationalDeviceRecords afterTxt) = None
   /\ forall other,
        String.eqb (r_name record) other = false ->
        JsMap.get other (operationalDeviceRecords afterTxt)
        = JsMap.get other (operationalDeviceRecords st))
  /\ (forall target port,
         r_value record = SrvValue target port ->
         let afterSrv :=
           handleOperationalSrvRecord 5 record [record] [] "eth0" st in
         JsMap.get (r_name record) (operationalDeviceRecords afterSrv)
         = None
         /\ forall other,
              String.eqb (r_name record) other = false ->
              JsMap.get other (operationalDeviceRecords afterSrv)
              = JsMap.get other (operationalDeviceRecords st)).
Proof.
  apply (operational_goodbye_removes_device 5 (sampleSrv 0) [sampleSrv 0] []
           "eth0" (afterOperationalSrv 0 120 120)).
  - reflexivity.
  - vm_compute. constructor; [intros []|constructor].
Defined.

(** X19. An operational SRV record with a non-zero TTL that comes without
    any address record for its target, for a device that is not cached or
    is cached without addresses: when a waiter exists for the device name,
    the AAAA query for the target (and the A query when IPv4 is enabled) is
    installed under the device name, and no waiter is finished and the cache
    is not written; when no waiter exists, the record leaves the scanner
    unchanged. *)
Theorem srv_without_addresses_requests_them :
  forall (now : Z) (record : DnsRecord) (target : string) (port : Z)
         (answers formerAnswers : list DnsRecord) (netInterface : string)
         (st : Scanner),
    r_value record = SrvValue target port ->
    r_ttl record <> 0 ->
    handleIpRecords (enableIpv4 st) (answers ++ formerAnswers) target
      netInterface = [] ->
    match JsMap.get (r_name record) (operationalDeviceRecords st) with
    | Some device => od_addresses device = []
    | None => True
    end ->
    let st' :=
      handleOperationalSrvRecord now record answers formerAnswers
        netInterface st in
    (hasWaiter (r_name record) st = true ->
     (forall q, In q (addressQueries (enableIpv4 st) target) ->
        covered (existingQueries (r_name record) st') q = true)
     /\ In (mkDnsQuery target DnsRecordType.AAAA DnsRecordClass.IN)
          (addressQueries (enableIpv4 st) target)
     /\ recordWaiters st' = recordWaiters st
     /\ resolved st' = resolved st
     /\ operationalDeviceRecords st' = operationalDeviceRecords st)
    /\ (hasWaiter (r_name record) st = false -> st' = st).
Proof.
  intros now record target port answers formerAnswers netInterface st Hvalue
    Httl Hips Hnoaddr st'.
  unfold st', handleOperationalSrvRecord.
  apply Z.eqb_neq in Httl. rewrite Hvalue, Httl, Hips.
  cbn [fold_left List.length Nat.ltb Nat.leb].
  assert (Hsize :
    JsMap.size
      (od_addresses
         match JsMap.get (r_name record) (operationalDeviceRecords st) with
         | Some device => device
         | None =>
             mkOperational (r_name record) JsMap.empty now
               (r_ttl record * 1000) emptyDiscoveryData
         end) = 0).
  { destruct (JsMap.get (r_name record) (operationalDeviceRecords st));
      [rewrite Hnoaddr|]; reflexivity. }
  rewrite Hsize. cbn [Z.eqb Z.gtb Z.compare andb]. split.
  - intros Hw. rewrite Hw.
    destruct (setQueryRecords_keeps_caches (r_name record)
                (addressQueries (enableIpv4 st) target) answers st)
      as (Ho & _ & Hrw & Hr & _).
    split; [intros q Hq; now apply setQueryRecords_covers|].
    split; [left; reflexivity|]. repeat split; assumption.
  - intros Hw. rewrite Hw. reflexivity.
Qed.

Lemma srv_without_addresses_requests_them_witness :
  let st := registerWaiterPromise sampleOperationalName (Some 5) true
              (newScanner true) in
  let st' := handleOperationalSrvRecord 0 (sampleSrv 120) [sampleSrv 120] []
               "eth0" st in
  (hasWaiter sampleOperationalName st = true ->
   (forall q, In q (addressQueries (enableIpv4 st) "host.local") ->
      covered (existingQueries sampleOperationalName st') q = true)
   /\ In (mkDnsQuery "host.local" DnsRecordType.AAAA DnsRecordClass.IN)
        (addressQueries (enableIpv4 st) "host.local")
   /\ recordWaiters st' = recordWaiters st
   /\ resolved st' = resolved st
   /\ operationalDeviceRecords st' = operationalDeviceRecords st)
  /\ (hasWaiter sampleOperationalName st = false -> st' = st).
Proof.
  apply (srv_without_addresses_requests_them 0 (sampleSrv 120) "host.local"
           5540 [sampleSrv 120] [] "eth0"
           (registerWaiterPromise sampleOperationalName (Some 5) true
              (newScanner true))).
  - reflexivity.
  - simpl. lia.
  - reflexivity.
  - exact I.
Defined.

Lemma JsMap_set_not_empty {V : Type} (k : string) (v : V) (m : JsMap.t V) :
  JsMap.set k v m <> [].
Proof.
  destruct m as [|[k' v'] m]; simpl; [discriminate|].
  destruct (String.eqb k' k); discriminate.
Qed.

Lemma refreshOperationalAddress_not_empty now port ips :
  forall addresses,
    ips <> [] ->
    Forall (fun entry => snd entry <> 0) ips ->
    fold_left (refreshOperationalAddress now port) ips addresses <> [].
Proof.
  induction ips as [|[ip ttl] ips IH]; intros addresses Hne Hall;
    [contradiction|].
  inversion Hall as [|? ? Httl Hrest]; subst. cbn [snd] in Httl.
  destruct ips as [|e ips].
  - simpl. apply Z.eqb_neq in Httl. rewrite Httl.
    apply JsMap_set_not_empty.
  - change (fold_left (refreshOperationalAddress now port) ((ip, ttl) :: e :: ips)
              addresses)
      with (fold_left (refreshOperationalAddress now port) (e :: ips)
              (refreshOperationalAddress now port addresses (ip, ttl))).
    apply IH; [discriminate|exact Hrest].
Qed.

(** X20. An operational SRV record with a non-zero TTL that comes with
    address records for its target, none of them a goodbye, caches the
    device with a non-empty address map and finishes the waiter registered
    under the device name by [findOperationalDevice] (one that resolves on
    updated records): its promise is resolved and the waiter is removed from
    the lookup. *)
Theorem srv_with_addresses_resolves_waiter :
  forall (now : Z) (record : DnsRecord) (target : string) (port : Z)
         (answers formerAnswers : list DnsRecord) (netInterface : string)
         (st : Scanner) (waiter : Waiter),
    r_value record = SrvValue target port ->
    r_ttl record <> 0 ->
    handleIpRecords (enableIpv4 st) (answers ++ formerAnswers) target
      netInterface <> [] ->
    Forall (fun entry => snd entry <> 0)
      (handleIpRecords (enableIpv4 st) (answers ++ formerAnswers) target
         netInterface) ->
    JsMap.get (r_name record) (recordWaiters st) = Some waiter ->
    w_resolveOnUpdatedRecords waiter = true ->
    let st' :=
      handleOperationalSrvRecord now record answers formerAnswers
        netInterface st in
    (exists device,
        JsMap.get (r_name record) (operationalDeviceRecords st')
        = Some device
        /\ od_addresses device <> [])
    /\ resolved st' = resolved st ++ [r_name record]
    /\ recordWaiters st' = JsMap.delete (r_name record) (recordWaiters st)
    /\ activeAnnounceQueries st' = activeAnnounceQueries st.
Proof.
  intros now record target port answers formerAnswers netInterface st waiter
    Hvalue Httl Hips Hall Hwaiter Hflag st'.
  unfold st', handleOperationalSrvRecord.
  apply Z.eqb_neq in Httl. rewrite Hvalue, Httl.
  set (ips := handleIpRecords _ _ _ _) in *.
  set (device := match JsMap.get (r_name record) (operationalDeviceRecords st)
                 with Some d => d | None => _ end).
  pose proof (refreshOperationalAddress_not_empty now port ips
                (od_addresses device) Hips Hall) as Hne.
  set (addresses := fold_left _ ips _) in *.
  assert (Hlen : (0 <? List.length ips)%nat = true).
  { destruct ips; [contradiction|reflexivity]. }
  rewrite Hlen.
  assert (Hsize : (JsMap.size addresses =? 0) = false).
  { apply Z.eqb_neq. unfold JsMap.size.
    destruct addresses; [contradiction|simpl; lia]. }
  assert (Hpos : (JsMap.size addresses >? 0) = true).
  { unfold JsMap.size. destruct addresses; [contradiction|].
    simpl. reflexivity. }
  rewrite Hsize, Hpos. cbn [andb].
  unfold finishWaiter.
  cbn [recordWaiters setOperationalDeviceRecords]. rewrite Hwaiter, Hflag.
  rewrite andb_false_r.
  cbn [operationalDeviceRecords setRecordWaiters setOrphanTimers setResolved
       setOperationalDeviceRecords resolved recordWaiters
       activeAnnounceQueries].
  rewrite JsMap_get_set_same. split; [|repeat split].
  eexists. split; [reflexivity|]. exact Hne.
Qed.

Lemma srv_with_addresses_resolves_waiter_witness :
  let st := registerWaiterPromise sampleOperationalName (Some 5) true
              (newScanner false) in
  let st' :=
    handleOperationalSrvRecord 0 (sampleSrv 120)
      [sampleSrv 120; sampleAAAA 120] [] "eth0" st in
  (exists device,
      JsMap.get sampleOperationalName (operationalDeviceRecords st')
      = Some device
      /\ od_addresses device <> [])
  /\ resolved st' = resolved st ++ [sampleOperationalName]
  /\ recordWaiters st'
     = JsMap.delete sampleOperationalName (recordWaiters st)
  /\ activeAnnounceQueries st' = activeAnnounceQueries st.
Proof.
  apply (srv_with_addresses_resolves_waiter 0 (sampleSrv 120) "host.local"
           5540 [sampleSrv 120; sampleAAAA 120] [] "eth0"
           (registerWaiterPromise sampleOperationalName (Some 5) true
              (newScanner false))
           (mkWaiter (Some 5000) true)).
  - reflexivity.
  - simpl. lia.
  - vm_compute. discriminate.
  - vm_compute. constructor; [discriminate|constructor].
  - reflexivity.
  - reflexivity.
Defined.

(** X21. [#handleOperationalRecords] reports that it handled records exactly
    when the packet has a TXT or SRV record whose name ends with the
    operational service name, or the earlier known answers have such an SRV
    record; otherwise it leaves the scanner unchanged. *)
Theorem handleOperationalRecords_flag :
  forall (consts : MdnsConsts) (now : Z)
         (answers formerAnswers : list DnsRecord) (netInterface : string)
         (st : Scanner),
    let operational (wanted : DnsRecordType.t) (record : DnsRecord) :=
      DnsRecordType.eqb (r_recordType record) wanted
      && Js.endsWith MATTER_SERVICE_QNAME (r_name record) in
    let result :=
      handleOperationalRecords now answers formerAnswers netInterface st in
    (fst result = true
     <-> existsb (operational DnsRecordType.TXT) answers
         || existsb (operational DnsRecordType.SRV) answers
         || existsb (operational DnsRecordType.SRV) formerAnswers = true)
    /\ (fst result = false -> snd result = st).
Proof.
  intros consts now answers formerAnswers netInterface st operational result.
  assert (Hfind : forall f (l : list DnsRecord),
             existsb f l = match find f l with Some _ => true | None => false end).
  { intros f l. induction l as [|x l IH]; simpl; [reflexivity|].
    destruct (f x); [reflexivity|exact IH]. }
  unfold result, handleOperationalRecords.
  fold (operational DnsRecordType.TXT) (operational DnsRecordType.SRV).
  rewrite !Hfind.
  destruct (find (operational DnsRecordType.TXT) answers);
    destruct (find (operational DnsRecordType.SRV) answers);
    destruct (find (operational DnsRecordType.SRV) formerAnswers);
    cbn [fst snd orb]; split; try tauto; try discriminate;
    try (split; [reflexivity|discriminate]); reflexivity.
Qed.

(** *** Expiry sweep *)

Lemma JsMap_keys_app {V : Type} (a b : JsMap.t V) :
  JsMap.keys (a ++ b) = JsMap.keys a ++ JsMap.keys b.
Proof. unfold JsMap.keys. apply map_app. Qed.

Lemma JsMap_set_past {V : Type} (k : string) (v v0 : V)
    (pre rest : JsMap.t V) :
  ~ In k (JsMap.keys pre) ->
  JsMap.set k v (pre ++ (k, v0) :: rest) = pre ++ (k, v) :: rest.
Proof.
  induction pre as [|[k' v'] pre IH]; simpl; intros Hnot.
  - now rewrite String.eqb_refl.
  - destruct (String.eqb k' k) eqn:E.
    + apply String.eqb_eq in E. tauto.
    + rewrite IH by tauto. reflexivity.
Qed.

Lemma JsMap_delete_past {V : Type} (k : string) (v0 : V)
    (pre rest : JsMap.t V) :
  ~ In k (JsMap.keys pre) ->
  JsMap.delete k (pre ++ (k, v0) :: rest) = pre ++ rest.
Proof.
  induction pre as [|[k' v'] pre IH]; simpl; intros Hnot.
  - now rewrite String.eqb_refl.
  - destruct (String.eqb k' k) eqn:E.
    + apply String.eqb_eq in E. tauto.
    + rewrite IH by tauto. reflexivity.
Qed.

(** A sweep over a snapshot of a map with unique keys, each entry being
    rewritten or deleted, is a pass over the entries in order. *)
Lemma sweep_fold {V : Type} (F : JsMap.t V -> string * V -> JsMap.t V)
    (step : string * V -> option V) :
  (forall acc e,
      F acc e = match step e with
                | Some v => JsMap.set (fst e) v acc
                | None => JsMap.delete (fst e) acc
                end) ->
  forall todo pre,
    NoDup (JsMap.keys (pre ++ todo)) ->
    fold_left F todo (pre ++ todo)
    = pre ++ flat_map (fun e => match step e with
                                | Some v => [(fst e, v)]
                                | None => []
                                end) todo.
Proof.
  intros HF todo.
  induction todo as [|[k v] todo IH]; intros pre Hnd.
  - simpl. reflexivity.
  - rewrite JsMap_keys_app in Hnd. cbn [JsMap.keys map fst] in Hnd.
    pose proof (NoDup_remove_2 _ _ _ Hnd) as Hnotin.
    pose proof (NoDup_remove_1 _ _ _ Hnd) as Hrest.
    assert (Hpre : ~ In k (JsMap.keys pre)).
    { intros H. apply Hnotin. apply in_or_app. now left. }
    cbn [fold_left flat_map]. rewrite HF. cbn [fst].
    destruct (step (k, v)) as [v'|].
    + rewrite JsMap_set_past by exact Hpre.
      change (pre ++ (k, v') :: todo) with (pre ++ [(k, v')] ++ todo).
      rewrite app_assoc. rewrite IH.
      * now rewrite <- app_assoc.
      * rewrite <- app_assoc, JsMap_keys_app. exact Hnd.
    + rewrite JsMap_delete_past by exact Hpre. rewrite IH.
      * reflexivity.
      * rewrite JsMap_keys_app. exact Hrest.
Qed.

Lemma expireAddresses_pass now :
  forall todo pre,
    NoDup (JsMap.keys (pre ++ todo)) ->
    fold_left
      (fun remaining entry =>
         if addressAlive now (snd entry) then remaining
         else JsMap.delete (fst entry) remaining)
      todo (pre ++ todo)
    = pre ++ filter (fun entry => addressAlive now (snd entry)) todo.
Proof.
  induction todo as [|[k a] todo IH]; intros pre Hnd.
  - simpl. reflexivity.
  - cbn [fold_left filter fst snd].
    destruct (addressAlive now a).
    + change (pre ++ (k, a) :: todo) with (pre ++ [(k, a)] ++ todo) in *.
      rewrite app_assoc in *. rewrite IH by exact Hnd.
      now rewrite <- app_assoc.
    + rewrite JsMap_keys_app in Hnd. cbn [JsMap.keys map fst] in Hnd.
      pose proof (NoDup_remove_2 _ _ _ Hnd) as Hnotin.
      pose proof (NoDup_remove_1 _ _ _ Hnd) as Hrest.
      rewrite JsMap_delete_past.
      * apply IH. rewrite JsMap_keys_app. exact Hrest.
      * intros H. apply Hnotin. apply in_or_app. now left.
Qed.

Lemma expireAddresses_filter now addresses :
  NoDup (JsMap.keys addresses) ->
  expireAddresses now addresses
  = filter (fun entry => addressAlive now (snd entry)) addresses.
Proof.
  intros Hnd. unfold expireAddresses.
  exact (expireAddresses_pass now addresses [] Hnd).
Qed.

Lemma expireOperationalDevice_step now acc entry :
  NoDup (JsMap.keys (od_addresses (snd entry))) ->
  expireOperationalDevice now acc entry
  = match sweptOperational now entry with
    | (_, device) :: _ => JsMap.set (fst entry) device acc
    | [] => JsMap.delete (fst entry) acc
    end.
Proof.
  destruct entry as [k d]. cbn [fst snd]. intros Hnd.
  unfold expireOperationalDevice, sweptOperational. cbn [fst snd].
  destruct (Z.ltb_spec now (od_discoveredAt d + od_ttl d)) as [Hlt|Hge].
  - rewrite (expireAddresses_filter now _ Hnd). fold (liveAddresses now (od_addresses d)).
    replace (now >=? od_discoveredAt d + od_ttl d) with false
      by (symmetry; rewrite Z.geb_leb; apply Z.leb_gt; exact Hlt).
    cbn [orb andb].
    destruct (JsMap.size (liveAddresses now (od_addresses d)) =? 0);
      reflexivity.
  - replace (now >=? od_discoveredAt d + od_ttl d) with true
      by (symmetry; rewrite Z.geb_leb; apply Z.leb_le; exact Hge).
    reflexivity.
Qed.

Lemma sweep_operational now :
  forall todo pre,
    NoDup (JsMap.keys (pre ++ todo)) ->
    Forall (fun entry => NoDup (JsMap.keys (od_addresses (snd entry)))) todo ->
    fold_left (expireOperationalDevice now) todo (pre ++ todo)
    = pre ++ flat_map (sweptOperational now) todo.
Proof.
  induction todo as [|[k d] todo IH]; intros pre Hnd Hall.
  - reflexivity.
  - inversion Hall as [|? ? Hd Hrest]; subst.
    pose proof Hnd as Hnd'.
    rewrite JsMap_keys_app in Hnd'. cbn [JsMap.keys map fst] in Hnd'.
    pose proof (NoDup_remove_2 _ _ _ Hnd') as Hnotin.
    pose proof (NoDup_remove_1 _ _ _ Hnd') as Hrest'.
    assert (Hpre : ~ In k (JsMap.keys pre)).
    { intros H. apply Hnotin. apply in_or_app. now left. }
    assert (Hshape : sweptOperational now (k, d) = []
                     \/ exists d', sweptOperational now (k, d) = [(k, d')]).
    { unfold sweptOperational. cbn [fst snd].
      destruct (_ && _); [right; eexists; reflexivity|now left]. }
    cbn [fold_left flat_map].
    rewrite (expireOperationalDevice_step now _ (k, d) Hd). cbn [fst].
    destruct Hshape as [E|[d' E]]; rewrite E.
    + rewrite JsMap_delete_past by exact Hpre.
      cbn [app]. apply IH; [|exact Hrest].
      rewrite JsMap_keys_app. exact Hrest'.
    + rewrite JsMap_set_past by exact Hpre.
      change (pre ++ (k, d') :: todo) with (pre ++ [(k, d')] ++ todo).
      rewrite app_assoc. rewrite IH; [now rewrite <- app_assoc| |exact Hrest].
      rewrite <- app_assoc, JsMap_keys_app. exact Hnd'.
Qed.

(** The sweep of an operational cache that is a map keeps, in cache order,
    what [sweptOperational] leaves of each device. *)
Lemma expire_operational_pass now st :
  operationalCacheIsMap st ->
  operationalDeviceRecords (expire now st)
  = flat_map (sweptOperational now) (operationalDeviceRecords st).
Proof.
  intros [Hnd Hall]. unfold expire.
  cbn [operationalDeviceRecords setOperationalDeviceRecords
       setCommissionableDeviceRecords].
  exact (sweep_operational now (operationalDeviceRecords st) [] Hnd Hall).
Qed.

Lemma refreshOperationalAddress_keeps_keys_unique now port ips :
  forall addresses,
    NoDup (JsMap.keys addresses) ->
    NoDup (JsMap.keys
             (fold_left (refreshOperationalAddress now port) ips addresses)).
Proof.
  induction ips as [|[ip ttl] ips IH]; intros addresses H; [exact H|].
  simpl. apply IH. unfold refreshOperationalAddress.
  destruct (ttl =? 0);
    [now apply JsMap_delete_NoDup|now apply JsMap_set_NoDup].
Qed.

Lemma operational_cache_entry st k device :
  operationalCacheIsMap st -> operationalAddressesWithoutTtl st ->
  JsMap.get k (operationalDeviceRecords st) = Some device ->
  NoDup (JsMap.keys (od_addresses device))
  /\ Forall withoutTtl (od_addresses device).
Proof.
  intros [_ Hmap] Hno Hget. split.
  - destruct (JsMap_get_Forall _ _ _ _ Hmap Hget) as [k' H]. exact H.
  - destruct (JsMap_get_Forall _ _ _ _ Hno Hget) as [k' H]. exact H.
Qed.

Lemma operational_cache_set st st' k device :
  operationalCacheIsMap st -> operationalAddressesWithoutTtl st ->
  NoDup (JsMap.keys (od_addresses device)) ->
  Forall withoutTtl (od_addresses device) ->
  operationalDeviceRecords st'
  = JsMap.set k device (operationalDeviceRecords st) ->
  operationalCacheIsMap st' /\ operationalAddressesWithoutTtl st'.
Proof.
  intros [Hnd Hmap] Hno Hd1 Hd2 E.
  unfold operationalCacheIsMap, operationalAddressesWithoutTtl. rewrite E.
  split; [split|].
  - now apply JsMap_set_NoDup.
  - apply JsMap_set_Forall; assumption.
  - apply JsMap_set_Forall; assumption.
Qed.

Lemma operational_cache_delete st st' k :
  operationalCacheIsMap st -> operationalAddressesWithoutTtl st ->
  operationalDeviceRecords st'
  = JsMap.delete k (operationalDeviceRecords st) ->
  operationalCacheIsMap st' /\ operationalAddressesWithoutTtl st'.
Proof.
  intros [Hnd Hmap] Hno E.
  unfold operationalCacheIsMap, operationalAddressesWithoutTtl. rewrite E.
  split; [split|].
  - now apply JsMap_delete_NoDup.
  - now apply JsMap_delete_Forall.
  - now apply JsMap_delete_Forall.
Qed.

Lemma operational_cache_same st st' :
  operationalCacheIsMap st -> operationalAddressesWithoutTtl st ->
  operationalDeviceRecords st' = operationalDeviceRecords st ->
  operationalCacheIsMap st' /\ operationalAddressesWithoutTtl st'.
Proof.
  intros Hmap Hno E.
  unfold operationalCacheIsMap, operationalAddressesWithoutTtl in *.
  rewrite E. split; assumption.
Qed.

Lemma finishWaiter_keeps_operational queryId resolvePromise isUpdated st :
  operationalDeviceRecords (finishWaiter queryId resolvePromise isUpdated st)
  = operationalDeviceRecords st.
Proof.
  unfold finishWaiter.
  destruct (JsMap.get queryId (recordWaiters st)) as [waiter|];
    [|reflexivity].
  destruct (isUpdated && negb (w_resolveOnUpdatedRecords waiter));
    [reflexivity|].
  destruct resolvePromise; reflexivity.
Qed.

Lemma handleOperationalTxtRecord_keeps_invariant now record st :
  operationalCacheIsMap st -> operationalAddressesWithoutTtl st ->
  operationalCacheIsMap (handleOperationalTxtRecord now record st)
  /\ operationalAddressesWithoutTtl (handleOperationalTxtRecord now record st).
Proof.
  intros Hmap Hno. unfold handleOperationalTxtRecord.
  destruct (r_ttl record =? 0).
  - destruct (JsMap.has (r_name record) (operationalDeviceRecords st));
      [|split; assumption].
    eapply operational_cache_delete; [exact Hmap|exact Hno|reflexivity].
  - destruct (arrayValue record); [|split; assumption].
    destruct (JsMap.get (r_name record) (operationalDeviceRecords st))
      as [device|] eqn:Hget.
    + destruct (operational_cache_entry _ _ _ Hmap Hno Hget) as [H1 H2].
      eapply operational_cache_set;
        [exact Hmap|exact Hno| | |reflexivity]; assumption.
    + eapply operational_cache_set;
        [exact Hmap|exact Hno| | |reflexivity]; constructor.
Qed.

Lemma handleOperationalSrvRecord_keeps_invariant now record answers
    formerAnswers netInterface st :
  operationalCacheIsMap st -> operationalAddressesWithoutTtl st ->
  operationalCacheIsMap
    (handleOperationalSrvRecord now record answers formerAnswers
       netInterface st)
  /\ operationalAddressesWithoutTtl
       (handleOperationalSrvRecord now record answers formerAnswers
          netInterface st).
Proof.
  intros Hmap Hno. unfold handleOperationalSrvRecord.
  destruct (r_value record) as [| | |target port| |]; try (split; assumption).
  destruct (r_ttl record =? 0).
  - destruct (JsMap.has (r_name record) (operationalDeviceRecords st));
      [|split; assumption].
    eapply operational_cache_delete; [exact Hmap|exact Hno|reflexivity].
  - set (ips := handleIpRecords _ _ _ _).
    set (device := match JsMap.get (r_name record)
                           (operationalDeviceRecords st) with
                   | Some device => device
                   | None => _
                   end).
    assert (Hdevice : NoDup (JsMap.keys (od_addresses device))
                      /\ Forall withoutTtl (od_addresses device)).
    { unfold device.
      destruct (JsMap.get (r_name record) (operationalDeviceRecords st))
        as [found|] eqn:Hget.
      - exact (operational_cache_entry _ _ _ Hmap Hno Hget).
      - split; constructor. }
    destruct Hdevice as [Hd1 Hd2].
    set (addresses := fold_left _ ips (od_addresses device)).
    set (st1 := if (0 <? List.length ips)%nat then _ else st).
    assert (H1 : operationalCacheIsMap st1
                 /\ operationalAddressesWithoutTtl st1).
    { unfold st1. destruct (0 <? List.length ips)%nat;
        [|split; assumption].
      eapply operational_cache_set;
        [exact Hmap|exact Hno| | |reflexivity];
        cbn [od_addresses withOperationalAddresses].
      - now apply refreshOperationalAddress_keeps_keys_unique.
      - now apply refreshOperationalAddress_never_writes_ttl. }
    destruct H1 as [Hmap1 Hno1].
    destruct ((JsMap.size addresses =? 0) && hasWaiter (r_name record) st1).
    + apply (operational_cache_same st1); [assumption|assumption|].
      apply setQueryRecords_keeps_caches.
    + destruct (JsMap.size addresses >? 0); [|split; assumption].
      apply (operational_cache_same st1); [assumption|assumption|].
      apply finishWaiter_keeps_operational.
Qed.

(** X22. No operational code path gives an address a [ttl]. The cache of a
    new scanner is a map without such an address, and
    [#handleOperationalRecords] keeps it so whatever the packet: the TXT
    handler keeps the addresses it finds, the SRV handler writes only
    [discoveredAt]. *)
Theorem operational_addresses_never_get_ttl :
  forall (consts : MdnsConsts) (ipv4 : bool),
    (operationalCacheIsMap (newScanner ipv4)
     /\ operationalAddressesWithoutTtl (newScanner ipv4))
    /\ forall (now : Z) (answers formerAnswers : list DnsRecord)
              (netInterface : string) (st : Scanner),
         operationalCacheIsMap st ->
         operationalAddressesWithoutTtl st ->
         let st' :=
           snd (handleOperationalRecords now answers formerAnswers
                  netInterface st) in
         operationalCacheIsMap st' /\ operationalAddressesWithoutTtl st'.
Proof.
  intros consts ipv4. split.
  - split; [split|]; constructor.
  - intros now answers formerAnswers netInterface st Hmap Hno.
    unfold handleOperationalRecords.
    set (isTxt := fun record : DnsRecord => _ && _).
    assert (Htxt :
      operationalCacheIsMap
        (snd (match find isTxt answers with
              | Some record =>
                  (true, handleOperationalTxtRecord now record st)
              | None => (false, st)
              end))
      /\ operationalAddressesWithoutTtl
           (snd (match find isTxt answers with
                 | Some record =>
                     (true, handleOperationalTxtRecord now record st)
                 | None => (false, st)
                 end))).
    { destruct (find isTxt answers); cbn [snd]; [|split; assumption].
      now apply handleOperationalTxtRecord_keeps_invariant. }
    destruct (match find isTxt answers with
              | Some record =>
                  (true, handleOperationalTxtRecord now record st)
              | None => (false, st)
              end) as [handled st1].
    cbn [snd] in Htxt. destruct Htxt as [Hmap1 Hno1].
    match goal with
    | |- context [match ?srv with Some _ => _ | None => _ end] =>
        destruct srv
    end; cbn [snd]; [|split; assumption].
    now apply handleOperationalSrvRecord_keeps_invariant.
Qed.

(** The second announcement reaches a cache that holds the first node with
    its address: afterwards both nodes are cached, each with one address,
    and neither address has a [ttl]. *)
Lemma operational_addresses_never_get_ttl_witness :
  let st :=
    snd (handleOperationalRecords (consts := specConsts) 0
           [sampleSrv 120; sampleAAAA 120] [] "eth0" (newScanner false)) in
  let st' :=
    snd (handleOperationalRecords (consts := specConsts) 1000
           otherAnnouncement [] "eth0" st) in
  map (fun entry => (fst entry, od_addresses (snd entry)))
    (operationalDeviceRecords st')
  = [(sampleOperationalName,
      [("fd12::1", mkServer "fd12::1" 5540 "udp" (Some 120000) None)]);
     (otherOperationalName,
      [("fe80::2%eth0",
        mkServer "fe80::2%eth0" 5541 "udp" (Some 61000) None)])]
  /\ operationalCacheIsMap st' /\ operationalAddressesWithoutTtl st'.
Proof.
  intros st st'. split; [reflexivity|].
  destruct (operational_addresses_never_get_ttl specConsts false)
    as [[Hmap0 Hno0] Hstep].
  apply (Hstep 1000 otherAnnouncement [] "eth0" st).
  - apply (Hstep 0 [sampleSrv 120; sampleAAAA 120] [] "eth0"
             (newScanner false)); assumption.
  - apply (Hstep 0 [sampleSrv 120; sampleAAAA 120] [] "eth0"
             (newScanner false)); assumption.
Defined.

Lemma liveAddresses_without_ttl now addresses :
  Forall withoutTtl addresses -> liveAddresses now addresses = [].
Proof.
  induction 1 as [|[k a] l Ha _ IH]; [reflexivity|].
  unfold liveAddresses in *. cbn [filter snd].
  rewrite addressAlive_without_ttl by exact Ha. exact IH.
Qed.

(** X23. Because no cached operational address has a [ttl], the periodic
    sweep, whenever it runs, removes every operational device: after
    [#expire] the operational cache is empty. The query table, the waiters
    and the query timer are not touched. *)
Theorem expire_empties_operational_cache :
  forall (now : Z) (st : Scanner),
    operationalCacheIsMap st ->
    operationalAddressesWithoutTtl st ->
    operationalDeviceRecords (expire now st) = []
    /\ activeAnnounceQueries (expire now st) = activeAnnounceQueries st
    /\ recordWaiters (expire now st) = recordWaiters st
    /\ resolved (expire now st) = resolved st
    /\ queryTimer (expire now st) = queryTimer st.
Proof.
  intros now st Hmap Hno. split; [|repeat split].
  rewrite (expire_operational_pass now st Hmap).
  unfold operationalAddressesWithoutTtl in Hno.
  induction Hno as [|[k d] cache Hd _ IH]; [reflexivity|].
  cbn [flat_map]. rewrite IH, app_nil_r.
  unfold sweptOperational. cbn [fst snd] in *.
  rewrite (liveAddresses_without_ttl now _ Hd).
  cbn [JsMap.size List.length Z.of_nat Z.eqb negb].
  now rewrite andb_false_r.
Qed.

(** Two nodes were announced at times 0 and 1000 with a TTL of 120 s; the
    sweep at time 2000 finds both in the cache and removes both. *)
Lemma expire_empties_operational_cache_witness :
  JsMap.keys (operationalDeviceRecords twoOperationalDevices)
  = [sampleOperationalName; otherOperationalName]
  /\ operationalDeviceRecords (expire 2000 twoOperationalDevices) = []
  /\ activeAnnounceQueries (expire 2000 twoOperationalDevices)
     = activeAnnounceQueries twoOperationalDevices
  /\ recordWaiters (expire 2000 twoOperationalDevices)
     = recordWaiters twoOperationalDevices
  /\ resolved (expire 2000 twoOperationalDevices)
     = resolved twoOperationalDevices
  /\ queryTimer (expire 2000 twoOperationalDevices)
     = queryTimer twoOperationalDevices.
Proof.
  split; [reflexivity|].
  apply (expire_empties_operational_cache 2000 twoOperationalDevices).
  - split; vm_compute.
    + repeat constructor; simpl; intuition discriminate.
    + repeat constructor; simpl; intuition.
  - vm_compute. repeat constructor.
Defined.


Lemma withCommissionableAddresses_same d :
  withCommissionableAddresses (cd_addresses d) d = d.
Proof. destruct d; reflexivity. Qed.

Lemma expireCommissionableDevice_without_lifespan now acc k d :
  withoutLifespan d ->
  expireCommissionableDevice now acc (k, d)
  = if JsMap.size (cd_addresses d) =? 0 then JsMap.delete k acc
    else JsMap.set k d acc.
Proof.
  intros H. unfold expireCommissionableDevice.
  assert (Hnan : Js.add (Js.toNumber (cd_discoveredAt d))
                   (Js.toNumber (cd_ttl d)) = Js.NaN).
  { destruct H as [H|H]; rewrite H; [reflexivity|].
    destruct (cd_discoveredAt d); reflexivity. }
  rewrite Hnan. cbn [Js.lt Js.ge orb].
  rewrite withCommissionableAddresses_same. reflexivity.
Qed.

Lemma sweep_commissionable now :
  forall todo pre,
    NoDup (JsMap.keys (pre ++ todo)) ->
    Forall (fun entry => withoutLifespan (snd entry)) todo ->
    fold_left (expireCommissionableDevice now) todo (pre ++ todo)
    = pre ++ filter
               (fun entry =>
                  negb (JsMap.size (cd_addresses (snd entry)) =? 0))
               todo.
Proof.
  induction todo as [|[k d] todo IH]; intros pre Hnd Hall.
  - reflexivity.
  - inversion Hall as [|? ? Hd Hrest]; subst. cbn [snd] in Hd.
    pose proof Hnd as Hnd'.
    rewrite JsMap_keys_app in Hnd'. cbn [JsMap.keys map fst] in Hnd'.
    pose proof (NoDup_remove_2 _ _ _ Hnd') as Hnotin.
    pose proof (NoDup_remove_1 _ _ _ Hnd') as Hrest'.
    assert (Hpre : ~ In k (JsMap.keys pre)).
    { intros H. apply Hnotin. apply in_or_app. now left. }
    cbn [fold_left filter snd].
    rewrite (expireCommissionableDevice_without_lifespan now _ k d Hd).
    destruct (JsMap.size (cd_addresses d) =? 0); cbn [negb].
    + rewrite JsMap_delete_past by exact Hpre.
      apply IH; [|exact Hrest]. rewrite JsMap_keys_app. exact Hrest'.
    + rewrite JsMap_set_past by exact Hpre.
      change (pre ++ (k, d) :: todo) with (pre ++ [(k, d)] ++ todo).
      rewrite app_assoc. rewrite IH; [now rewrite <- app_assoc| |exact Hrest].
      rewrite <- app_assoc, JsMap_keys_app. exact Hnd'.
Qed.

(** The TXT loop stores every record without [discoveredAt] and [ttl]. *)
Lemma handleCommissionableTxtRecord_without_lifespan now state record :
  Forall (fun entry => withoutLifespan (snd entry)) (fst state) ->
  Forall (fun entry => withoutLifespan (snd entry))
    (fst (handleCommissionableTxtRecord now state record)).
Proof.
  destruct state as [records missing]. intros H.
  unfold handleCommissionableTxtRecord. cbn [fst] in H.
  destruct (r_ttl record =? 0).
  - cbn [fst]. destruct (JsMap.has (r_name record) records);
      [now apply JsMap_delete_Forall|exact H].
  - destruct (parseCommissionableTxtRecord now record) as [parsed|];
      [|exact H].
    destruct (splitVP (VP (p_data parsed))) as [V P].
    destruct (JsMap.get (r_name record) records); cbn [fst];
      (apply JsMap_set_Forall; [exact H|]); left; reflexivity.
Qed.

(** X24. A commissionable record never expires by time: on a commissionable
    cache that is a map and whose records are as the TXT loop stores them
    (no [discoveredAt], no [ttl]), a sweep at any time keeps exactly the
    records that have at least one address, unchanged and in order; it
    prunes no address of theirs. *)
Theorem expire_keeps_commissionable_devices_with_addresses :
  forall (now : Z) (st : Scanner),
    NoDup (JsMap.keys (commissionableDeviceRecords st)) ->
    Forall withoutLifespan (JsMap.values (commissionableDeviceRecords st)) ->
    commissionableDeviceRecords (expire now st)
    = filter
        (fun entry => negb (JsMap.size (cd_addresses (snd entry)) =? 0))
        (commissionableDeviceRecords st).
Proof.
  intros now st Hnd Hall. unfold expire.
  cbn [commissionableDeviceRecords setOperationalDeviceRecords
       setCommissionableDeviceRecords].
  apply (sweep_commissionable now (commissionableDeviceRecords st) [] Hnd).
  unfold JsMap.values in Hall. now rewrite Forall_map in Hall.
Qed.

Lemma expire_keeps_commissionable_devices_with_addresses_witness :
  let st :=
    setCommissionableDeviceRecords sampleCommissionableCache
      (newScanner false) in
  commissionableDeviceRecords (expire 999999999 st)
  = filter
      (fun entry => negb (JsMap.size (cd_addresses (snd entry)) =? 0))
      (commissionableDeviceRecords st).
Proof.
  apply (expire_keeps_commissionable_devices_with_addresses 999999999
           (setCommissionableDeviceRecords sampleCommissionableCache
              (newScanner false))).
  - vm_compute. constructor; [|constructor; [intros []|constructor]].
    intros [H|[]]. discriminate H.
  - vm_compute. repeat constructor.
Defined.

(** *** Address sorter and cache reads: further properties *)

Section SorterOrder.

Context {general : General}.

Lemma insertSorted_ordered x l :
  StronglySorted (fun a b => rank a <= rank b) l ->
  StronglySorted (fun a b => rank a <= rank b)
    (insertSorted compareEntries x l).
Proof.
  induction 1 as [|y l Hsorted IH Hall]; simpl.
  - constructor; [constructor|constructor].
  - rewrite compareEntries_rank.
    destruct (Z.ltb_spec (rank y) (rank x)) as [Hlt|Hge].
    + constructor; [exact IH|].
      eapply Permutation_Forall; [apply insertSorted_perm|].
      constructor; [lia|exact Hall].
    + constructor; [now constructor|].
      constructor; [exact Hge|].
      eapply Forall_impl; [|exact Hall]. simpl. intros a Ha. lia.
Qed.

Lemma arraySort_ordered l :
  StronglySorted (fun a b => rank a <= rank b) (arraySort compareEntries l).
Proof.
  induction l as [|x l IH]; [constructor|].
  rewrite arraySort_cons. now apply insertSorted_ordered.
Qed.

Lemma arraySort_of_ordered l :
  StronglySorted (fun a b => rank a <= rank b) l ->
  arraySort compareEntries l = l.
Proof.
  induction 1 as [|x l Hsorted IH Hall]; [reflexivity|].
  rewrite arraySort_cons, IH. now apply insertSorted_stop.
Qed.

End SorterOrder.

(** X25. The sorted list is ordered by rank (every entry ranks no higher
    than the entries after it), sorting an ordered list changes nothing, and
    so sorting twice is sorting once. *)
Theorem sortServerEntries_is_idempotent :
  forall (general : General) (entries : list MatterServerRecordWithExpire),
    StronglySorted (fun a b => rank a <= rank b) (sortServerEntries entries)
    /\ (StronglySorted (fun a b => rank a <= rank b) entries ->
        sortServerEntries entries = entries)
    /\ sortServerEntries (sortServerEntries entries)
       = sortServerEntries entries.
Proof.
  intros general entries. unfold sortServerEntries.
  split; [apply arraySort_ordered|].
  split; [apply arraySort_of_ordered|].
  apply arraySort_of_ordered, arraySort_ordered.
Qed.

Lemma sortServerEntries_nil (general : General) l :
  sortServerEntries l = [] -> l = [].
Proof.
  intros H. pose proof (sortServerEntries_perm l) as Hp. rewrite H in Hp.
  now apply Permutation_sym, Permutation_nil in Hp.
Qed.

(** X26. [#getOperationalDeviceRecords] answers nothing exactly when the
    device is not cached or is cached without addresses; when it answers,
    the device has the cached identifier and lifespan, and its address list
    is non-empty, is a rearrangement of the cached addresses, and has the
    type [udp] throughout. *)
Theorem getOperationalDeviceRecords_needs_an_address :
  forall (general : General) (name : string) (st : Scanner),
    (getOperationalDeviceRecords name st = None
     <-> match JsMap.get name (operationalDeviceRecords st) with
         | Some device => od_addresses device = []
         | None => True
         end)
    /\ (forall out,
           getOperationalDeviceRecords name st = Some out ->
           exists device,
             JsMap.get name (operationalDeviceRecords st) = Some device
             /\ o_deviceIdentifier out = od_deviceIdentifier device
             /\ o_discoveredAt out = od_discoveredAt device
             /\ o_ttl out = od_ttl device
             /\ o_addresses out <> []
             /\ Permutation
                  (map toServerAddressIp (JsMap.values (od_addresses device)))
                  (o_addresses out)
             /\ Forall (fun a => s_type a = "udp") (o_addresses out)).
Proof.
  intros general name st. unfold getOperationalDeviceRecords.
  destruct (JsMap.get name (operationalDeviceRecords st)) as [device|];
    [|split; [tauto|discriminate]].
  assert (Hzero : JsMap.size (od_addresses device) = 0
                  <-> od_addresses device = []).
  { unfold JsMap.size. destruct (od_addresses device); simpl; split;
      try reflexivity; try discriminate; lia. }
  destruct (Z.eqb_spec (JsMap.size (od_addresses device)) 0) as [Hz|Hnz].
  - split; [tauto|discriminate].
  - split; [split; [discriminate|intros H; tauto]|].
    intros out [= <-]. exists device.
    cbn [o_deviceIdentifier o_discoveredAt o_ttl o_addresses].
    repeat split.
    + intros H. apply map_eq_nil in H.
      apply sortServerEntries_nil in H. unfold JsMap.values in H.
      apply map_eq_nil in H. tauto.
    + apply Permutation_map. apply sortServerEntries_perm.
    + apply Forall_map. apply Forall_forall. reflexivity.
Qed.

(** X27. [findCommissionableDevices] returns at once only cached devices
    that have an address, and only when there is one (and the cache is not
    ignored), with the scanner untouched; otherwise it registers a waiter
    with a timer of [timeoutSeconds * 1000] ms under the query id and
    installs every PTR query of the identifier, leaving the caches as they
    are. *)
Theorem findCommissionableDevices_hit_or_wait :
  forall (general : General) (consts : MdnsConsts)
         (identifier : CommissionableDeviceIdentifiers) (timeoutSeconds : Z)
         (ignoreExistingRecords : bool) (st : Scanner),
    let withAddress :=
      filter (fun d => (0 <? List.length (c_addresses d))%nat)
        (getCommissionableDeviceRecords identifier st) in
    let queryId := buildCommissionableQueryIdentifier identifier in
    match
      findCommissionableDevices identifier timeoutSeconds
        ignoreExistingRecords st
    with
    | Returns devices st' =>
        st' = st /\ ignoreExistingRecords = false
        /\ devices = withAddress /\ devices <> []
        /\ Forall (fun d => c_addresses d <> []) devices
    | Awaits st' =>
        (ignoreExistingRecords = true \/ withAddress = [])
        /\ JsMap.get queryId (recordWaiters st')
           = Some (mkWaiter (Some (timeoutSeconds * 1000)) true)
        /\ (forall q, In q (getCommissionableQueryRecords identifier) ->
              covered (existingQueries queryId st') q = true)
        /\ operationalDeviceRecords st' = operationalDeviceRecords st
        /\ commissionableDeviceRecords st' = commissionableDeviceRecords st
        /\ resolved st' = resolved st
    | Throws _ => False
    end.
Proof.
  intros general consts identifier timeoutSeconds ignore st withAddress
    queryId.
  unfold findCommissionableDevices. fold withAddress queryId.
  set (stored := if ignore then [] else withAddress).
  destruct stored as [|d l] eqn:E; cbn [List.length Nat.eqb].
  - destruct (setQueryRecords_keeps_caches queryId
                (getCommissionableQueryRecords identifier) []
                (registerWaiterPromise queryId (Some timeoutSeconds) true st))
      as (Ho & Hc & Hw & Hr & _).
    split; [destruct ignore; [now left|right; exact E]|].
    split; [rewrite Hw; apply JsMap_get_set_same|].
    split; [intros q Hq; now apply setQueryRecords_covers|].
    rewrite Ho, Hc, Hr. repeat split.
  - destruct ignore; [discriminate E|].
    unfold stored in E. split; [reflexivity|]. split; [reflexivity|].
    split; [now rewrite E|]. split; [discriminate|].
    rewrite <- E. unfold withAddress. apply Forall_forall.
    intros x Hx. apply filter_In in Hx. destruct Hx as [_ Hx].
    destruct (c_addresses x); [discriminate Hx|discriminate].
Qed.

(** *** Streaming discovery: reporting *)

Lemma JsSet_has_In x s : JsSet.has x s = true <-> In x s.
Proof.
  unfold JsSet.has. rewrite existsb_exists. split.
  - intros [y [Hy E]]. apply String.eqb_eq in E. now subst.
  - intros H. exists x. split; [exact H|apply String.eqb_refl].
Qed.

Lemma NoDup_snoc {X : Type} (x : X) (l : list X) :
  NoDup l -> ~ In x l -> NoDup (l ++ [x]).
Proof.
  induction 1 as [|y l Hy Hl IH]; simpl; intros Hx.
  - constructor; [intros []|constructor].
  - constructor.
    + intros H. apply in_app_or in H. destruct H as [H|[H|[]]]; [tauto|].
      subst. tauto.
    + apply IH. tauto.
Qed.

(** One pass over the devices: the seen set grows by the identifiers of the
    devices it reports, stays duplicate-free, and ends up holding the
    identifier of every device of the pass. *)
Lemma reportNewDevices_pass (devices : list CommissionableDevice) :
  forall reported seen reported' seen',
    fold_left
      (fun acc device =>
         let '(reported, seen) := acc in
         let deviceIdentifier := cd_deviceIdentifier (c_record device) in
         if JsSet.has deviceIdentifier seen then acc
         else (reported ++ [device], JsSet.add deviceIdentifier seen))
      devices (reported, seen) = (reported', seen') ->
    exists new,
      reported' = reported ++ new
      /\ seen' = seen ++ map deviceIdentifierOf new
      /\ (NoDup seen -> NoDup seen')
      /\ (forall d, In d new -> In d devices)
      /\ (forall d, In d devices -> In (deviceIdentifierOf d) seen').
Proof.
  induction devices as [|device devices IH];
    intros reported seen reported' seen' H.
  - injection H as <- <-. exists []. simpl. rewrite !app_nil_r.
    repeat split; auto. intros d [].
  - cbn [fold_left] in H.
    destruct (JsSet.has (cd_deviceIdentifier (c_record device)) seen) eqn:E.
    + destruct (IH _ _ _ _ H) as (new & Hr & Hs & Hnd & Hin & Hall).
      exists new. repeat split; auto.
      * intros d Hd. right. now apply Hin.
      * intros d [<-|Hd]; [|now apply Hall].
        rewrite Hs. apply in_or_app. left. now apply JsSet_has_In.
    + unfold JsSet.add in H. rewrite E in H.
      destruct (IH _ _ _ _ H) as (new & Hr & Hs & Hnd & Hin & Hall).
      assert (Hnd' : NoDup seen -> NoDup seen').
      { intros Hseen. apply Hnd. apply NoDup_snoc; [exact Hseen|].
        intros Habs. apply JsSet_has_In in Habs.
        rewrite E in Habs. discriminate. }
      exists (device :: new).
      split; [rewrite Hr, <- app_assoc; reflexivity|].
      split; [rewrite Hs, <- app_assoc; reflexivity|].
      split; [exact Hnd'|]. split.
      * intros d [<-|Hd]; [now left|right; now apply Hin].
      * intros d [<-|Hd]; [|now apply Hall].
        rewrite Hs. apply in_or_app. left. apply in_or_app. right.
        now left.
Qed.

Lemma reportRounds_pass (general : General)
    (identifier : CommissionableDeviceIdentifiers) (rounds : list Scanner) :
  forall reported seen reported' seen',
    fold_left
      (fun acc st =>
         let '(reported, seen) := acc in
         let '(new, seen') :=
           reportNewDevices (getCommissionableDeviceRecords identifier st)
             seen in
         (reported ++ new, seen'))
      rounds (reported, seen) = (reported', seen') ->
    exists new,
      reported' = reported ++ new
      /\ seen' = seen ++ map deviceIdentifierOf new
      /\ (NoDup seen -> NoDup seen')
      /\ (forall st d,
            In st rounds ->
            In d (getCommissionableDeviceRecords identifier st) ->
            In (deviceIdentifierOf d) seen')
      /\ (forall d, In d new ->
            exists st, In st rounds
                       /\ In d (getCommissionableDeviceRecords identifier st)).
Proof.
  induction rounds as [|st rounds IH];
    intros reported seen reported' seen' H.
  - injection H as <- <-. exists []. simpl. rewrite !app_nil_r.
    repeat split; auto; [intros st d []|intros d []].
  - cbn [fold_left] in H.
    destruct (reportNewDevices (getCommissionableDeviceRecords identifier st)
                seen) as [new1 seen1] eqn:E.
    unfold reportNewDevices in E.
    destruct (reportNewDevices_pass _ _ _ _ _ E)
      as (n1 & Hr1 & Hs1 & Hnd1 & Hin1 & Hall1).
    simpl in Hr1. subst new1.
    destruct (IH _ _ _ _ H) as (n2 & Hr2 & Hs2 & Hnd2 & Hall2 & Hin2).
    exists (n1 ++ n2). rewrite Hr2, Hs2, Hs1, map_app, <- !app_assoc.
    split; [reflexivity|]. split; [reflexivity|]. split; [|split].
    + intros Hseen. rewrite !app_assoc, <- Hs1, <- Hs2. auto.
    + intros st0 d [<-|Hst] Hd.
      * specialize (Hall1 d Hd). rewrite Hs1 in Hall1.
        apply in_app_or in Hall1. apply in_or_app.
        destruct Hall1; [now left|right; apply in_or_app; now left].
      * specialize (Hall2 st0 d Hst Hd). rewrite Hs2, Hs1, <- app_assoc in Hall2.
        exact Hall2.
    + intros d Hd. apply in_app_or in Hd. destruct Hd as [Hd|Hd].
      * exists st. split; [now left|now apply Hin1].
      * destruct (Hin2 d Hd) as (st0 & Hst & Hd0).
        exists st0. split; [now right|exact Hd0].
Qed.

(** X28. Over any sequence of rounds of the streaming loop, started with an
    empty set of seen devices, no device identifier is passed to the
    callback twice, every device a round finds in the cache has been
    reported by the end, and the callback only ever receives devices of the
    cache reads. *)
Theorem streaming_reports_each_device_once :
  forall (general : General)
         (identifier : CommissionableDeviceIdentifiers)
         (rounds : list Scanner),
    let reported := fst (reportRounds identifier rounds []) in
    NoDup (map deviceIdentifierOf reported)
    /\ (forall st d,
          In st rounds ->
          In d (getCommissionableDeviceRecords identifier st) ->
          In (deviceIdentifierOf d) (map deviceIdentifierOf reported))
    /\ (forall d, In d reported ->
          exists st, In st rounds
                     /\ In d (getCommissionableDeviceRecords identifier st)).
Proof.
  intros general identifier rounds reported. unfold reported.
  destruct (reportRounds identifier rounds []) as [r s] eqn:E.
  unfold reportRounds in E.
  destruct (reportRounds_pass general identifier rounds _ _ _ _ E)
    as (new & Hr & Hs & Hnd & Hall & Hin).
  simpl in Hr, Hs. subst r s. cbn [fst].
  split; [apply Hnd; constructor|]. split; [exact Hall|exact Hin].
Qed.

Lemma ceilDiv_nonpositive (a : Z) : Js.ceilDiv a 1000 <= 0 <-> a <= 0.
Proof.
  unfold Js.ceilDiv.
  pose proof (Z.div_mod (- a) 1000 ltac:(lia)) as Hdm.
  pose proof (Z.mod_pos_bound (- a) 1000 ltac:(lia)) as Hb.
  split; intros H; lia.
Qed.

(** X29. With an end time, a round of the streaming loop leaves the loop
    exactly when the end time has been reached ([endTime <= now]); before
    that, and always without an end time, it goes on to wait with a waiter
    registered under the query id. In every case it has reported the new
    devices of the cache first, and the caches are not written. *)
Theorem streaming_round_stops_at_end_time :
  forall (general : General) (consts : MdnsConsts) (now : Z)
         (identifier : CommissionableDeviceIdentifiers)
         (discoveryEndTime : option Z) (discoveredDevices : JsSet.t)
         (st : Scanner),
    let report :=
      reportNewDevices (getCommissionableDeviceRecords identifier st)
        discoveredDevices in
    let queryId := buildCommissionableQueryIdentifier identifier in
    match
      continuousIteration now identifier discoveryEndTime discoveredDevices
        st
    with
    | Break reported seen =>
        (exists endTime, discoveryEndTime = Some endTime /\ endTime <= now)
        /\ reported = fst report /\ seen = snd report
    | Wait reported seen st' =>
        match discoveryEndTime with
        | Some endTime => now < endTime
        | None => True
        end
        /\ reported = fst report /\ seen = snd report
        /\ hasWaiter queryId st' = true
        /\ commissionableDeviceRecords st' = commissionableDeviceRecords st
        /\ activeAnnounceQueries st' = activeAnnounceQueries st
    end.
Proof.
  intros general consts now identifier discoveryEndTime discovered st report
    queryId.
  unfold continuousIteration. fold report queryId.
  destruct report as [reported seen]. cbn [fst snd].
  assert (Hwait :
    hasWaiter queryId (registerWaiterPromise queryId None false st) = true).
  { unfold hasWaiter, JsMap.has, registerWaiterPromise.
    cbn [recordWaiters setRecordWaiters setOrphanTimers].
    now rewrite JsMap_get_set_same. }
  destruct discoveryEndTime as [endTime|]; [|repeat split; exact Hwait].
  pose proof (ceilDiv_nonpositive (endTime - now)) as Hc.
  destruct (Z.leb_spec (Js.ceilDiv (endTime - now) 1000) 0) as [H|H].
  - split; [|split; reflexivity]. exists endTime. split; [reflexivity|lia].
  - split; [lia|]. repeat split. exact Hwait.
Qed.

(** *** Address records of a target *)

Lemma length_append (s p : string) :
  String.length (String.append s p) = (String.length s + String.length p)%nat.
Proof. induction s as [|a s IH]; simpl; [reflexivity|now rewrite IH]. Qed.

Lemma substring_all (p : string) : String.substring 0 (String.length p) p = p.
Proof. induction p as [|a p IH]; simpl; [reflexivity|now rewrite IH]. Qed.

Lemma substring_after (s p : string) :
  String.substring (String.length s) (String.length p) (String.append s p) = p.
Proof. induction s as [|a s IH]; simpl; [apply substring_all|exact IH]. Qed.

Lemma endsWith_append (s p : string) :
  Js.endsWith p (String.append s p) = true.
Proof.
  unfold Js.endsWith. rewrite length_append.
  replace (String.length s + String.length p - String.length p)%nat
    with (String.length s) by lia.
  rewrite substring_after, String.eqb_refl.
  rewrite andb_true_r. apply Nat.leb_le. lia.
Qed.

(** X30. The address entries [#handleIpRecords] returns: every one comes
    from an A or AAAA record owned by the target and keeps that record's
    TTL; with IPv4 disabled none comes from an A record; a link-local value
    ([fe80::] prefix) is returned with [%] and the interface name appended,
    any other value as it is. *)
Theorem handleIpRecords_tags_link_local :
  forall (ipv4 : bool) (answers : list DnsRecord) (target : string)
         (netInterface : string) (entry : string * Z),
    In entry (handleIpRecords ipv4 answers target netInterface) ->
    exists record value,
      In record answers
      /\ r_name record = target
      /\ snd entry = r_ttl record
      /\ (r_value record = AAAAValue value
          \/ (ipv4 = true /\ r_value record = AValue value))
      /\ (if Js.startsWith "fe80::" value
          then fst entry
               = String.append value (String.append "%" netInterface)
               /\ Js.endsWith (String.append "%" netInterface) (fst entry)
                  = true
          else fst entry = value).
Proof.
  intros ipv4 answers target netInterface entry H.
  unfold handleIpRecords in H. apply in_flat_map in H.
  destruct H as [record [Hrecord H]]. exists record.
  destruct (String.eqb_spec (r_name record) target) as [Hname|];
    [|destruct H].
  assert (Htag : forall value,
    entry = (if Js.startsWith "fe80::" value
             then String.append value (String.append "%" netInterface)
             else value, r_ttl record) ->
    snd entry = r_ttl record
    /\ (if Js.startsWith "fe80::" value
        then fst entry = String.append value (String.append "%" netInterface)
             /\ Js.endsWith (String.append "%" netInterface) (fst entry) = true
        else fst entry = value)).
  { intros value ->. cbn [fst snd]. split; [reflexivity|].
    destruct (Js.startsWith "fe80::" value); [|reflexivity].
    split; [reflexivity|apply endsWith_append]. }
  destruct (r_value record) as [value|value| | | |] eqn:Hv;
    try (destruct H; fail).
  - destruct ipv4; [|destruct H]. destruct H as [<-|[]].
    exists value. destruct (Htag value eq_refl) as [Ht Hf].
    repeat split; auto.
  - destruct H as [<-|[]].
    exists value. destruct (Htag value eq_refl) as [Ht Hf].
    repeat split; auto.
Qed.

Lemma handleIpRecords_tags_link_local_witness :
  exists record value,
    In record [sampleSrv 120;
               mkDnsRecord "host.local" DnsRecordClass.IN 120
                 (AAAAValue "fe80::1")]
    /\ r_name record = "host.local"
    /\ snd ("fe80::1%eth0", 120) = r_ttl record
    /\ (r_value record = AAAAValue value
        \/ (false = true /\ r_value record = AValue value))
    /\ (if Js.startsWith "fe80::" value
        then fst ("fe80::1%eth0", 120)
             = String.append value (String.append "%" "eth0")
             /\ Js.endsWith (String.append "%" "eth0")
                  (fst ("fe80::1%eth0", 120)) = true
        else fst ("fe80::1%eth0", 120) = value).
Proof.
  apply (handleIpRecords_tags_link_local false
           [sampleSrv 120;
            mkDnsRecord "host.local" DnsRecordClass.IN 120
              (AAAAValue "fe80::1")]
           "host.local" "eth0" ("fe80::1%eth0", 120)).
  vm_compute. left. reflexivity.
Defined.
